(** * The lab 5 assembler ([assembler.ts]) as Rocq functions

    A shallow embedding of [src/assembler.ts]: the line parser, the operation
    definition grammar, the operation table with its directives, the shared
    line walk [_process] of the two passes, the encoder and the emitter, up
    to the top-level [assemble].

    Conventions of the embedding.
    - Source text is a [string] of ASCII characters.  [toUpperCase],
      [toLowerCase] and [trim] are the ASCII restrictions of the JavaScript
      functions.
    - A JavaScript [number] that is not [NaN] is a [number] below: a finite
      value (an exact rational, which covers every finite double) or one of
      the two infinities.  [NaN] is the [None] of [Number_]; the source
      rejects it wherever it calls [Number].  The sign of zero is dropped:
      nothing the assembler does with a number can tell [-0] from [0].
    - [throw] is the [Throw] of [Result]; every [throw] site has its own
      constructor of [Error], with the message text of the source quoted
      beside it.
    - A JavaScript [Map] is an association list in insertion order
      ([JSMap]), since the source iterates over its maps.
    - The source compares [Operation] objects with [===].  An operation
      carries the tag of the call of [Operation.parse] that made it
      ([Alloc]), and [===] is equality of tags.
    - The warning sink [emitWarning] is modelled by the list of the calls
      made to it, in order; that list is part of the outcome of a run,
      whether the run returns or throws. *)

From Stdlib Require Import String Ascii List ZArith QArith Bool Arith Lia.
Import ListNotations.

Local Open Scope string_scope.
Local Open Scope Z_scope.

(** ** JavaScript string primitives used by the assembler *)

Module JS.

(** [WhiteSpace] and [LineTerminator] code points of ECMAScript that are
    ASCII: TAB, LF, VT, FF, CR and SPACE. *)
Definition isWhiteSpace (c : ascii) : bool :=
  let n := nat_of_ascii c in
  ((9 <=? n) && (n <=? 13))%nat || (n =? 32)%nat.

Fixpoint trimStart (s : string) : string :=
  match s with
  | String c s' => if isWhiteSpace c then trimStart s' else s
  | EmptyString => EmptyString
  end.

(** [trimEnd] keeps a character when it is not white space or when
    something that is kept follows it. *)
Fixpoint trimEnd (s : string) : string :=
  match s with
  | String c s' =>
      match trimEnd s' with
      | EmptyString => if isWhiteSpace c then EmptyString else String c EmptyString
      | t => String c t
      end
  | EmptyString => EmptyString
  end.

Definition trim (s : string) : string := trimEnd (trimStart s).

(** [s.startsWith(p)] *)
Definition startsWith (s p : string) : bool := String.prefix p s.

(** [s.indexOf(sub)]: [None] stands for [-1]. *)
Fixpoint indexOf (s sub : string) : option nat :=
  if String.prefix sub s then Some O
  else match s with
       | String _ s' => option_map S (indexOf s' sub)
       | EmptyString => None
       end.

Definition includes (s sub : string) : bool :=
  match indexOf s sub with Some _ => true | None => false end.

(** [s.slice(n)] for [0 <= n]. *)
Fixpoint sliceFrom (n : nat) (s : string) : string :=
  match n, s with
  | O, _ => s
  | S n', String _ s' => sliceFrom n' s'
  | S _, EmptyString => EmptyString
  end.

(** [s.slice(0, n)] for [0 <= n]. *)
Fixpoint sliceTo (n : nat) (s : string) : string :=
  match n, s with
  | O, _ => EmptyString
  | S n', String c s' => String c (sliceTo n' s')
  | S _, EmptyString => EmptyString
  end.

(** [s.replaceAll(c, '')] for a one-character pattern [c]. *)
Fixpoint removeAll (c : ascii) (s : string) : string :=
  match s with
  | String a s' => if Ascii.eqb a c then removeAll c s' else String a (removeAll c s')
  | EmptyString => EmptyString
  end.

(** [s.replaceAll(c, d)] for one-character [c] and [d]. *)
Fixpoint replaceAll (c d : ascii) (s : string) : string :=
  match s with
  | String a s' => String (if Ascii.eqb a c then d else a) (replaceAll c d s')
  | EmptyString => EmptyString
  end.

(** [s.split(c)] for a one-character separator: never the empty list. *)
Fixpoint split (c : ascii) (s : string) : list string :=
  match s with
  | EmptyString => [EmptyString]
  | String a s' =>
      if Ascii.eqb a c then EmptyString :: split c s'
      else match split c s' with
           | p :: ps => String a p :: ps
           | [] => [String a EmptyString]
           end
  end.

Definition upperChar (c : ascii) : ascii :=
  let n := nat_of_ascii c in
  if ((97 <=? n) && (n <=? 122))%nat then ascii_of_nat (n - 32) else c.

Definition lowerChar (c : ascii) : ascii :=
  let n := nat_of_ascii c in
  if ((65 <=? n) && (n <=? 90))%nat then ascii_of_nat (n + 32) else c.

Fixpoint mapString (f : ascii -> ascii) (s : string) : string :=
  match s with
  | String c s' => String (f c) (mapString f s')
  | EmptyString => EmptyString
  end.

Definition toUpperCase : string -> string := mapString upperChar.
Definition toLowerCase : string -> string := mapString lowerChar.

Fixpoint repeatChar (c : ascii) (n : nat) : string :=
  match n with
  | O => EmptyString
  | S n' => String c (repeatChar c n')
  end.

(** [s.padStart(n, c)] for a one-character filler. *)
Definition padStart (n : nat) (c : ascii) (s : string) : string :=
  repeatChar c (n - String.length s) ++ s.

(** [ls.join('')] *)
Fixpoint join (ls : list string) : string :=
  match ls with
  | [] => EmptyString
  | x :: xs => x ++ join xs
  end.

(** A string is truthy when it is not empty. *)
Definition truthy (s : string) : bool :=
  match s with EmptyString => false | _ => true end.

End JS.

(** ** JavaScript numbers *)

(** A number that is not [NaN]. *)
Inductive number : Type :=
| Fin (q : Q)
| PInf
| NInf.

Definition num_of_Z (z : Z) : number := Fin (inject_Z z).
Definition num_of_nat (n : nat) : number := num_of_Z (Z.of_nat n).

(** [a > b] on numbers, for a finite integer [b]. *)
Definition gtZ (a : number) (b : Z) : bool :=
  match a with
  | Fin q => b * Zpos (Qden q) <? Qnum q
  | PInf => true
  | NInf => false
  end.

(** [0 <= a] *)
Definition nonneg (a : number) : bool :=
  match a with
  | Fin q => 0 <=? Qnum q
  | PInf => true
  | NInf => false
  end.

(** Reduction modulo [2^32] into the signed range, the last step of
    [ToInt32]. *)
Definition wrap32 (z : Z) : Z := (z + 2 ^ 31) mod 2 ^ 32 - 2 ^ 31.

(** [ToInt32]: infinities give [0]; a finite value is truncated toward zero
    and wrapped. *)
Definition toInt32 (a : number) : Z :=
  match a with
  | Fin q => wrap32 (Z.quot (Qnum q) (Zpos (Qden q)))
  | PInf | NInf => 0
  end.

(** [a << k] on an [Int32] operand, [0 <= k < 32]. *)
Definition shl32 (a : Z) (k : Z) : Z := wrap32 (Z.shiftl a k).

(** *** Rounding to the nearest double

    [Number(string)] yields the double nearest to the mathematical value of
    the literal, ties to even. *)

(** [floor (log2 (n / d))] for [0 < n] and [0 < d]. *)
Definition binade (n d : Z) : Z :=
  let e := Z.log2 n - Z.log2 d in
  if n * 2 ^ Z.max 0 (- e) <? d * 2 ^ Z.max 0 e then e - 1 else e.

Definition roundPos (n d : Z) : number :=
  let E := Z.max (binade n d - 52) (-1074) in
  let num := n * 2 ^ Z.max 0 (- E) in
  let den := d * 2 ^ Z.max 0 E in
  let q := num / den in
  let r := num mod den in
  let m := if (den <? 2 * r) || ((den =? 2 * r) && Z.odd q) then q + 1 else q in
  if (0 <=? E) && (2 ^ 1024 <=? m * 2 ^ E) then PInf
  else Fin (Qred (Qmake (m * 2 ^ Z.max 0 E) (Z.to_pos (2 ^ Z.max 0 (- E))))).

Definition negate (a : number) : number :=
  match a with
  | Fin q => Fin (Qopp q)
  | PInf => NInf
  | NInf => PInf
  end.

(** The double nearest to [n / d], for [0 <= n] and [0 < d]. *)
Definition roundDouble (n d : Z) : number :=
  if n =? 0 then Fin 0 else roundPos n d.

(** *** [Number(string)]

    The grammar of [StringNumericLiteral]: optional white space around an
    empty string (which is [0]), a binary, octal or hexadecimal integer
    literal without sign, or a decimal literal with an optional sign, an
    optional fraction and an optional exponent, or [Infinity]. *)

Definition digitVal (c : ascii) : option Z :=
  let n := Z.of_nat (nat_of_ascii c) in
  if (48 <=? n) && (n <=? 57) then Some (n - 48)
  else if (97 <=? n) && (n <=? 102) then Some (n - 87)
  else if (65 <=? n) && (n <=? 70) then Some (n - 55)
  else None.

(** The value of a string of digits of the given base, most significant
    first; [None] when a character is not such a digit. *)
Fixpoint digitsVal (base : Z) (acc : Z) (s : string) : option Z :=
  match s with
  | EmptyString => Some acc
  | String c s' =>
      match digitVal c with
      | Some d => if d <? base then digitsVal base (acc * base + d) s' else None
      | None => None
      end
  end.

Definition isDecimalDigit (c : ascii) : bool :=
  let n := nat_of_ascii c in ((48 <=? n) && (n <=? 57))%nat.

(** The longest prefix of decimal digits, and what follows it. *)
Fixpoint takeDigits (s : string) : string * string :=
  match s with
  | String c s' =>
      if isDecimalDigit c then let (d, r) := takeDigits s' in (String c d, r)
      else (EmptyString, s)
  | EmptyString => (EmptyString, EmptyString)
  end.

(** [ExponentPart], or nothing: the power of ten. *)
Definition parseExponent (s : string) : option Z :=
  match s with
  | EmptyString => Some 0
  | String c r =>
      if Ascii.eqb c "e" || Ascii.eqb c "E" then
        match r with
        | String "+" ds => if JS.truthy ds then digitsVal 10 0 ds else None
        | String "-" ds => if JS.truthy ds then option_map Z.opp (digitsVal 10 0 ds) else None
        | ds => if JS.truthy ds then digitsVal 10 0 ds else None
        end
      else None
  end.

(** [StrUnsignedDecimalLiteral]. *)
Definition parseUnsignedDecimal (s : string) : option number :=
  if String.eqb s "Infinity" then Some PInf
  else
    let (ip, r1) := takeDigits s in
    let '(fp, r2) :=
      match r1 with
      | String "." r => takeDigits r
      | _ => (EmptyString, r1)
      end in
    if JS.truthy ip || JS.truthy fp then
      match digitsVal 10 0 (ip ++ fp), parseExponent r2 with
      | Some m, Some e =>
          let k := e - Z.of_nat (String.length fp) in
          Some (if 0 <=? k then roundDouble (m * 10 ^ k) 1 else roundDouble m (10 ^ (- k)))
      | _, _ => None
      end
    else None.

Definition parseNonDecimal (base : Z) (ds : string) : option number :=
  if JS.truthy ds then option_map (fun v => roundDouble v 1) (digitsVal base 0 ds)
  else None.

(** [Number(s)]; [None] is [NaN]. *)
Definition Number_ (s : string) : option number :=
  match JS.trim s with
  | EmptyString => Some (Fin 0)
  | String "0" (String "b" ds) | String "0" (String "B" ds) => parseNonDecimal 2 ds
  | String "0" (String "o" ds) | String "0" (String "O" ds) => parseNonDecimal 8 ds
  | String "0" (String "x" ds) | String "0" (String "X" ds) => parseNonDecimal 16 ds
  | String "+" r => parseUnsignedDecimal r
  | String "-" r => option_map negate (parseUnsignedDecimal r)
  | t => parseUnsignedDecimal t
  end.

(** [n.toString(16)] for an integer [n]. *)
Definition hexDigit (d : Z) : ascii :=
  match String.get (Z.to_nat d) "0123456789abcdef" with
  | Some c => c
  | None => "0"%char
  end.

Fixpoint hexOfPos (fuel : nat) (z : Z) (acc : string) : string :=
  match fuel with
  | O => acc
  | S f =>
      let acc' := String (hexDigit (z mod 16)) acc in
      if z / 16 =? 0 then acc' else hexOfPos f (z / 16) acc'
  end.

Definition toString16 (z : Z) : string :=
  if z <? 0 then String "-" (hexOfPos (S (Z.to_nat (Z.log2 (- z)))) (- z) EmptyString)
  else hexOfPos (S (Z.to_nat (Z.log2 z))) z EmptyString.

(** ** Errors *)

Inductive Error : Type :=
(* Instruction data can't be more than 7 bits but was ... *)
| DataTooWide (d : number)
(* Opcode can't be more than 4 bits but was ... *)
| OpcodeTooWide (o : number)
(* Could not parse <empty string> as an operation *)
| OpEmpty
(* Expected register info " reg=..." after operation name "..." *)
| OpExpectedRegInfo (text : string)
(* Expected data info " data=...." after register info *)
| OpExpectedDataInfo
(* Expected register info to start with "reg=" but found "..." *)
| OpRegPrefix (found : string)
(* Expected register info to start with "reg=" but found no "=" *)
| OpRegNoEquals
(* Expected one of never, optional, always after "reg=" *)
| OpRegValue
(* Expected data info to start with "data=" but found "..." *)
| OpDataPrefix (found : string)
(* Expected data info to start with "data=" but found no "=" *)
| OpDataNoEquals
(* Expected one of address, binary, none after "data=" *)
| OpDataValue
(* Expected arrow "=>" after operation definition before output instructions *)
| OpExpectedArrow
(* Failed to parse ... as number to use as opcode *)
| OpOpcodeNaN (opcodeStr : option string)
(* Invalid modifier #i "..." for output opcode "...", ... *)
| OpInvalidModifier (i : nat) (modifier opcodeStr : string)
(* Expected @define or @no_default_ops but found "..." *)
| UnknownAttribute (text : string)
(* Labels can't contain spaces but found the label "..." *)
| LabelHasSpaces (text : string)
(* This instruction didn't expect a register *)
| UnexpectedRegister
(* Failed to parse ... as a [binary ]number *)
| DataNaN (text : string) (isBinary : bool)
(* Syntax error at line n with content "..." *)
| SyntaxErrorAt (lineNo : nat) (content : string) (cause : Error)
(* Label "..." was defined multiple times *)
| LabelDefinedTwice (label : string)
(* Label "..." was never defined *)
| LabelNeverDefined (label : string)
(* Unknown operation "..." *)
| UnknownOperation (name : string)
(* Must specify register using R0 or R1 *)
| MustSpecifyRegister
(* Can't specify a register for this operation, remove "..." *)
| CantSpecifyRegister (reg : string)
(* This instruction requires a target address *)
| RequiresTargetAddress
(* This instruction requires a binary value *)
| RequiresBinaryValue
(* Failed to emit instruction for line n in assembly file with content: ... *)
| FailedToEmit (lineNo : nat) (content : string) (cause : Error)
(* Generate labels before emitting instructions *)
| GenerateLabelsFirst.

Inductive Result (A : Type) : Type :=
| Ok (a : A)
| Throw (e : Error).

Arguments Ok {A} a.
Arguments Throw {A} e.

Notation "x <- e1 ;; e2" :=
  (match e1 with Ok x => e2 | Throw err => Throw err end)
  (at level 61, e1 at next level, right associativity).

(** A bit-width error of the encoder. *)
Definition isBitWidthError (e : Error) : bool :=
  match e with
  | DataTooWide _ | OpcodeTooWide _ => true
  | _ => false
  end.

(** ** Instruction: an encoded word *)

Record Instruction : Type := mkInstruction {
  _opcode : number;
  _r1 : bool;
  _data : number;
  comment : string
}.

(** The constructor of [Instruction]. *)
Definition Instruction_new (opcode : number) (r1 : bool) (data : number) (comment : string)
  : Result Instruction :=
  if gtZ data 127 then Throw (DataTooWide data)
  else if gtZ opcode 15 then Throw (OpcodeTooWide opcode)
  else Ok (mkInstruction opcode r1 data comment).

(** [opcode << 9 | (+r1) << 8 | data] *)
Definition word (i : Instruction) : Z :=
  Z.lor (Z.lor (shl32 (toInt32 (_opcode i)) 9)
               (shl32 (if _r1 i then 1 else 0) 8))
        (toInt32 (_data i)).

(** [Instruction.toString] *)
Definition Instruction_toString (i : Instruction) : string :=
  JS.padStart 4 "0" (toString16 (word i)) ++ ";" ++ comment i.

(** ** Operations *)

Inductive OperationReg : Type := never | optional | always.
Inductive OperationData : Type := address | binary | none.

(** [isOperationReg], returning the value it recognises. *)
Definition asOperationReg (text : string) : option OperationReg :=
  if String.eqb text "never" then Some never
  else if String.eqb text "optional" then Some optional
  else if String.eqb text "always" then Some always
  else None.

(** [isOperationData], returning the value it recognises. *)
Definition asOperationData (text : string) : option OperationData :=
  if String.eqb text "address" then Some address
  else if String.eqb text "binary" then Some binary
  else if String.eqb text "none" then Some none
  else None.

Record OperationOutput : Type := mkOutput {
  opcode : number;
  useRegister : bool;
  useData : bool
}.

(** The identity of an [Operation] object.  The source compares operations
    with [===]; every object is created by one call of [Operation.parse],
    either while the module loads ([defaultOps], entry [k]) or for the
    [@define] of line [lineIx] during the [parse]-th call of
    [Program.parse] of a run. *)
Inductive Alloc : Type :=
| BuiltIn (k : nat)
| Defined (parse : nat) (lineIx : nat).

Definition Alloc_eqb (a b : Alloc) : bool :=
  match a, b with
  | BuiltIn j, BuiltIn k => Nat.eqb j k
  | Defined p i, Defined q j => Nat.eqb p q && Nat.eqb i j
  | _, _ => false
  end.

Record Operation : Type := mkOperation {
  alloc : Alloc;
  op : string;
  reg : OperationReg;
  data : OperationData;
  alwaysBranches : bool;
  output : list OperationOutput
}.

(** [a === b] on operations. *)
Definition Operation_same (a b : Operation) : bool := Alloc_eqb (alloc a) (alloc b).

(** The modifiers after an opcode: [options] of the source, [i] the index
    of the first of them. *)
Fixpoint applyModifiers (opcodeStr : string) (i : nat) (options : list string)
    (entry : OperationOutput) : Result OperationOutput :=
  match options with
  | [] => Ok entry
  | o :: rest =>
      if String.eqb o "no-reg" then
        applyModifiers opcodeStr (S i) rest (mkOutput (opcode entry) false (useData entry))
      else if String.eqb o "no-data" then
        applyModifiers opcodeStr (S i) rest (mkOutput (opcode entry) (useRegister entry) false)
      else Throw (OpInvalidModifier (S i) o opcodeStr)
  end.

(** One iteration of the loop over [text.split(',')]. *)
Definition parseOutput (outputStr : string) : Result OperationOutput :=
  match filter JS.truthy (JS.split " " outputStr) with
  | [] => Throw (OpOpcodeNaN None)
  | opcodeStr :: options =>
      match Number_ opcodeStr with
      | None => Throw (OpOpcodeNaN (Some opcodeStr))
      | Some opcode => applyModifiers opcodeStr 0 options (mkOutput opcode true true)
      end
  end.

Fixpoint parseOutputs (outputStrs : list string) : Result (list OperationOutput) :=
  match outputStrs with
  | [] => Ok []
  | o :: rest =>
      entry <- parseOutput o ;;
      entries <- parseOutputs rest ;;
      Ok (entry :: entries)
  end.

(** [Operation.parse]; [a] is the identity of the object it creates. *)
Definition Operation_parse (a : Alloc) (text : string) : Result Operation :=
  let text := JS.trim text in
  if negb (JS.truthy text) then Throw OpEmpty else
  match JS.indexOf text " " with
  | None => Throw (OpExpectedRegInfo text)
  | Some opIx =>
  let op := JS.sliceTo opIx text in
  let text := JS.trimStart (JS.sliceFrom (opIx + 1) text) in
  match JS.indexOf text " " with
  | None => Throw OpExpectedDataInfo
  | Some regIx =>
  let reg := JS.sliceTo regIx text in
  let text := JS.trimStart (JS.sliceFrom (regIx + 1) text) in
  if negb (JS.startsWith reg "reg") then Throw (OpRegPrefix reg) else
  let reg := JS.trimStart (JS.sliceFrom (String.length "reg") reg) in
  if negb (JS.startsWith reg "=") then Throw OpRegNoEquals else
  let reg := JS.trimStart (JS.sliceFrom (String.length "=") reg) in
  match asOperationReg reg with
  | None => Throw OpRegValue
  | Some reg =>
  let '(data, text) :=
    match JS.indexOf text " " with
    | Some dataIx => (JS.sliceTo dataIx text, JS.trimStart (JS.sliceFrom (dataIx + 1) text))
    | None => (text, EmptyString)
    end in
  if negb (JS.startsWith data "data") then Throw (OpDataPrefix data) else
  let data := JS.trimStart (JS.sliceFrom (String.length "data") data) in
  if negb (JS.startsWith data "=") then Throw OpDataNoEquals else
  let data := JS.trimStart (JS.sliceFrom (String.length "=") data) in
  match asOperationData data with
  | None => Throw OpDataValue
  | Some data =>
  let unreachableFlag := "unconditional-jump" in
  let unreachable := JS.startsWith text unreachableFlag in
  let text :=
    if unreachable then JS.trimStart (JS.sliceFrom (String.length unreachableFlag) text)
    else text in
  output <-
    (if JS.truthy text then
       if negb (JS.startsWith text "=>") then Throw OpExpectedArrow
       else parseOutputs (JS.split "," (JS.trimStart (JS.sliceFrom (String.length "=>") text)))
     else Ok []) ;;
  Ok (mkOperation a op reg data unreachable output)
  end end end end.

(** ** Lines and items *)

Inductive Reg : Type := R0 | R1.

Definition knownRegisters : list (Reg * string) := [(R0, "R0"); (R1, "R1")].

Definition Reg_name (r : Reg) : string :=
  match r with R0 => "R0" | R1 => "R1" end.

Record Statement : Type := mkStatement {
  s_op : string;
  s_reg : option Reg;
  s_data : option number;
  s_jumpLabel : option string
}.

Record Attribute : Type := mkAttribute {
  content : string;
  a_op : option Operation;
  no_default_ops : bool
}.

Inductive Item : Type :=
| statement (s : Statement)
| label (name : string)
| attribute (a : Attribute).

Inductive ItemType : Type := TStatement | TLabel | TAttribute.

(** [ParseOptions].  An absent field is [None]; an absent [options] is the
    record of three absent fields.  A key that [parseItemTypes] lacks reads
    as [false]. *)
Record ParseOptions : Type := mkParseOptions {
  supportedOps : option (list Operation);
  expectBinaryData : option (string -> bool);
  parseItemTypes : option (ItemType -> bool)
}.

Record Line : Type := mkLine {
  line : string;
  uncommentedLine : string;
  item : option Item;
  l_comment : option string;
  secretComment : option string
}.

(** The loop over [knownRegisters] of [parseStatement]. *)
Fixpoint parseRegister (regs : list (Reg * string)) (text : string) : option Reg * string :=
  match regs with
  | [] => (None, text)
  | (r, knownReg) :: rest =>
      if negb (JS.startsWith text knownReg) then parseRegister rest text
      else (Some r, JS.trimStart (JS.sliceFrom (String.length knownReg) text))
  end.

(** The loop over [options.supportedOps] of [parseStatement]. *)
Fixpoint expectsBinary (ops : list Operation) (name : string) : bool :=
  match ops with
  | [] => false
  | operation :: rest =>
      if negb (String.eqb (JS.toUpperCase (op operation)) (JS.toUpperCase name))
      then expectsBinary rest name
      else match data operation with binary => true | _ => false end
  end.

Definition parseStatement (text : string) (options : ParseOptions) : Result Statement :=
  let text := JS.trim text in
  match JS.indexOf text " " with
  | None => Ok (mkStatement text None None None)
  | Some afterOpIx =>
  let op := JS.trimEnd (JS.sliceTo afterOpIx text) in
  let text := JS.trimStart (JS.sliceFrom afterOpIx text) in
  let '(reg, text) := parseRegister knownRegisters text in
  jl <-
    (if JS.startsWith text ":" then
       let jumpLabel := JS.sliceFrom 1 text in
       if JS.includes jumpLabel " " then Throw (LabelHasSpaces text)
       else Ok (Some jumpLabel, EmptyString)
     else Ok (None, text)) ;;
  let '(jumpLabel, text) := jl in
  data <-
    (if JS.truthy text then
       let isBinary :=
         match supportedOps options with
         | Some ops => expectsBinary ops op
         | None =>
             match expectBinaryData options with
             | Some f => f op
             | None => false
             end
         end in
       let joinedText := JS.removeAll " " text in
       match Number_ ((if isBinary then "0b" else EmptyString) ++ joinedText) with
       | Some data => Ok (Some data)
       | None =>
           if JS.startsWith (JS.toLowerCase text) "r" then Throw UnexpectedRegister
           else Throw (DataNaN text isBinary)
       end
     else Ok None) ;;
  Ok (mkStatement op reg data jumpLabel)
  end.

Definition canParse (options : ParseOptions) (key : ItemType) : bool :=
  match parseItemTypes options with
  | None => true
  | Some types => types key
  end.

(** The classification of the trimmed text by [Line.parse]; [a] is the
    identity of the operation of a [@define]. *)
Definition parseItem (a : Alloc) (text : string) (options : ParseOptions)
  : Result (option Item) :=
  if JS.startsWith text "@" then
    if canParse options TAttribute then
      let content := JS.sliceFrom (String.length "@") text in
      if JS.startsWith text "@define" then
        o <- Operation_parse a (JS.sliceFrom (String.length "@define") text) ;;
        Ok (Some (attribute (mkAttribute content (Some o) false)))
      else if String.eqb (JS.toLowerCase text) "@no_default_ops" then
        Ok (Some (attribute (mkAttribute content None true)))
      else Throw (UnknownAttribute text)
    else Ok None
  else if JS.startsWith text ":" then
    if canParse options TLabel then
      let jumpLabel := JS.sliceFrom 1 text in
      if JS.includes jumpLabel " " then Throw (LabelHasSpaces text)
      else Ok (Some (label jumpLabel))
    else Ok None
  else if JS.truthy text && canParse options TStatement then
    s <- parseStatement text options ;;
    Ok (Some (statement s))
  else Ok None.

(** The two comments of a line and the text before them. *)
Definition splitComments (line : string) : option string * option string * string :=
  let text := line in
  let '(secretComment, text) :=
    match JS.indexOf text "#" with
    | Some secretIx =>
        (Some (JS.sliceFrom (secretIx + String.length "#") text), JS.sliceTo secretIx text)
    | None => (None, text)
    end in
  let '(comment, text) :=
    match JS.indexOf text "//" with
    | Some commentIx =>
        (Some (JS.sliceFrom (commentIx + String.length "//") text), JS.sliceTo commentIx text)
    | None => (None, text)
    end in
  (secretComment, comment, text).

(** [Line.parse] *)
Definition Line_parse (a : Alloc) (line : string) (options : ParseOptions) : Result Line :=
  let '(secretComment, comment, text) := splitComments line in
  let text := JS.trim text in
  item <- parseItem a text options ;;
  Ok (mkLine line text item comment secretComment).

(** ** The built-in operations *)

(** The template literal of the source, line breaks included. *)
Definition defaultOpsText : string := "
CALL reg=never data=address => 0
RET reg=never data=none unconditional-jump => 1
BZ reg=always data=address => 2
B reg=never data=address unconditional-jump => 3
ADD reg=always data=binary => 4
SUB reg=always data=binary => 5
LD reg=always data=binary => 6
IN reg=always data=none => 7
OUT reg=always data=none => 8
AND reg=always data=binary => 9
WRITE reg=optional data=binary => 6, 8 no-data
".

(** The [map] over the lines of the built-in table. *)
Fixpoint parseDefaultOps (ix : nat) (lines : list string) : Result (list Operation) :=
  match lines with
  | [] => Ok []
  | l :: rest =>
      o <- Operation_parse (BuiltIn ix) l ;;
      os <- parseDefaultOps (S ix) rest ;;
      Ok (o :: os)
  end.

(** [defaultOps]: every line of the table parses, so the module loads. *)
Definition defaultOps : list Operation :=
  Eval vm_compute in
  match parseDefaultOps 0 (filter JS.truthy (JS.split "010" defaultOpsText)) with
  | Ok os => os
  | Throw _ => []
  end.

(** ** The operation table and the label map *)

Definition JSMap (V : Type) : Type := list (string * V).

Section JSMap.
Context {V : Type}.

Fixpoint map_get (m : JSMap V) (k : string) : option V :=
  match m with
  | [] => None
  | (k', v) :: rest => if String.eqb k' k then Some v else map_get rest k
  end.

Definition map_has (m : JSMap V) (k : string) : bool :=
  match map_get m k with Some _ => true | None => false end.

(** [m.set(k, v)]: an existing key keeps its place. *)
Fixpoint map_set (m : JSMap V) (k : string) (v : V) : JSMap V :=
  match m with
  | [] => [(k, v)]
  | (k', v') :: rest =>
      if String.eqb k' k then (k, v) :: rest else (k', v') :: map_set rest k v
  end.

Fixpoint map_delete (m : JSMap V) (k : string) : JSMap V :=
  match m with
  | [] => []
  | (k', v') :: rest =>
      if String.eqb k' k then rest else (k', v') :: map_delete rest k
  end.

Definition map_values (m : JSMap V) : list V := map snd m.

Definition map_keys (m : JSMap V) : list string := map fst m.

(** [new Map(entries)] *)
Definition map_of_entries (entries : list (string * V)) : JSMap V :=
  fold_left (fun m e => map_set m (fst e) (snd e)) entries [].

End JSMap.

(** ** Programs *)

Record Program : Type := mkProgram {
  lines : list Line;
  labels : option (JSMap nat);
  ops : JSMap Operation
}.

Definition setOps (p : Program) (os : list Operation) : Program :=
  mkProgram (lines p) (labels p)
            (map_of_entries (map (fun o => (JS.toUpperCase (op o), o)) os)).

(** The [map] over the lines of [Program.parse]; [ix] is the index of the
    first line of [ls]. *)
Fixpoint parseLines (parse ix : nat) (ls : list string) (options : ParseOptions)
  : Result (list Line) :=
  match ls with
  | [] => Ok []
  | l :: rest =>
      match Line_parse (Defined parse ix) l options with
      | Throw error => Throw (SyntaxErrorAt (ix + 1) l error)
      | Ok parsed =>
          more <- parseLines parse (S ix) rest options ;;
          Ok (parsed :: more)
      end
  end.

(** [Program.parse]; [parse] numbers the calls within a run. *)
Definition Program_parse (parse : nat) (content : string) (options : ParseOptions)
  : Result Program :=
  ls <- parseLines parse 0 (JS.split "010" (JS.removeAll "013" content)) options ;;
  Ok (mkProgram ls None []).

(** A call [emitWarning(msg, lineIndex)], where [msg] is
    [branching to hard coded address N]. *)
Inductive Warning : Type :=
| BranchingToHardCodedAddress (address : number) (lineIndex : nat).

(** [ProgramProcessOptions]; [emitWarning] tells whether a sink is there. *)
Record ProgramProcessOptions : Type := mkOptions {
  resolveLabels : bool;
  validateInstructionArgs : bool;
  emitWarning : bool
}.

(** What the walk of [_process] carries from line to line: the two maps of
    [this], and its locals [instructions] and [unreachable]. *)
Record Walk : Type := mkWalk {
  w_labels : option (JSMap nat);
  w_ops : JSMap Operation;
  instructions : list Instruction;
  unreachable : bool
}.

(** [case 'label'] *)
Definition processLabel (options : ProgramProcessOptions) (name : string) (w : Walk)
  : Result Walk :=
  let w := mkWalk (w_labels w) (w_ops w) (instructions w) false in
  if negb (resolveLabels options) then Ok w
  else match w_labels w with
       | Some m =>
           if map_has m name then Throw (LabelDefinedTwice name)
           else Ok (mkWalk (Some (map_set m name (List.length (instructions w))))
                           (w_ops w) (instructions w) false)
       | None => Ok w
       end.

(** The head of [case 'statement']: the jump label is looked up when it is
    truthy, and the address found is stored in the item. *)
Definition resolveJumpLabel (options : ProgramProcessOptions) (labels : option (JSMap nat))
    (s : Statement) : Result Statement :=
  match s_jumpLabel s with
  | Some jumpLabel =>
      if JS.truthy jumpLabel then
        match match labels with Some m => map_get m jumpLabel | None => None end with
        | Some target =>
            Ok (mkStatement (s_op s) (s_reg s) (Some (num_of_nat target)) (s_jumpLabel s))
        | None =>
            if validateInstructionArgs options then Throw (LabelNeverDefined jumpLabel)
            else Ok s
        end
      else Ok s
  | None => Ok s
  end.

Definition jumpLabelTruthy (s : Statement) : bool :=
  match s_jumpLabel s with
  | Some jumpLabel => JS.truthy jumpLabel
  | None => false
  end.

(** The block under [if (options.validateInstructionArgs)]: the warnings it
    hands to the sink, and whether it throws. *)
Definition validateArgs (sink : bool) (o : Operation) (s : Statement) (unreachable : bool)
    (i : nat) : list Warning * Result unit :=
  match
    match reg o with
    | always =>
        match s_reg s with None => Throw MustSpecifyRegister | Some _ => Ok tt end
    | never =>
        match s_reg s with Some r => Throw (CantSpecifyRegister (Reg_name r)) | None => Ok tt end
    | optional => Ok tt
    end
  with
  | Throw e => ([], Throw e)
  | Ok _ =>
      match data o with
      | address =>
          match s_data s with
          | None => ([], Throw RequiresTargetAddress)
          | Some d =>
              if negb (jumpLabelTruthy s) && negb unreachable then
                (if sink then [BranchingToHardCodedAddress d i] else [], Ok tt)
              else ([], Ok tt)
          end
      | binary =>
          match s_data s with
          | None => ([], Throw RequiresBinaryValue)
          | Some _ => ([], Ok tt)
          end
      | none => ([], Ok tt)
      end
  end.

(** The loop over [this.labels] that collects the labels bound to the
    address of the next instruction. *)
Definition labelComment (labels : option (JSMap nat)) (address : nat) : string :=
  match labels with
  | Some m =>
      fold_left
        (fun acc e =>
           if Nat.eqb address (snd e)
           then acc ++ ":" ++ JS.replaceAll " " "_" (fst e) ++ " "
           else acc)
        m EmptyString
  | None => EmptyString
  end.

Definition assemblyComment (l : Line) (labels : option (JSMap nat)) (address : nat) : string :=
  match l_comment l with
  | Some c => c ++ (if JS.truthy c then " " else EmptyString)
  | None => EmptyString
  end ++ "(Assembly: " ++ labelComment labels address ++ uncommentedLine l ++ ")".

Definition Reg_isR1 (r : option Reg) : bool :=
  match r with Some R1 => true | _ => false end.

(** The register bit and the data field of the word that an output
    descriptor makes of a statement. *)
Definition registerBit (out : OperationOutput) (s : Statement) : bool :=
  if useRegister out then Reg_isR1 (s_reg s) else false.

Definition dataField (out : OperationOutput) (s : Statement) : number :=
  if useData out then match s_data s with Some d => d | None => Fin 0 end else Fin 0.

(** One [new Instruction(...)] of the loop over [op.output]. *)
Definition encode (out : OperationOutput) (s : Statement) (comment : string)
  : Result Instruction :=
  Instruction_new (opcode out) (registerBit out s) (dataField out s) comment.

(** The loop over [op.output]. *)
Fixpoint encodeOutputs (outs : list OperationOutput) (s : Statement) (comment : string)
    (instructions : list Instruction) : Result (list Instruction) :=
  match outs with
  | [] => Ok instructions
  | out :: rest =>
      i <- encode out s comment ;;
      encodeOutputs rest s comment (instructions ++ [i])%list
  end.

(** [case 'statement'] *)
Definition processStatement (options : ProgramProcessOptions) (i : nat) (l : Line)
    (s : Statement) (w : Walk) : list Warning * Result (Statement * Walk) :=
  match resolveJumpLabel options (w_labels w) s with
  | Throw e => ([], Throw e)
  | Ok s =>
      match map_get (w_ops w) (JS.toUpperCase (s_op s)) with
      | None => ([], Throw (UnknownOperation (s_op s)))
      | Some o =>
          let '(warnings, valid) :=
            if validateInstructionArgs options
            then validateArgs (emitWarning options) o s (unreachable w) i
            else ([], Ok tt) in
          (warnings,
           _ <- valid ;;
           let comment := assemblyComment l (w_labels w) (List.length (instructions w)) in
           instructions' <- encodeOutputs (output o) s comment (instructions w) ;;
           Ok (s, mkWalk (w_labels w) (w_ops w) instructions'
                         (if alwaysBranches o then true else unreachable w)))
      end
  end.

(** One iteration of the loop over [defaultOps] of [case 'attribute']:
    the entry under the name of the built-in operation [d] is deleted when
    it is [d] itself. *)
Definition clearOne (m : JSMap Operation) (d : Operation) : JSMap Operation :=
  match map_get m (JS.toUpperCase (op d)) with
  | Some o => if Operation_same o d then map_delete m (JS.toUpperCase (op d)) else m
  | None => m
  end.

(** The loop over [defaultOps] of [case 'attribute']. *)
Definition clearDefaultOps (ops : JSMap Operation) : JSMap Operation :=
  fold_left clearOne defaultOps ops.

(** [case 'attribute'] *)
Definition processAttribute (a : Attribute) (w : Walk) : Walk :=
  let ops1 := if no_default_ops a then clearDefaultOps (w_ops w) else w_ops w in
  let ops2 := match a_op a with Some o => map_set ops1 (op o) o | None => ops1 end in
  mkWalk (w_labels w) ops2 (instructions w) (unreachable w).

(** The body of the loop of [_process] for line [i]: the line as the body
    leaves it, and the walk after it. *)
Definition processLine (options : ProgramProcessOptions) (i : nat) (l : Line) (w : Walk)
  : list Warning * Result (Line * Walk) :=
  match item l with
  | None => ([], Ok (l, w))
  | Some (label name) =>
      ([], w' <- processLabel options name w ;; Ok (l, w'))
  | Some (statement s) =>
      let '(warnings, r) := processStatement options i l s w in
      (warnings,
       sw <- r ;;
       Ok (mkLine (line l) (uncommentedLine l) (Some (statement (fst sw)))
                  (l_comment l) (secretComment l), snd sw))
  | Some (attribute a) => ([], Ok (l, processAttribute a w))
  end.

(** The loop of [_process] from line [i] on, [ls] being the lines from
    there. *)
Fixpoint processFrom (options : ProgramProcessOptions) (i : nat) (ls : list Line) (w : Walk)
  : list Warning * Result (list Line * Walk) :=
  match ls with
  | [] => ([], Ok ([], w))
  | l :: rest =>
      match processLine options i l w with
      | (warnings, Throw error) => (warnings, Throw (FailedToEmit (i + 1) (line l) error))
      | (warnings, Ok (l', w')) =>
          let '(warnings', r) := processFrom options (S i) rest w' in
          ((warnings ++ warnings')%list,
           lw <- r ;; Ok (l' :: fst lw, snd lw))
      end
  end.

(** [Program._process]: the warnings handed to the sink, and either the
    program as the walk leaves it with the instructions, or the error. *)
Definition _process (options : ProgramProcessOptions) (p : Program)
  : list Warning * Result (Program * list Instruction) :=
  let '(warnings, r) := processFrom options 0 (lines p) (mkWalk (labels p) (ops p) [] false) in
  (warnings,
   lw <- r ;;
   Ok (mkProgram (fst lw) (w_labels (snd lw)) (w_ops (snd lw)), instructions (snd lw))).

Definition loadDefinedOps (p : Program) : Result Program :=
  r <- snd (_process (mkOptions false false false) p) ;; Ok (fst r).

(** [Program.resolveLabels] (named [Program_resolveLabels], the option of
    [_process] having the name). *)
Definition Program_resolveLabels (p : Program) : Result Program :=
  match labels p with
  | Some _ => Ok p
  | None =>
      r <- snd (_process (mkOptions true false false)
                         (mkProgram (lines p) (Some []) (ops p))) ;;
      Ok (fst r)
  end.

Definition filler : string := "0000;".

Definition newline : string := String "010" EmptyString.

(** The text of [emit] for a list of instructions: one line each, then
    filler lines while fewer than 64 lines are there. *)
Definition image (instructions : list Instruction) : string :=
  JS.join (map (fun inst => Instruction_toString inst ++ newline) instructions)
  ++ JS.join (repeat (filler ++ newline) (64 - List.length instructions)).

(** [Program.emit]; [sink] tells whether [options.emitWarning] is there. *)
Definition emit (sink : bool) (p : Program) : list Warning * Result string :=
  match labels p with
  | None => ([], Throw GenerateLabelsFirst)
  | Some _ =>
      let '(warnings, r) := _process (mkOptions false true sink) p in
      (warnings, pi <- r ;; Ok (image (snd pi)))
  end.

Definition onlyAttributes : ParseOptions :=
  mkParseOptions None None
    (Some (fun t => match t with TAttribute => true | _ => false end)).

(** The head of [assemble]: the program on which it calls [emit]. *)
Definition assembleResolved (content : string) : Result Program :=
  attributes <- Program_parse 0 content onlyAttributes ;;
  attributes <- loadDefinedOps (setOps attributes defaultOps) ;;
  let supportedOps := map_values (ops attributes) in
  prog <- Program_parse 1 content (mkParseOptions (Some supportedOps) None None) ;;
  Program_resolveLabels (setOps prog supportedOps).

(** [assemble]; [sink] tells whether [options.emitWarning] is there. *)
Definition assemble (content : string) (sink : bool) : list Warning * Result string :=
  match assembleResolved content with
  | Throw e => ([], Throw e)
  | Ok prog => emit sink prog
  end.


(** * Vocabulary of the properties *)

(** ** Lines of text

    A line of a text holds no line break.  The pattern
    [^[0-9a-f]{4};.*$] is matched against one line: four lowercase
    hexadecimal digits, a semicolon, and then any characters but line
    terminators, which are LF and CR among the ASCII characters. *)

Definition isLineBreak (c : ascii) : bool :=
  Ascii.eqb c "010" || Ascii.eqb c "013".

Fixpoint noLineBreak (s : string) : bool :=
  match s with
  | String c s' => negb (isLineBreak c) && noLineBreak s'
  | EmptyString => true
  end.

Definition isLowerHex (c : ascii) : bool :=
  let n := nat_of_ascii c in
  (((48 <=? n) && (n <=? 57)) || ((97 <=? n) && (n <=? 102)))%nat.

(** [^[0-9a-f]{4};.*$] *)
Definition matchesPattern (l : string) : bool :=
  match l with
  | String a (String b (String c (String d (String e rest)))) =>
      isLowerHex a && isLowerHex b && isLowerHex c && isLowerHex d
      && Ascii.eqb e ";" && noLineBreak rest
  | _ => false
  end.

(** Four lowercase hexadecimal digits and nothing else. *)
Definition isHex4 (s : string) : bool :=
  match s with
  | String a (String b (String c (String d EmptyString))) =>
      isLowerHex a && isLowerHex b && isLowerHex c && isLowerHex d
  | _ => false
  end.

(** The text whose lines are [ls], each ended by a line feed. *)
Definition unlines (ls : list string) : string :=
  JS.join (map (fun l => l ++ newline) ls).

(** The number of line feeds of a text. *)
Fixpoint countLF (s : string) : nat :=
  match s with
  | String c s' => (if Ascii.eqb c "010" then 1 else 0) + countLF s'
  | EmptyString => 0
  end.

(** What the parser keeps of a line, and the names of the label map, hold
    no line break. *)
Definition lineClean (l : Line) : Prop :=
  noLineBreak (uncommentedLine l) = true
  /\ (forall c, l_comment l = Some c -> noLineBreak c = true)
  /\ (forall n, item l = Some (label n) -> noLineBreak n = true).

Definition labelsClean (labels : option (JSMap nat)) : Prop :=
  forall m, labels = Some m -> Forall (fun e => noLineBreak (fst e) = true) m.

(** ** Encoded words *)

(** [word] on the integers that [ToInt32] gives. *)
Definition wordOf (a : Z) (r : bool) (d : Z) : Z :=
  Z.lor (Z.lor (shl32 a 9) (shl32 (if r then 1 else 0) 8)) d.

(** The first part of [Instruction.toString]. *)
Definition hexWord (w : Z) : string := JS.padStart 4 "0" (toString16 w).

(** The fields of an instruction are within the upper bounds of the
    constructor. *)
Definition inRange (i : Instruction) : Prop :=
  gtZ (_data i) 127 = false /\ gtZ (_opcode i) 15 = false.

(** An instruction as the constructor lets it through, with a comment that
    stays on its line. *)
Definition wellFormed (i : Instruction) : Prop :=
  gtZ (_data i) 127 = false /\ gtZ (_opcode i) 15 = false
  /\ noLineBreak (comment i) = true.

(** The instruction that an output descriptor makes of a statement, when
    the constructor lets it through. *)
Definition encoded (s : Statement) (comment : string) (out : OperationOutput) : Instruction :=
  mkInstruction (opcode out) (registerBit out s) (dataField out s) comment.

(** The word of an output descriptor for a statement is within the bounds,
    or exceeds one. *)
Definition fits (s : Statement) (out : OperationOutput) : Prop :=
  gtZ (dataField out s) 127 = false /\ gtZ (opcode out) 15 = false.

Definition tooWide (s : Statement) (out : OperationOutput) : Prop :=
  gtZ (dataField out s) 127 = true \/ gtZ (opcode out) 15 = true.

Definition walkClean (w : Walk) : Prop :=
  labelsClean (w_labels w) /\ Forall wellFormed (instructions w).

(** ** The image *)

(** The instructions that [emit] turns into text when [assemble] calls it. *)
Definition assembleInstructions (content : string) (sink : bool)
  : list Warning * Result (list Instruction) :=
  match assembleResolved content with
  | Throw e => ([], Throw e)
  | Ok prog =>
      let '(warnings, r) := _process (mkOptions false true sink) prog in
      (warnings, pi <- r ;; Ok (snd pi))
  end.

(** The lines of the image of a list of instructions. *)
Definition imageLines (insts : list Instruction) : list string :=
  (map Instruction_toString insts ++ repeat filler (64 - List.length insts))%list.

(** ** The contract of an operation, in the words of the specification *)

(** The register policy: [always] requires a register token, [never]
    forbids one, [optional] accepts either. *)
Definition registerAccepted (policy : OperationReg) (present : bool) : bool :=
  match policy with
  | always => present
  | never => negb present
  | optional => true
  end.

(** The data policy: [address] and [binary] require a numeric value,
    [none] requires none. *)
Definition dataAccepted (policy : OperationData) (present : bool) : bool :=
  match policy with
  | address => present
  | binary => present
  | none => true
  end.

Definition isSome {A : Type} (o : option A) : bool :=
  match o with Some _ => true | None => false end.

(** ** Walks *)

Definition isLabelLine (l : Line) : bool :=
  match item l with
  | Some (label _) => true
  | _ => false
  end.

(** The options of the walk of [emit] with a warning sink. *)
Definition encoding : ProgramProcessOptions := mkOptions false true true.

(** The index to which the walk has bound a label. *)
Definition binding (w : Walk) (name : string) : option nat :=
  match w_labels w with
  | Some m => map_get m name
  | None => None
  end.

(** ** Tables

    The operations of a table are objects made by [Operation.parse]: a
    built-in instance is the built-in operation itself and sits under its
    own name, and the keys are distinct, as in every [Map]. *)

(** An operation is one of the built-in instances. *)
Definition isDefaultInstance (o : Operation) : bool :=
  existsb (Operation_same o) defaultOps.

(** A built-in instance is found in the table under its own name only. *)
Definition wellKeyed (m : JSMap Operation) : Prop :=
  forall k o d,
    In (k, o) m -> In d defaultOps -> Operation_same o d = true ->
    k = JS.toUpperCase (op d).

(** An operation with the identity of a built-in operation is that
    operation. *)
Definition genuine (o : Operation) : Prop :=
  forall d, In d defaultOps -> Operation_same o d = true -> o = d.

Definition entryOk (e : string * Operation) : Prop :=
  genuine (snd e)
  /\ (isDefaultInstance (snd e) = true -> fst e = JS.toUpperCase (op (snd e))).

Definition tableOk (m : JSMap Operation) : Prop :=
  NoDup (map_keys m) /\ Forall entryOk m.

(** The operation of a [@define] line is not a built-in instance. *)
Definition definesFresh (l : Line) : Prop :=
  forall a o, item l = Some (attribute a) -> a_op a = Some o ->
              isDefaultInstance o = false.

(** The program of the directive pass of [assemble], after that pass. *)
Definition directivePass (content : string) : Result Program :=
  attributes <- Program_parse 0 content onlyAttributes ;;
  loadDefinedOps (setOps attributes defaultOps).

(** The table with which the directive pass of [assemble] starts. *)
Definition initialOps : JSMap Operation :=
  Eval vm_compute in ops (setOps (mkProgram [] None []) defaultOps).

(** The built-in [ADD]. *)
Definition defaultADD : Operation :=
  mkOperation (BuiltIn 4) "ADD" always binary false [mkOutput (num_of_Z 4) true true].

(** An operation as [@define CALL reg=never data=address => 0] makes it,
    and the table in which it has replaced the built-in [CALL]. *)
Definition userCALL : Operation :=
  mkOperation (Defined 0 1) "CALL" never address false [mkOutput (num_of_Z 0) true true].

Definition overriddenOps : JSMap Operation :=
  Eval vm_compute in map_set initialOps "CALL" userCALL.

(** ** Programs of the examples *)

(** The example program of the specification. *)
Definition exampleSource : string := ":main
LD R0 000 1010
SUB R0 000 0001
BZ R0 :Finished
B :main

:Finished".

Definition exampleImage : string :=
  Eval vm_compute in
  match snd (assemble exampleSource true) with Ok out => out | Throw _ => EmptyString end.

Definition exampleInstructions : list Instruction :=
  Eval vm_compute in
  match snd (assembleInstructions exampleSource true) with Ok l => l | Throw _ => [] end.

(** Sixty-five lines [IN R0]. *)
Definition program65 : string := JS.join (repeat ("IN R0" ++ newline) 65).

Definition image65 : string :=
  Eval vm_compute in
  match snd (assemble program65 true) with Ok out => out | Throw _ => EmptyString end.

Definition instructions65 : list Instruction :=
  Eval vm_compute in
  match snd (assembleInstructions program65 true) with Ok l => l | Throw _ => [] end.

(** Two branches to literal addresses, without and with a label between
    them. *)
Definition twoBranches : string := "B 5
B 6".

Definition twoBranchesAndLabel : string := "B 5
:next
B 6".

(** The directive override of the specification. *)
Definition overrideSource : string := "@no_default_ops
@define CALL reg=never data=address => 0
CALL :x
:x".

(** A redefinition in lower case, and two redefinitions of one name in two
    letter cases. *)
Definition lowerCaseDefine : string := "@define call reg=never data=address => 0".

Definition twoCasesSource : string := "@define CALL reg=never data=address => 5
@define call reg=never data=address => 0
CALL 3".

(** A forward reference to the label with the empty name, and to the label
    [x]. *)
Definition emptyLabelSource : string := "CALL :
:".

Definition forwardLabelSource : string := "CALL :x
:x".

From Stdlib Require Import Sorted.

(** * The command line and the vocabulary of the further properties *)

(** ** The output path of the command line

    The last lines of [assembler.ts] run the assembler under Deno: the
    input path is [Deno.args[1]], the output path [Deno.args[2]] when it is
    there, and otherwise the input path without its last extension; [.hex]
    is added unless the path ends with it already, in any letter case. *)

(** [s.lastIndexOf(sub)]: [None] stands for [-1]. *)
Fixpoint lastIndexOf (s sub : string) : option nat :=
  match s with
  | String _ s' =>
      match lastIndexOf s' sub with
      | Some n => Some (S n)
      | None => if String.prefix sub s then Some O else None
      end
  | EmptyString => if String.prefix sub s then Some O else None
  end.

(** [s.endsWith(suffix)] *)
Definition endsWith (s suffix : string) : bool :=
  (String.length suffix <=? String.length s)%nat
  && String.eqb (JS.sliceFrom (String.length s - String.length suffix) s) suffix.

(** An argument that is there and is not empty. *)
Definition argGiven (arg : option string) : bool :=
  match arg with
  | Some a => JS.truthy a
  | None => false
  end.

(** The path that the command line writes to, for [Deno.args[1]] and
    [Deno.args[2]]; [None] when it throws [Expected at least one
    argument]. *)
Definition outputPath (arg1 arg2 : option string) : option string :=
  match arg1 with
  | Some input =>
      if JS.truthy input then
        let outPath :=
          match arg2 with
          | Some out =>
              if JS.truthy out then out
              else match lastIndexOf input "." with
                   | Some extIx => JS.sliceTo extIx input
                   | None => input
                   end
          | None =>
              match lastIndexOf input "." with
              | Some extIx => JS.sliceTo extIx input
              | None => input
              end
          end in
        Some (if negb (endsWith (JS.toLowerCase outPath) ".hex")
              then outPath ++ ".hex" else outPath)
      else None
  | None => None
  end.

(** ** Vocabulary *)

(** The lines that [Program.parse] parses. *)
Definition rawLines (content : string) : list string :=
  JS.split "010" (JS.removeAll "013" content).

(** The text of a line that [Line.parse] classifies. *)
Definition codeText (l : string) : string :=
  JS.trim (snd (splitComments l)).

(** A line put together again from the parts that [splitComments] gives. *)
Definition joinComments (parts : option string * option string * string) : string :=
  let '(secretComment, comment, text) := parts in
  text
  ++ match comment with Some c => "//" ++ c | None => EmptyString end
  ++ match secretComment with Some c => "#" ++ c | None => EmptyString end.

(** The names of the label lines, in the order of the lines. *)
Definition labelNames (ls : list Line) : list string :=
  flat_map (fun l => match item l with Some (label n) => [n] | _ => [] end) ls.

Definition isAttributeLine (l : Line) : bool :=
  match item l with
  | Some (attribute _) => true
  | _ => false
  end.

(** The number of words that the statements of [ls] expand to under a
    table: one for each output descriptor of the operation of each
    statement. *)
Definition wordsOf (table : JSMap Operation) (l : Line) : nat :=
  match item l with
  | Some (statement s) =>
      match map_get table (JS.toUpperCase (s_op s)) with
      | Some o => List.length (output o)
      | None => 0
      end
  | _ => 0
  end.

Definition emittedBy (table : JSMap Operation) (ls : list Line) : nat :=
  list_sum (map (wordsOf table) ls).

(** A line as the walk may leave it: the walk changes nothing of a line but
    the data of its statement. *)
Definition sameButData (l l' : Line) : Prop :=
  line l' = line l
  /\ uncommentedLine l' = uncommentedLine l
  /\ l_comment l' = l_comment l
  /\ secretComment l' = secretComment l
  /\ match item l, item l' with
     | Some (statement s), Some (statement s') =>
         s_op s' = s_op s /\ s_reg s' = s_reg s /\ s_jumpLabel s' = s_jumpLabel s
     | i, i' => i' = i
     end.

(** An error that names a line. *)
Definition namesLine (e : Error) (n : nat) (l : string) : Prop :=
  exists cause, e = SyntaxErrorAt n l cause \/ e = FailedToEmit n l cause.

Definition warningLine (wa : Warning) : nat :=
  match wa with BranchingToHardCodedAddress _ k => k end.

Definition warningAddress (wa : Warning) : number :=
  match wa with BranchingToHardCodedAddress d _ => d end.

(** A line with no item or with an attribute. *)
Definition isDirectiveOrNothing (l : Line) : bool :=
  match item l with
  | None => true
  | Some (attribute _) => true
  | _ => false
  end.

(** No line of the source is a directive. *)
Definition noDirectives (content : string) : bool :=
  forallb (fun l => negb (JS.startsWith (codeText l) "@")) (rawLines content).

(** Every line of the source is blank or holds comments only. *)
Definition blank (content : string) : bool :=
  forallb (fun l => negb (JS.truthy (codeText l))) (rawLines content).

(** The names of the label lines of a source text, in the order of the
    lines. *)
Definition sourceLabels (content : string) : list string :=
  flat_map (fun l => if JS.startsWith (codeText l) ":"
                     then [JS.sliceFrom 1 (codeText l)] else [])
           (rawLines content).

(** The program on which [assemble] calls [emit] for the example. *)
Definition exampleResolved : Program :=
  Eval vm_compute in
  match assembleResolved exampleSource with
  | Ok p => p
  | Throw _ => mkProgram [] None []
  end.

(** A branch to a label that no line defines, and the program on which
    [assemble] calls [emit] for it. *)
Definition danglingSource : string := "B :nowhere".

Definition danglingLine : Line :=
  mkLine "B :nowhere" "B :nowhere"
         (Some (statement (mkStatement "B" None None (Some "nowhere")))) None None.

Definition danglingResolved : Program :=
  Eval vm_compute in
  match assembleResolved danglingSource with
  | Ok p => p
  | Throw _ => mkProgram [] None []
  end.

(** The last operation of a list with a given name, letter case apart. *)
Definition lastNamed (os : list Operation) (name : string) : option Operation :=
  fold_left
    (fun acc o =>
       if String.eqb (JS.toUpperCase (op o)) (JS.toUpperCase name) then Some o else acc)
    os None.

Definition sameNumber (a b : number) : bool :=
  match a, b with
  | Fin (Qmake n d), Fin (Qmake n' d') => (n =? n') && Pos.eqb d d'
  | PInf, PInf => true
  | NInf, NInf => true
  | _, _ => false
  end.

(** The layout of the word of an instruction with opcode [a], register bit
    [r] and data [d], and its four hexadecimal digits read back by
    [Number]. *)
Definition layoutOk (a : Z) (r : bool) (d : Z) : bool :=
  let w := wordOf a r d in
  (w =? a * 512 + (if r then 256 else 0) + d)
  && (Z.shiftr w 9 =? a) && Bool.eqb (Z.testbit w 8) r && (Z.land w 127 =? d)
  && (String.length (hexWord w) =? 4)%nat
  && match Number_ ("0x" ++ hexWord w) with
     | Some n => sameNumber n (num_of_Z w)
     | None => false
     end.

(** A source that defines [X] and [x]: two names that differ in their
    letter case only, with one word and with two. *)
Definition caseClashSource : string := "X
:lab
@define X reg=never data=none => 1
@define x reg=never data=none => 1, 2
B :lab".

Definition caseClashResolved : Program :=
  Eval vm_compute in
  match assembleResolved caseClashSource with
  | Ok p => p
  | Throw _ => mkProgram [] None []
  end.

Definition caseClashInstructions : list Instruction :=
  Eval vm_compute in
  match snd (assembleInstructions caseClashSource true) with
  | Ok insts => insts
  | Throw _ => []
  end.

(** What the assembler reads of a line: its [//] comment and its trimmed
    code text. *)
Definition visible (l : string) : option string * string :=
  (snd (fst (splitComments l)), codeText l).

(** Two errors that differ at most in the line content that they quote. *)
Definition sameButQuote (e e' : Error) : Prop :=
  match e, e' with
  | SyntaxErrorAt n _ c, SyntaxErrorAt n' _ c' => n = n' /\ c = c'
  | FailedToEmit n _ c, FailedToEmit n' _ c' => n = n' /\ c = c'
  | _, _ => e = e'
  end.

(** Two results that are both values, related by [R], or both errors, the
    same but for the quoted line. *)
Definition related {A : Type} (R : A -> A -> Prop) (r r' : Result A) : Prop :=
  match r, r' with
  | Ok a, Ok a' => R a a'
  | Throw e, Throw e' => sameButQuote e e'
  | _, _ => False
  end.

(** Two parsed lines that differ at most in the line as written and in the
    secret comment. *)
Definition sameCore (l l' : Line) : Prop :=
  uncommentedLine l = uncommentedLine l' /\ item l = item l'
  /\ l_comment l = l_comment l'.

Definition sameProgram (p p' : Program) : Prop :=
  Forall2 sameCore (lines p) (lines p') /\ labels p = labels p' /\ ops p = ops p'.

(** The errors of the parsers, of the walk of [_process], and of the walk
    when it does not validate the arguments. *)
Definition isSyntaxCause (e : Error) : bool :=
  match e with
  | OpEmpty | OpExpectedRegInfo _ | OpExpectedDataInfo | OpRegPrefix _ | OpRegNoEquals
  | OpRegValue | OpDataPrefix _ | OpDataNoEquals | OpDataValue | OpExpectedArrow
  | OpOpcodeNaN _ | OpInvalidModifier _ _ _ | UnknownAttribute _ | LabelHasSpaces _
  | UnexpectedRegister | DataNaN _ _ => true
  | _ => false
  end.

Definition isWalkCause (e : Error) : bool :=
  match e with
  | DataTooWide _ | OpcodeTooWide _ | LabelDefinedTwice _ | LabelNeverDefined _
  | UnknownOperation _ | MustSpecifyRegister | CantSpecifyRegister _
  | RequiresTargetAddress | RequiresBinaryValue => true
  | _ => false
  end.

Definition isUnvalidatedCause (e : Error) : bool :=
  match e with
  | DataTooWide _ | OpcodeTooWide _ | LabelDefinedTwice _ | UnknownOperation _ => true
  | _ => false
  end.

(** The statement as the walk of [emit] encodes it: with the address of its
    label for data, when it has a label that is defined. *)
Definition resolved (labels : option (JSMap nat)) (s : Statement) : Statement :=
  match resolveJumpLabel (mkOptions false true false) labels s with
  | Ok s' => s'
  | Throw _ => s
  end.

(** The words of a line at an address, under a table and a label map: for
    a statement, one instruction for each output descriptor of its
    operation, all with the comment of the line. *)
Definition wordsAt (table : JSMap Operation) (labels : option (JSMap nat)) (address : nat)
    (l : Line) : list Instruction :=
  match item l with
  | Some (statement s) =>
      match map_get table (JS.toUpperCase (s_op s)) with
      | Some o =>
          map (encoded (resolved labels s) (assemblyComment l labels address)) (output o)
      | None => []
      end
  | _ => []
  end.

(** The words of the lines from an address on, in the order of the lines. *)
Fixpoint encodeLines (table : JSMap Operation) (labels : option (JSMap nat))
    (address : nat) (ls : list Line) : list Instruction :=
  match ls with
  | [] => []
  | l :: rest =>
      (wordsAt table labels address l
       ++ encodeLines table labels
            (address + List.length (wordsAt table labels address l)) rest)%list
  end.

(** A program with further lines after its own. *)
Definition withLines (p : Program) (qs : list Line) : Program :=
  mkProgram (lines p ++ qs) (labels p) (ops p).

(** * Properties *)

(** ** Strings *)

Section StringFacts.

Lemma append_assoc (s t u : string) : (s ++ t) ++ u = s ++ (t ++ u).
Proof. induction s as [|c s IH]; simpl; [reflexivity|]. rewrite IH. reflexivity. Qed.

Lemma noLineBreak_app (s t : string) :
  noLineBreak (s ++ t) = noLineBreak s && noLineBreak t.
Proof.
  induction s as [|c s IH]; simpl; [reflexivity|].
  rewrite IH, andb_assoc. reflexivity.
Qed.

Lemma noLineBreak_sliceFrom (n : nat) (s : string) :
  noLineBreak s = true -> noLineBreak (JS.sliceFrom n s) = true.
Proof.
  revert s; induction n as [|n IH]; intros [|c s]; simpl; auto.
  intros H. apply andb_true_iff in H. apply IH, H.
Qed.

Lemma noLineBreak_sliceTo (n : nat) (s : string) :
  noLineBreak s = true -> noLineBreak (JS.sliceTo n s) = true.
Proof.
  revert s; induction n as [|n IH]; intros [|c s]; simpl; auto.
  intros H. apply andb_true_iff in H. destruct H as [Hc Hs].
  rewrite Hc. simpl. apply IH, Hs.
Qed.

Lemma noLineBreak_trimStart (s : string) :
  noLineBreak s = true -> noLineBreak (JS.trimStart s) = true.
Proof.
  induction s as [|c s IH]; simpl; auto.
  intros H. destruct (JS.isWhiteSpace c); [|exact H].
  apply andb_true_iff in H. apply IH, H.
Qed.

Lemma noLineBreak_trimEnd (s : string) :
  noLineBreak s = true -> noLineBreak (JS.trimEnd s) = true.
Proof.
  induction s as [|c s IH]; simpl; auto.
  intros H. apply andb_true_iff in H. destruct H as [Hc Hs].
  specialize (IH Hs). destruct (JS.trimEnd s) as [|d t].
  - destruct (JS.isWhiteSpace c); simpl; [reflexivity|]. rewrite Hc. reflexivity.
  - change (noLineBreak (String c (String d t))) with
      (negb (isLineBreak c) && noLineBreak (String d t)).
    rewrite Hc, IH. reflexivity.
Qed.

Lemma noLineBreak_trim (s : string) :
  noLineBreak s = true -> noLineBreak (JS.trim s) = true.
Proof.
  intros H. unfold JS.trim. apply noLineBreak_trimEnd, noLineBreak_trimStart, H.
Qed.

Lemma noLineBreak_replaceAll (s : string) :
  noLineBreak s = true -> noLineBreak (JS.replaceAll " " "_" s) = true.
Proof.
  induction s as [|c s IH]; simpl; auto.
  intros H. apply andb_true_iff in H. destruct H as [Hc Hs].
  rewrite (IH Hs), andb_true_r.
  destruct (Ascii.eqb_spec c " "); [reflexivity | exact Hc].
Qed.

(** What [Program.parse] splits into lines holds no line break: CR is
    removed first and LF is the separator. *)
Lemma split_lines_noLineBreak (content : string) :
  Forall (fun l => noLineBreak l = true) (JS.split "010" (JS.removeAll "013" content)).
Proof.
  induction content as [|c s IH]; simpl.
  - repeat constructor.
  - destruct (Ascii.eqb_spec c "013") as [->|Hcr]; [exact IH|].
    simpl. destruct (Ascii.eqb_spec c "010") as [->|Hlf].
    + constructor; [reflexivity | exact IH].
    + destruct (JS.split "010" (JS.removeAll "013" s)) as [|p ps].
      * repeat constructor. simpl. unfold isLineBreak.
        apply Ascii.eqb_neq in Hcr, Hlf. rewrite Hcr, Hlf. reflexivity.
      * inversion IH; subst. constructor; [|assumption].
        simpl. unfold isLineBreak.
        apply Ascii.eqb_neq in Hcr, Hlf. rewrite Hcr, Hlf. simpl. assumption.
Qed.

Lemma join_app (xs ys : list string) : JS.join (xs ++ ys) = JS.join xs ++ JS.join ys.
Proof.
  induction xs as [|x xs IH]; simpl; [reflexivity|].
  rewrite IH. symmetry. apply append_assoc.
Qed.

Lemma unlines_app (xs ys : list string) : unlines (xs ++ ys) = unlines xs ++ unlines ys.
Proof. unfold unlines. rewrite map_app. apply join_app. Qed.

Lemma map_repeat {A B : Type} (f : A -> B) (a : A) (n : nat) :
  map f (repeat a n) = repeat (f a) n.
Proof. induction n as [|n IH]; simpl; [reflexivity|]. rewrite IH. reflexivity. Qed.

Lemma matchesPattern_hex4 (h c : string) :
  isHex4 h = true -> matchesPattern (h ++ ";" ++ c) = noLineBreak c.
Proof.
  destruct h as [|a [|b [|x [|d [|e h]]]]]; simpl; try discriminate.
  intros ->. reflexivity.
Qed.

End StringFacts.

(** ** Encoded words *)

Section WordFacts.

Lemma Instruction_new_ok (o : number) (r : bool) (d : number) (c : string) (i : Instruction) :
  Instruction_new o r d c = Ok i ->
  i = mkInstruction o r d c /\ gtZ d 127 = false /\ gtZ o 15 = false.
Proof.
  unfold Instruction_new. destruct (gtZ d 127); [discriminate|].
  destruct (gtZ o 15); [discriminate|]. intros H. inversion H. auto.
Qed.

Lemma wrap32_small (z : Z) : - 2 ^ 31 <= z < 2 ^ 31 -> wrap32 z = z.
Proof.
  intros H. unfold wrap32. rewrite Z.mod_small; lia.
Qed.

(** A number between [0] and a small bound converts to an integer between
    the same bounds. *)
Lemma toInt32_small (a : number) (k : Z) :
  0 <= k < 2 ^ 31 -> nonneg a = true -> gtZ a k = false -> 0 <= toInt32 a <= k.
Proof.
  intros Hk Hn Hg. destruct a as [[n d]| |]; simpl in *; try discriminate.
  apply Z.leb_le in Hn. apply Z.ltb_ge in Hg.
  assert (Hq : 0 <= n ÷ Z.pos d <= k).
  { rewrite Z.quot_div_nonneg by lia. split.
    - apply Z.div_pos; lia.
    - apply Z.div_le_upper_bound; lia. }
  rewrite wrap32_small; lia.
Qed.

Lemma word_wordOf (i : Instruction) :
  word i = wordOf (toInt32 (_opcode i)) (_r1 i) (toInt32 (_data i)).
Proof. reflexivity. Qed.

Lemma hexWord_fields_check :
  forallb (fun a => forallb (fun d => forallb (fun r =>
    isHex4 (hexWord (wordOf (Z.of_nat a) r (Z.of_nat d)))) [true; false])
    (seq 0 128)) (seq 0 16) = true.
Proof. vm_compute. reflexivity. Qed.

(** With an opcode in [0..15] and data in [0..127] the word prints as four
    lowercase hexadecimal digits. *)
Lemma hexWord_fields (a : Z) (r : bool) (d : Z) :
  0 <= a <= 15 -> 0 <= d <= 127 -> isHex4 (hexWord (wordOf a r d)) = true.
Proof.
  intros Ha Hd. pose proof hexWord_fields_check as H.
  rewrite forallb_forall in H. specialize (H (Z.to_nat a)).
  rewrite in_seq in H. specialize (H ltac:(lia)).
  rewrite forallb_forall in H. specialize (H (Z.to_nat d)).
  rewrite in_seq in H. specialize (H ltac:(lia)).
  rewrite forallb_forall in H. specialize (H r).
  rewrite !Z2Nat.id in H by lia. apply H. destruct r; simpl; auto.
Qed.

Lemma Instruction_toString_matches (i : Instruction) :
  nonneg (_opcode i) = true -> nonneg (_data i) = true ->
  gtZ (_opcode i) 15 = false -> gtZ (_data i) 127 = false ->
  matchesPattern (Instruction_toString i) = noLineBreak (comment i).
Proof.
  intros Ho Hd Ho' Hd'. unfold Instruction_toString.
  apply matchesPattern_hex4. rewrite word_wordOf. apply hexWord_fields.
  - apply toInt32_small; [lia | assumption..].
  - apply toInt32_small; [lia | assumption..].
Qed.

Lemma hexOfPos_nonempty (fuel : nat) (z : Z) (acc : string) :
  hexOfPos (S fuel) z acc <> EmptyString.
Proof.
  revert z acc. induction fuel as [|f IH]; intros z acc; simpl.
  - destruct (z / 16 =? 0); discriminate.
  - destruct (z / 16 =? 0); [discriminate|]. apply IH.
Qed.

(** A negative word prints with a minus sign among its first three
    characters, so the line cannot start with four hexadecimal digits. *)
Lemma negative_word_no_match (w : Z) (c : string) :
  w < 0 -> matchesPattern (hexWord w ++ ";" ++ c) = false.
Proof.
  intros Hw. unfold hexWord, toString16.
  destruct (Z.ltb_spec w 0) as [_|]; [|lia].
  pose proof (hexOfPos_nonempty (Z.to_nat (Z.log2 (- w))) (- w) EmptyString) as Hne.
  destruct (hexOfPos (S (Z.to_nat (Z.log2 (- w)))) (- w) EmptyString) as [|c1 [|c2 [|c3 rest]]];
    [congruence | reflexivity | reflexivity | ].
  unfold JS.padStart. simpl. destruct (rest ++ String ";" c); reflexivity.
Qed.

Lemma wordOf_negative (a : Z) (r : bool) (d : Z) : d < 0 -> wordOf a r d < 0.
Proof. intros H. unfold wordOf. apply Z.lor_neg. right. exact H. Qed.

End WordFacts.

(** ** What the parser keeps of a line holds no line break *)

Section ParserFacts.

Lemma splitComments_clean (l : string) (sc c : option string) (text : string) :
  noLineBreak l = true -> splitComments l = (sc, c, text) ->
  noLineBreak text = true /\ (forall c', c = Some c' -> noLineBreak c' = true).
Proof.
  intros Hl. unfold splitComments.
  destruct (JS.indexOf l "#") as [secretIx|].
  - assert (Ht : noLineBreak (JS.sliceTo secretIx l) = true)
      by (apply noLineBreak_sliceTo, Hl).
    destruct (JS.indexOf (JS.sliceTo secretIx l) "//") as [commentIx|];
      intros H; inversion H; subst; split.
    + apply noLineBreak_sliceTo, Ht.
    + intros c' Hc. inversion Hc. apply noLineBreak_sliceFrom, Ht.
    + exact Ht.
    + discriminate.
  - destruct (JS.indexOf l "//") as [commentIx|];
      intros H; inversion H; subst; split.
    + apply noLineBreak_sliceTo, Hl.
    + intros c' Hc. inversion Hc. apply noLineBreak_sliceFrom, Hl.
    + exact Hl.
    + discriminate.
Qed.

Lemma parseItem_label (a : Alloc) (text : string) (options : ParseOptions) (n : string) :
  parseItem a text options = Ok (Some (label n)) -> n = JS.sliceFrom 1 text.
Proof.
  unfold parseItem.
  destruct (JS.startsWith text "@").
  - destruct (canParse options TAttribute); [|discriminate].
    destruct (JS.startsWith text "@define").
    + destruct (Operation_parse a _); discriminate.
    + destruct (String.eqb _ _); discriminate.
  - destruct (JS.startsWith text ":").
    + destruct (canParse options TLabel); [|discriminate].
      destruct (JS.includes _ _); [discriminate|].
      intros H. inversion H. reflexivity.
    + destruct (JS.truthy text && canParse options TStatement); [|discriminate].
      destruct (parseStatement text options); discriminate.
Qed.

Lemma Line_parse_clean (a : Alloc) (l : string) (options : ParseOptions) (parsed : Line) :
  noLineBreak l = true -> Line_parse a l options = Ok parsed -> lineClean parsed.
Proof.
  intros Hl. unfold Line_parse.
  destruct (splitComments l) as [[sc c] text] eqn:Hs.
  destruct (splitComments_clean l sc c text Hl Hs) as [Ht Hc].
  destruct (parseItem a (JS.trim text) options) as [it|] eqn:Hi; [|discriminate].
  intros H. inversion H; subst. unfold lineClean; simpl. repeat split.
  - apply noLineBreak_trim, Ht.
  - exact Hc.
  - intros n ->. apply parseItem_label in Hi. subst.
    apply noLineBreak_sliceFrom, noLineBreak_trim, Ht.
Qed.

Lemma parseLines_clean (parse : nat) (options : ParseOptions) (ls : list string) :
  forall (ix : nat) (parsed : list Line),
    Forall (fun l => noLineBreak l = true) ls ->
    parseLines parse ix ls options = Ok parsed -> Forall lineClean parsed.
Proof.
  induction ls as [|l rest IH]; intros ix parsed Hls; simpl.
  - intros H. inversion H. constructor.
  - inversion Hls; subst.
    destruct (Line_parse (Defined parse ix) l options) as [p|] eqn:Hp; [|discriminate].
    destruct (parseLines parse (S ix) rest options) as [more|] eqn:Hm; [|discriminate].
    intros H. inversion H; subst. constructor.
    + eapply Line_parse_clean; eassumption.
    + eapply IH; eassumption.
Qed.

Lemma Program_parse_clean (parse : nat) (content : string) (options : ParseOptions)
    (p : Program) :
  Program_parse parse content options = Ok p ->
  Forall lineClean (lines p) /\ labels p = None.
Proof.
  unfold Program_parse.
  destruct (parseLines parse 0 _ options) as [ls|] eqn:Hl; [|discriminate].
  intros H. inversion H; subst. simpl. split; [|reflexivity].
  eapply parseLines_clean; [apply split_lines_noLineBreak | exact Hl].
Qed.

End ParserFacts.

(** ** The walk keeps its instructions well formed *)

Section WalkFacts.

Lemma labelComment_fold_clean (address : nat) (m : JSMap nat) :
  forall acc : string,
    Forall (fun e => noLineBreak (fst e) = true) m -> noLineBreak acc = true ->
    noLineBreak
      (fold_left
         (fun acc e =>
            if Nat.eqb address (snd e)
            then acc ++ ":" ++ JS.replaceAll " " "_" (fst e) ++ " "
            else acc)
         m acc) = true.
Proof.
  induction m as [|e m IH]; intros acc Hm Hacc; simpl; [exact Hacc|].
  inversion Hm; subst. apply IH; [assumption|].
  destruct (Nat.eqb address (snd e)); [|exact Hacc].
  rewrite noLineBreak_app, Hacc. simpl.
  rewrite noLineBreak_app, noLineBreak_replaceAll by assumption. reflexivity.
Qed.

Lemma assemblyComment_clean (l : Line) (labels : option (JSMap nat)) (address : nat) :
  lineClean l -> labelsClean labels ->
  noLineBreak (assemblyComment l labels address) = true.
Proof.
  intros (Hu & Hc & _) Hl. unfold assemblyComment.
  rewrite !noLineBreak_app. rewrite Hu.
  assert (H1 : noLineBreak (labelComment labels address) = true).
  { unfold labelComment. destruct labels as [m|]; [|reflexivity].
    apply labelComment_fold_clean; [apply Hl; reflexivity | reflexivity]. }
  rewrite H1.
  destruct (l_comment l) as [c|]; [|reflexivity].
  rewrite noLineBreak_app, (Hc c eq_refl). destruct (JS.truthy c); reflexivity.
Qed.

Lemma encodeOutputs_ok (s : Statement) (c : string) (outs : list OperationOutput) :
  forall insts insts' : list Instruction,
    encodeOutputs outs s c insts = Ok insts' ->
    insts' = (insts ++ map (encoded s c) outs)%list /\ Forall (fits s) outs.
Proof.
  induction outs as [|out outs IH]; intros insts insts'; simpl.
  - intros H. inversion H. rewrite app_nil_r. auto.
  - unfold encode. destruct (Instruction_new _ _ _ _) as [i|] eqn:Hi; [|discriminate].
    apply Instruction_new_ok in Hi. destruct Hi as (-> & Hd & Ho).
    intros H. apply IH in H. destruct H as [-> Hf]. split.
    + rewrite <- app_assoc. reflexivity.
    + constructor; [split; assumption | exact Hf].
Qed.

Lemma map_set_keys_Forall {V : Type} (P : string -> Prop) (m : JSMap V) (k : string) (v : V) :
  Forall (fun e => P (fst e)) m -> P k -> Forall (fun e => P (fst e)) (map_set m k v).
Proof.
  intros Hm Hk. induction m as [|[k' v'] m IH]; simpl.
  - constructor; [exact Hk | constructor].
  - inversion Hm; subst. destruct (String.eqb k' k).
    + constructor; assumption.
    + constructor; [assumption | apply IH; assumption].
Qed.

(** What a statement adds to the instructions when its line is processed. *)
Lemma processStatement_ok (options : ProgramProcessOptions) (i : nat) (l : Line)
    (s : Statement) (w : Walk) (ws : list Warning) (s' : Statement) (w' : Walk) :
  processStatement options i l s w = (ws, Ok (s', w')) ->
  exists o : Operation,
    resolveJumpLabel options (w_labels w) s = Ok s'
    /\ map_get (w_ops w) (JS.toUpperCase (s_op s')) = Some o
    /\ Forall (fits s') (output o)
    /\ w' = mkWalk (w_labels w) (w_ops w)
              (instructions w ++
               map (encoded s' (assemblyComment l (w_labels w) (List.length (instructions w))))
                   (output o))
              (if alwaysBranches o then true else unreachable w).
Proof.
  unfold processStatement.
  destruct (resolveJumpLabel options (w_labels w) s) as [s1|] eqn:Hr;
    [|intros H; inversion H].
  destruct (map_get (w_ops w) (JS.toUpperCase (s_op s1))) as [o|] eqn:Ho;
    [|intros H; inversion H].
  destruct (if validateInstructionArgs options then _ else _) as [ws1 [[]|]];
    [|intros H; inversion H].
  destruct (encodeOutputs _ _ _ _) as [insts'|] eqn:He; [|intros H; inversion H].
  apply encodeOutputs_ok in He. destruct He as [-> Hf].
  intros H. inversion H; subst. exists o. auto.
Qed.

Lemma processFrom_invariant (options : ProgramProcessOptions)
    (I : Walk -> Prop) (G : Line -> Prop) :
  (forall i l w ws l' w',
     G l -> I w -> processLine options i l w = (ws, Ok (l', w')) -> I w' /\ G l') ->
  forall ls i w ws ls' w',
    Forall G ls -> I w -> processFrom options i ls w = (ws, Ok (ls', w')) ->
    I w' /\ Forall G ls'.
Proof.
  intros Hstep. induction ls as [|l rest IH]; intros i w ws ls' w' Hls Hw; simpl.
  - intros H. inversion H; subst. auto.
  - inversion Hls; subst.
    destruct (processLine options i l w) as [ws1 [[l1 w1]|e]] eqn:Hl; [|intros H; inversion H].
    destruct (Hstep _ _ _ _ _ _ H1 Hw Hl) as [Hw1 Hl1].
    destruct (processFrom options (S i) rest w1) as [ws2 [[ls2 w2]|e]] eqn:Hr;
      [|intros H; inversion H].
    intros H. inversion H; subst. simpl.
    destruct (IH _ _ _ _ _ H2 Hw1 Hr) as [Hw2 Hls2]. auto.
Qed.

Lemma processLine_clean (options : ProgramProcessOptions) (i : nat) (l : Line) (w : Walk)
    (ws : list Warning) (l' : Line) (w' : Walk) :
  lineClean l -> walkClean w -> processLine options i l w = (ws, Ok (l', w')) ->
  walkClean w' /\ lineClean l'.
Proof.
  intros Hl [Hlab Hins]. unfold processLine.
  destruct (item l) as [[s|name|a]|] eqn:Hitem.
  - destruct (processStatement options i l s w) as [ws1 [[s1 w1]|e]] eqn:Hs;
      [|intros H; inversion H].
    intros H. inversion H; subst. simpl.
    apply processStatement_ok in Hs. destruct Hs as (o & _ & _ & Hf & ->).
    split; [split; simpl|].
    + exact Hlab.
    + apply Forall_app. split; [exact Hins|].
      apply Forall_map. eapply Forall_impl; [|exact Hf].
      intros out [Hd Ho]. unfold wellFormed, encoded; simpl.
      repeat split; try assumption.
      apply assemblyComment_clean; assumption.
    + destruct Hl as (Hu & Hc & _). unfold lineClean; simpl.
      repeat split; try assumption. discriminate.
  - unfold processLabel.
    destruct (negb (resolveLabels options)).
    { intros H. inversion H; subst. split; [split; simpl; assumption | exact Hl]. }
    destruct (w_labels w) as [m|] eqn:Hm; simpl.
    + destruct (map_has m name); [intros H; inversion H|].
      intros H. inversion H; subst. split; [split; simpl|exact Hl].
      * intros m' Hm'. inversion Hm'; subst.
        apply (map_set_keys_Forall (fun k => noLineBreak k = true)).
        -- apply Hlab. reflexivity.
        -- destruct Hl as (_ & _ & Hn). apply Hn. exact Hitem.
      * exact Hins.
    + intros H. inversion H; subst. split; [split; simpl|exact Hl].
      * intros m' Hm'. discriminate.
      * exact Hins.
  - intros H. inversion H; subst. split; [split; simpl; assumption | exact Hl].
  - intros H. inversion H; subst. split; [split; assumption | exact Hl].
Qed.

Lemma _process_clean (options : ProgramProcessOptions) (p : Program) (ws : list Warning)
    (p' : Program) (insts : list Instruction) :
  Forall lineClean (lines p) -> labelsClean (labels p) ->
  _process options p = (ws, Ok (p', insts)) ->
  Forall lineClean (lines p') /\ labelsClean (labels p') /\ Forall wellFormed insts.
Proof.
  intros Hl Hlab. unfold _process.
  destruct (processFrom options 0 (lines p) _) as [ws1 [[ls w]|e]] eqn:Hp;
    [|intros H; inversion H].
  intros H. inversion H; subst. simpl.
  destruct (processFrom_invariant options walkClean lineClean
              (processLine_clean options) _ _ _ _ _ _ Hl
              (conj Hlab (Forall_nil _) : walkClean (mkWalk (labels p) (ops p) [] false)) Hp)
    as [[H1 H2] H3].
  auto.
Qed.

End WalkFacts.

(** ** The text that [assemble] returns *)

Section ImageFacts.

Lemma image_unlines (insts : list Instruction) : image insts = unlines (imageLines insts).
Proof.
  unfold image, imageLines. rewrite unlines_app. unfold unlines.
  rewrite map_map, map_repeat. reflexivity.
Qed.

Lemma imageLines_length (insts : list Instruction) :
  List.length (imageLines insts) = Nat.max (List.length insts) 64.
Proof.
  unfold imageLines. rewrite length_app, length_map, repeat_length. lia.
Qed.

Lemma hexDigit_clean (d : Z) : isLineBreak (hexDigit d) = false.
Proof.
  unfold hexDigit. generalize (Z.to_nat d) as n. intros n.
  do 17 (destruct n as [|n]; [reflexivity|]). reflexivity.
Qed.

Lemma hexOfPos_clean (fuel : nat) :
  forall (z : Z) (acc : string),
    noLineBreak acc = true -> noLineBreak (hexOfPos fuel z acc) = true.
Proof.
  induction fuel as [|f IH]; intros z acc Hacc; simpl; [exact Hacc|].
  assert (H : noLineBreak (String (hexDigit (z mod 16)) acc) = true)
    by (simpl; rewrite hexDigit_clean, Hacc; reflexivity).
  destruct (z / 16 =? 0); [exact H | apply IH, H].
Qed.

Lemma repeatChar_clean (n : nat) : noLineBreak (JS.repeatChar "0" n) = true.
Proof. induction n as [|n IH]; simpl; [reflexivity | exact IH]. Qed.

Lemma hexWord_clean (w : Z) : noLineBreak (hexWord w) = true.
Proof.
  unfold hexWord, JS.padStart. rewrite noLineBreak_app, repeatChar_clean.
  unfold toString16. destruct (w <? 0).
  - change (noLineBreak (String "-" ?s)) with (noLineBreak s).
    apply hexOfPos_clean. reflexivity.
  - apply hexOfPos_clean. reflexivity.
Qed.

Lemma Instruction_toString_clean (i : Instruction) :
  noLineBreak (comment i) = true -> noLineBreak (Instruction_toString i) = true.
Proof.
  intros H. unfold Instruction_toString.
  rewrite !noLineBreak_app. fold (hexWord (word i)). rewrite hexWord_clean, H. reflexivity.
Qed.

Lemma imageLines_clean (insts : list Instruction) :
  Forall wellFormed insts -> Forall (fun l => noLineBreak l = true) (imageLines insts).
Proof.
  intros H. unfold imageLines. apply Forall_app. split.
  - apply Forall_map. eapply Forall_impl; [|exact H].
    intros i (_ & _ & Hc). apply Instruction_toString_clean, Hc.
  - apply Forall_forall. intros l Hl. apply repeat_spec in Hl. subst. reflexivity.
Qed.

Lemma imageLines_filler (insts : list Instruction) (k : nat) :
  (List.length insts <= k < 64)%nat -> nth_error (imageLines insts) k = Some filler.
Proof.
  intros Hk. unfold imageLines.
  rewrite nth_error_app2 by (rewrite length_map; lia).
  rewrite length_map. apply nth_error_repeat. lia.
Qed.

Lemma countLF_app (s t : string) : countLF (s ++ t) = (countLF s + countLF t)%nat.
Proof. induction s as [|c s IH]; simpl; [reflexivity|]. rewrite IH. lia. Qed.

Lemma countLF_noLineBreak (s : string) : noLineBreak s = true -> countLF s = 0%nat.
Proof.
  induction s as [|c s IH]; simpl; [reflexivity|].
  intros H. apply andb_true_iff in H. destruct H as [Hc Hs].
  unfold isLineBreak in Hc. destruct (Ascii.eqb c "010"); [discriminate|].
  apply IH, Hs.
Qed.

(** A text of [n] lines holds [n] line feeds. *)
Lemma countLF_unlines (ls : list string) :
  Forall (fun l => noLineBreak l = true) ls -> countLF (unlines ls) = List.length ls.
Proof.
  induction ls as [|l ls IH]; intros H; [reflexivity|].
  inversion H; subst. unfold unlines in *. simpl.
  rewrite !countLF_app, countLF_noLineBreak by assumption. simpl.
  rewrite IH by assumption. reflexivity.
Qed.

Lemma processLine_keeps_labels (options : ProgramProcessOptions) (i : nat) (l : Line)
    (w : Walk) (ws : list Warning) (l' : Line) (w' : Walk) :
  True -> w_labels w <> None -> processLine options i l w = (ws, Ok (l', w')) ->
  w_labels w' <> None /\ True.
Proof.
  intros _ Hw. unfold processLine.
  destruct (item l) as [[s|name|a]|].
  - destruct (processStatement options i l s w) as [ws1 [[s1 w1]|e]] eqn:Hs;
      [|intros H; inversion H].
    apply processStatement_ok in Hs. destruct Hs as (o & _ & _ & _ & ->).
    intros H. inversion H; subst. auto.
  - unfold processLabel. destruct (negb (resolveLabels options)).
    { intros H. inversion H; subst. auto. }
    destruct (w_labels w) as [m|]; [|congruence]. simpl.
    destruct (map_has m name); intros H; inversion H; subst. simpl. split; [discriminate|exact I].
  - intros H. inversion H; subst. auto.
  - intros H. inversion H; subst. auto.
Qed.

(** The program on which [assemble] calls [emit] has its label map, and
    nothing that the parser kept of its lines holds a line break. *)
Lemma assembleResolved_clean (content : string) (prog : Program) :
  assembleResolved content = Ok prog ->
  Forall lineClean (lines prog) /\ labelsClean (labels prog) /\ labels prog <> None.
Proof.
  unfold assembleResolved.
  destruct (Program_parse 0 content onlyAttributes) as [attributes|]; [|discriminate].
  destruct (loadDefinedOps _) as [attributes'|]; [|discriminate].
  destruct (Program_parse 1 content _) as [prog0|] eqn:Hp; [|discriminate].
  apply Program_parse_clean in Hp. destruct Hp as [Hl Hn].
  unfold Program_resolveLabels. simpl. rewrite Hn.
  set (p1 := mkProgram _ _ _).
  destruct (_process (mkOptions true false false) p1) as [ws [[p' insts]|e]] eqn:Hq;
    [|discriminate].
  simpl. intros H. inversion H; subst.
  assert (Hc : labelsClean (labels p1)).
  { intros m Hm. inversion Hm. constructor. }
  destruct (_process_clean _ p1 _ _ _ Hl Hc Hq) as (H1 & H2 & _).
  split; [exact H1 | split; [exact H2|]].
  unfold _process in Hq.
  destruct (processFrom _ 0 (lines p1) _) as [ws1 [[ls w]|e]] eqn:Hf; [|inversion Hq].
  inversion Hq; subst. simpl.
  refine (proj1 (processFrom_invariant _ (fun w => w_labels w <> None) (fun _ => True)
           (processLine_keeps_labels _) _ _ _ _ _ _ _ _ Hf)).
  - apply Forall_forall. auto.
  - simpl. discriminate.
Qed.

(** [assemble] returns the image of the instructions of its last walk. *)
Lemma assemble_image (content : string) (sink : bool) :
  assemble content sink =
  (fst (assembleInstructions content sink),
   insts <- snd (assembleInstructions content sink) ;; Ok (image insts)).
Proof.
  unfold assemble, assembleInstructions.
  destruct (assembleResolved content) as [prog|] eqn:Hr; [|reflexivity].
  apply assembleResolved_clean in Hr. destruct Hr as (_ & _ & Hn).
  unfold emit. destruct (labels prog); [|congruence].
  destruct (_process _ prog) as [ws [[p' insts]|e]]; reflexivity.
Qed.

Lemma assembleInstructions_wellFormed (content : string) (sink : bool)
    (ws : list Warning) (insts : list Instruction) :
  assembleInstructions content sink = (ws, Ok insts) -> Forall wellFormed insts.
Proof.
  unfold assembleInstructions.
  destruct (assembleResolved content) as [prog|] eqn:Hr; [|intros H; inversion H].
  apply assembleResolved_clean in Hr. destruct Hr as (Hl & Hc & _).
  destruct (_process _ prog) as [ws1 [[p' insts1]|e]] eqn:Hp; [|intros H; inversion H].
  intros H. inversion H; subst.
  apply (_process_clean _ _ _ _ _ Hl Hc Hp).
Qed.

End ImageFacts.

(** ** C1: the lines of the image *)

(** C1, as the specification states it, fails: sixty-five statements give a
    text of sixty-five lines, not sixty-four; and the statement [B -5] gives
    a first line [00-5;...], which does not start with four hexadecimal
    digits. *)
Lemma assemble_exactly_64_lines_counterexample :
  (exists ws out,
      assemble program65 true = (ws, Ok out)
      /\ ~ (exists ls, out = unlines ls
                       /\ Forall (fun l => noLineBreak l = true) ls
                       /\ List.length ls = 64%nat))
  /\ (exists ws out l rest,
         assemble "B -5" true = (ws, Ok out)
         /\ out = unlines (l :: rest)
         /\ matchesPattern l = false).
Proof.
  split.
  - exists [], image65. split; [vm_compute; reflexivity|].
    intros (ls & Hout & Hc & Hlen).
    apply countLF_unlines in Hc. rewrite <- Hout, Hlen in Hc.
    vm_compute in Hc. discriminate Hc.
  - exists [BranchingToHardCodedAddress (Fin (-5)) 0].
    eexists. exists "00-5;(Assembly: B -5)", (repeat filler 63).
    split; [vm_compute; reflexivity|]. split; vm_compute; reflexivity.
Qed.

(** C1 (amended): when [assemble] succeeds, with [n] instructions, the text
    it returns has exactly [max n 64] lines; the line of every instruction
    whose opcode and data are not negative matches [^[0-9a-f]{4};.*$]; and
    every line after the last instruction, up to the sixty-fourth, is the
    filler [0000;], which matches the pattern too. *)
Theorem assemble_image_lines (content : string) (sink : bool) (ws : list Warning)
    (out : string) :
  assemble content sink = (ws, Ok out) ->
  exists insts : list Instruction,
    assembleInstructions content sink = (ws, Ok insts)
    /\ out = unlines (imageLines insts)
    /\ Forall (fun l => noLineBreak l = true) (imageLines insts)
    /\ List.length (imageLines insts) = Nat.max (List.length insts) 64
    /\ (forall i, In i insts ->
          nonneg (_opcode i) = true -> nonneg (_data i) = true ->
          matchesPattern (Instruction_toString i) = true)
    /\ (forall k, (List.length insts <= k < 64)%nat ->
          nth_error (imageLines insts) k = Some filler)
    /\ matchesPattern filler = true.
Proof.
  rewrite assemble_image.
  destruct (assembleInstructions content sink) as [ws1 [insts|e]] eqn:Ha; simpl;
    [|intros H; inversion H].
  intros H. inversion H; subst. exists insts.
  pose proof (assembleInstructions_wellFormed _ _ _ _ Ha) as Hwf.
  split; [reflexivity|]. split; [apply image_unlines|].
  split; [apply imageLines_clean, Hwf|]. split; [apply imageLines_length|].
  split; [|split; [apply imageLines_filler | reflexivity]].
  intros i Hi Ho Hd. rewrite Forall_forall in Hwf.
  destruct (Hwf i Hi) as (Hd' & Ho' & Hc).
  rewrite Instruction_toString_matches by assumption. exact Hc.
Qed.

Lemma assemble_image_lines_witness :
  assemble exampleSource true = ([], Ok exampleImage)
  /\ exists insts : list Instruction,
       assembleInstructions exampleSource true = ([], Ok insts)
       /\ exampleImage = unlines (imageLines insts)
       /\ Forall (fun l => noLineBreak l = true) (imageLines insts)
       /\ List.length (imageLines insts) = Nat.max (List.length insts) 64
       /\ (forall i, In i insts ->
             nonneg (_opcode i) = true -> nonneg (_data i) = true ->
             matchesPattern (Instruction_toString i) = true)
       /\ (forall k, (List.length insts <= k < 64)%nat ->
             nth_error (imageLines insts) k = Some filler)
       /\ matchesPattern filler = true.
Proof.
  split; [vm_compute; reflexivity|].
  apply (assemble_image_lines exampleSource true [] exampleImage).
  vm_compute; reflexivity.
Defined.

(** ** C9: the image has no upper size limit *)

(** C9: [emit] succeeds whenever its walk does, whatever the number of
    instructions; the text has one line per instruction and filler lines
    only up to the sixty-fourth, hence [max n 64] lines, and with more than
    sixty-four instructions exactly one line per instruction. *)
Theorem emit_has_no_size_limit :
  (forall (sink : bool) (p p' : Program) (ws : list Warning) (insts : list Instruction),
      labels p <> None ->
      _process (mkOptions false true sink) p = (ws, Ok (p', insts)) ->
      emit sink p = (ws, Ok (image insts)))
  /\ (forall (content : string) (sink : bool) (ws : list Warning) (insts : list Instruction),
         assembleInstructions content sink = (ws, Ok insts) ->
         assemble content sink = (ws, Ok (unlines (imageLines insts)))
         /\ Forall (fun l => noLineBreak l = true) (imageLines insts)
         /\ List.length (imageLines insts) = Nat.max (List.length insts) 64
         /\ ((64 < List.length insts)%nat ->
             imageLines insts = map Instruction_toString insts)).
Proof.
  split.
  - intros sink p p' ws insts Hl Hp. unfold emit.
    destruct (labels p); [|congruence]. rewrite Hp. reflexivity.
  - intros content sink ws insts Ha.
    split; [rewrite assemble_image, Ha; simpl; rewrite image_unlines; reflexivity|].
    split; [apply imageLines_clean, (assembleInstructions_wellFormed _ _ _ _ Ha)|].
    split; [apply imageLines_length|].
    intros Hn. unfold imageLines.
    replace (64 - List.length insts)%nat with 0%nat by lia.
    apply app_nil_r.
Qed.

Lemma emit_has_no_size_limit_witness :
  assembleInstructions program65 true = ([], Ok instructions65)
  /\ (64 < List.length instructions65)%nat
  /\ assemble program65 true = ([], Ok (unlines (map Instruction_toString instructions65))).
Proof.
  assert (H : assembleInstructions program65 true = ([], Ok instructions65))
    by (vm_compute; reflexivity).
  split; [exact H|].
  assert (Hn : (64 < List.length instructions65)%nat) by (vm_compute; lia).
  split; [exact Hn|].
  destruct (proj2 emit_has_no_size_limit program65 true [] instructions65 H)
    as (Ha & _ & _ & Hl).
  rewrite <- (Hl Hn). exact Ha.
Defined.

(** ** C8: the example program *)

(** C8, as the specification states it, fails: the example assembles to
    four instructions, not five, and so to sixty filler lines, not
    fifty-nine. *)
Lemma example_five_instructions_counterexample :
  ~ (exists ws insts,
        assembleInstructions exampleSource true = (ws, Ok insts)
        /\ List.length insts = 5%nat
        /\ assemble exampleSource true
           = (ws, Ok (unlines (map Instruction_toString insts ++ repeat filler 59)))).
Proof.
  intros (ws & insts & Ha & Hlen & _).
  assert (H : assembleInstructions exampleSource true = ([], Ok exampleInstructions))
    by (vm_compute; reflexivity).
  rewrite H in Ha. inversion Ha; subst. vm_compute in Hlen. discriminate Hlen.
Qed.

(** C8 (amended): the example assembles to four instructions, those of
    [LD], [SUB], [BZ] and [B] (the trailing label emits nothing), followed
    by sixty filler lines [0000;]; [:main] is bound to index 0 and
    [:Finished] to index 4. *)
Theorem example_assembles :
  (exists prog,
      assembleResolved exampleSource = Ok prog
      /\ labels prog = Some [("main", 0%nat); ("Finished", 4%nat)])
  /\ assembleInstructions exampleSource true = ([], Ok exampleInstructions)
  /\ map (fun i => (_opcode i, _r1 i, _data i)) exampleInstructions
     = [ (num_of_Z 6, false, num_of_Z 10);
         (num_of_Z 5, false, num_of_Z 1);
         (num_of_Z 2, false, num_of_Z 4);
         (num_of_Z 3, false, num_of_Z 0) ]
  /\ assemble exampleSource true
     = ([], Ok (unlines ([ "0c0a;(Assembly: :main LD R0 000 1010)";
                           "0a01;(Assembly: SUB R0 000 0001)";
                           "0404;(Assembly: BZ R0 :Finished)";
                           "0600;(Assembly: B :main)" ]
                         ++ repeat filler 60))).
Proof.
  split.
  - eexists. split; vm_compute; reflexivity.
  - split; [|split]; vm_compute; reflexivity.
Qed.

(** ** C3: bit-width overflow *)

Section BitWidth.

Lemma Instruction_new_too_wide (o : number) (r : bool) (d : number) (c : string) :
  gtZ d 127 = true \/ gtZ o 15 = true ->
  exists e, Instruction_new o r d c = Throw e /\ isBitWidthError e = true.
Proof.
  intros H. unfold Instruction_new.
  destruct (gtZ d 127); [eexists; split; reflexivity|].
  destruct H as [H|H]; [discriminate|]. rewrite H. eexists; split; reflexivity.
Qed.

Lemma encodeOutputs_too_wide (s : Statement) (c : string) (outs : list OperationOutput) :
  forall insts : list Instruction,
    Exists (tooWide s) outs ->
    exists e, encodeOutputs outs s c insts = Throw e /\ isBitWidthError e = true.
Proof.
  induction outs as [|out outs IH]; intros insts H; [inversion H|].
  simpl. unfold encode.
  destruct (Instruction_new (opcode out) (registerBit out s) (dataField out s) c)
    as [i|e] eqn:Hi.
  - inversion H; subst.
    + destruct (Instruction_new_too_wide _ (registerBit out s) _ c H1) as (e & He & _).
      congruence.
    + apply IH. assumption.
  - exists e. split; [reflexivity|].
    unfold Instruction_new in Hi.
    destruct (gtZ (dataField out s) 127); [inversion Hi; reflexivity|].
    destruct (gtZ (opcode out) 15); inversion Hi; reflexivity.
Qed.

Lemma processLine_inRange (options : ProgramProcessOptions) (i : nat) (l : Line) (w : Walk)
    (ws : list Warning) (l' : Line) (w' : Walk) :
  True -> Forall inRange (instructions w) ->
  processLine options i l w = (ws, Ok (l', w')) ->
  Forall inRange (instructions w') /\ True.
Proof.
  intros _ Hw. unfold processLine.
  destruct (item l) as [[s|name|a]|].
  - destruct (processStatement options i l s w) as [ws1 [[s1 w1]|e]] eqn:Hs;
      [|intros H; inversion H].
    apply processStatement_ok in Hs. destruct Hs as (o & _ & _ & Hf & ->).
    intros H. inversion H; subst. simpl. split; [|exact I].
    apply Forall_app. split; [exact Hw|].
    apply Forall_map. eapply Forall_impl; [|exact Hf]. intros out Hout. exact Hout.
  - unfold processLabel. destruct (negb (resolveLabels options)).
    { intros H. inversion H; subst. auto. }
    destruct (w_labels w) as [m|]; simpl.
    + destruct (map_has m name); intros H; inversion H; subst. auto.
    + intros H; inversion H; subst. auto.
  - intros H. inversion H; subst. auto.
  - intros H. inversion H; subst. auto.
Qed.

End BitWidth.

(** C3: the constructor of an encoded word throws a bit-width error when
    the data exceeds 127 or the opcode exceeds 15, and otherwise stores the
    fields as they are given; a walk that reaches a statement for which an
    output descriptor would give such a word stops there with that error,
    so that a walk that returns holds only words within the bounds; in
    particular an [ADD] whose binary literal has a value of more than 7
    bits fails with the error on its data. *)
Theorem bit_width_overflow_is_fatal :
  (forall (o : number) (r : bool) (d : number) (c : string),
      gtZ d 127 = true \/ gtZ o 15 = true ->
      exists e, Instruction_new o r d c = Throw e /\ isBitWidthError e = true)
  /\ (forall (o : number) (r : bool) (d : number) (c : string) (i : Instruction),
         Instruction_new o r d c = Ok i -> _opcode i = o /\ _r1 i = r /\ _data i = d)
  /\ (forall (options : ProgramProcessOptions) (i : nat) (l : Line) (rest : list Line)
             (w : Walk) (s s' : Statement) (o : Operation),
         item l = Some (statement s) ->
         resolveJumpLabel options (w_labels w) s = Ok s' ->
         map_get (w_ops w) (JS.toUpperCase (s_op s')) = Some o ->
         (validateInstructionArgs options = false
          \/ snd (validateArgs (emitWarning options) o s' (unreachable w) i) = Ok tt) ->
         Exists (tooWide s') (output o) ->
         exists ws e,
           processFrom options i (l :: rest) w
           = (ws, Throw (FailedToEmit (i + 1) (line l) e))
           /\ isBitWidthError e = true)
  /\ (forall (options : ProgramProcessOptions) (p p' : Program) (ws : list Warning)
             (insts : list Instruction),
         _process options p = (ws, Ok (p', insts)) -> Forall inRange insts)
  /\ (forall (content : string) (sink : bool) (ws : list Warning)
             (insts : list Instruction),
         assembleInstructions content sink = (ws, Ok insts) -> Forall inRange insts)
  /\ (forall (i : nat) (l : Line) (rest : list Line) (w : Walk) (name : string)
             (r : option Reg) (d : number),
         item l = Some (statement (mkStatement name r (Some d) None)) ->
         map_get (w_ops w) (JS.toUpperCase name) = Some defaultADD ->
         gtZ d 127 = true ->
         processFrom (mkOptions true false false) i (l :: rest) w
         = ([], Throw (FailedToEmit (i + 1) (line l) (DataTooWide d))))
  /\ assemble "ADD R0 1000 0000" true
     = ([], Throw (FailedToEmit 1 "ADD R0 1000 0000" (DataTooWide (num_of_Z 128))))
  /\ assemble "ADD 1111 1111" true
     = ([], Throw (FailedToEmit 1 "ADD 1111 1111" (DataTooWide (num_of_Z 255)))).
Proof.
  split; [exact Instruction_new_too_wide|].
  split.
  { intros o r d c i H. apply Instruction_new_ok in H. destruct H as (-> & _ & _). auto. }
  split.
  { intros options i l rest w s s' o Hitem Hr Ho Hv Hw.
    simpl. unfold processLine. rewrite Hitem. unfold processStatement. rewrite Hr, Ho.
    destruct (encodeOutputs_too_wide s'
                (assemblyComment l (w_labels w) (List.length (instructions w)))
                (output o) (instructions w) Hw) as (e & He & Hb).
    destruct Hv as [Hv|Hv].
    - rewrite Hv, He. simpl. exists [], e. auto.
    - destruct (validateInstructionArgs options).
      + destruct (validateArgs _ o s' (unreachable w) i) as [ws1 r1]. simpl in Hv. subst r1.
        rewrite He. simpl. exists ws1, e. auto.
      + rewrite He. simpl. exists [], e. auto. }
  split.
  { intros options p p' ws insts. unfold _process.
    destruct (processFrom options 0 (lines p) _) as [ws1 [[ls w]|e]] eqn:Hp;
      [|intros H; inversion H].
    intros H. inversion H; subst.
    refine (proj1 (processFrom_invariant options (fun w => Forall inRange (instructions w))
             (fun _ => True) (processLine_inRange options) _ _ _ _ _ _ _ _ Hp)).
    - apply Forall_forall. auto.
    - constructor. }
  split.
  { intros content sink ws insts Ha.
    eapply Forall_impl; [|apply (assembleInstructions_wellFormed _ _ _ _ Ha)].
    intros i (Hd & Ho & _). split; assumption. }
  split.
  { intros i l rest w name r d Hitem Ho Hd.
    simpl. unfold processLine. rewrite Hitem. unfold processStatement. simpl.
    rewrite Ho. simpl. unfold encode, dataField, Instruction_new. simpl. rewrite Hd.
    reflexivity. }
  split; vm_compute; reflexivity.
Qed.

Lemma bit_width_overflow_is_fatal_witness :
  (gtZ (num_of_Z 128) 127 = true \/ gtZ (num_of_Z 4) 15 = true)
  /\ exists e, Instruction_new (num_of_Z 4) false (num_of_Z 128) "(Assembly: ADD R0 1000 0000)"
               = Throw e
               /\ isBitWidthError e = true.
Proof.
  assert (H : gtZ (num_of_Z 128) 127 = true \/ gtZ (num_of_Z 4) 15 = true)
    by (left; reflexivity).
  split; [exact H|].
  apply (proj1 bit_width_overflow_is_fatal (num_of_Z 4) false (num_of_Z 128)
           "(Assembly: ADD R0 1000 0000)" H).
Defined.

(** ** C10: no lower bound *)

Section NoLowerBound.

Lemma negative_not_greater (d : number) (k : Z) :
  0 <= k -> nonneg d = false -> gtZ d k = false.
Proof.
  intros Hk. destruct d as [[n den]| |]; simpl; try discriminate; [|reflexivity].
  intros H. apply Z.leb_gt in H. apply Z.ltb_ge. lia.
Qed.

Lemma toInt32_of_int32 (z : Z) : - 2 ^ 31 <= z < 2 ^ 31 -> toInt32 (num_of_Z z) = z.
Proof.
  intros H. unfold toInt32, num_of_Z, inject_Z. simpl.
  rewrite Z.quot_1_r. apply wrap32_small, H.
Qed.

Lemma negative_data_no_match (i : Instruction) :
  toInt32 (_data i) < 0 -> matchesPattern (Instruction_toString i) = false.
Proof.
  intros H. unfold Instruction_toString. fold (hexWord (word i)).
  apply negative_word_no_match. rewrite word_wordOf. apply wordOf_negative, H.
Qed.

End NoLowerBound.

(** C10, as stated for every negative number, fails: the literal
    [-4294967296] is negative and is encoded without error, but its 32-bit
    conversion is [0], and the word [0600] that is printed is four
    lowercase hexadecimal digits. *)
Lemma negative_literal_counterexample :
  exists d ws l rest,
    Number_ "-4294967296" = Some d
    /\ nonneg d = false
    /\ assembleInstructions "B -4294967296" true
       = (ws, Ok [mkInstruction (num_of_Z 3) false d "(Assembly: B -4294967296)"])
    /\ assemble "B -4294967296" true = (ws, Ok (unlines (l :: rest)))
    /\ l = "0600;(Assembly: B -4294967296)"
    /\ matchesPattern l = true.
Proof.
  exists (num_of_Z (-4294967296)), [BranchingToHardCodedAddress (num_of_Z (-4294967296)) 0].
  exists "0600;(Assembly: B -4294967296)", (repeat filler 63).
  split; [vm_compute; reflexivity|]. split; [reflexivity|].
  split; [vm_compute; reflexivity|]. split; [vm_compute; reflexivity|].
  split; reflexivity.
Qed.

(** C10 (amended): the constructor checks upper bounds only: it accepts
    every data value that does not exceed 127 with every opcode that does
    not exceed 15, negative values included.  A statement whose literal
    parses to a negative number whose 32-bit conversion is negative, as
    every integer from [-2^31] to [-1] is, is encoded without error, and
    the word it prints is not four lowercase hexadecimal digits; so for the
    address operand [-5]. *)
Theorem negative_fields_are_encoded :
  (forall (o : number) (r : bool) (d : number) (c : string),
      gtZ d 127 = false -> gtZ o 15 = false ->
      Instruction_new o r d c = Ok (mkInstruction o r d c))
  /\ (forall d : number, nonneg d = false -> gtZ d 127 = false /\ gtZ d 15 = false)
  /\ (forall z : Z, - 2 ^ 31 <= z < 0 ->
        nonneg (num_of_Z z) = false /\ toInt32 (num_of_Z z) = z)
  /\ (forall (out : OperationOutput) (s : Statement) (c : string) (d : number),
         s_data s = Some d -> useData out = true ->
         gtZ d 127 = false -> toInt32 d < 0 -> gtZ (opcode out) 15 = false ->
         exists i, encode out s c = Ok i
                   /\ _data i = d
                   /\ matchesPattern (Instruction_toString i) = false)
  /\ Number_ "-5" = Some (num_of_Z (-5))
  /\ assemble "B -5" true
     = ([BranchingToHardCodedAddress (num_of_Z (-5)) 0],
        Ok (unlines ("00-5;(Assembly: B -5)" :: repeat filler 63)))
  /\ matchesPattern "00-5;(Assembly: B -5)" = false.
Proof.
  split.
  { intros o r d c Hd Ho. unfold Instruction_new. rewrite Hd, Ho. reflexivity. }
  split.
  { intros d Hd. split; apply negative_not_greater; (lia || assumption). }
  split.
  { intros z Hz. split.
    - unfold nonneg, num_of_Z, inject_Z. simpl. apply Z.leb_gt. lia.
    - apply toInt32_of_int32. lia. }
  split.
  { intros out s c d Hs Hu Hd Hneg Ho.
    exists (mkInstruction (opcode out) (registerBit out s) d c).
    unfold encode, dataField. rewrite Hu, Hs. unfold Instruction_new. rewrite Hd, Ho.
    split; [reflexivity|]. split; [reflexivity|].
    apply negative_data_no_match. exact Hneg. }
  split; [vm_compute; reflexivity|].
  split; vm_compute; reflexivity.
Qed.

Lemma negative_fields_are_encoded_witness :
  (gtZ (num_of_Z (-5)) 127 = false /\ gtZ (num_of_Z 3) 15 = false)
  /\ Instruction_new (num_of_Z 3) false (num_of_Z (-5)) "(Assembly: B -5)"
     = Ok (mkInstruction (num_of_Z 3) false (num_of_Z (-5)) "(Assembly: B -5)").
Proof.
  assert (H1 : gtZ (num_of_Z (-5)) 127 = false) by reflexivity.
  assert (H2 : gtZ (num_of_Z 3) 15 = false) by reflexivity.
  split; [split; assumption|].
  apply (proj1 negative_fields_are_encoded (num_of_Z 3) false (num_of_Z (-5))
           "(Assembly: B -5)" H1 H2).
Defined.

(** ** C4: the contract of an operation *)

Lemma validateArgs_literal_address (o : Operation) (s : Statement) (i : nat) (d : number) :
  registerAccepted (reg o) (isSome (s_reg s)) = true ->
  data o = address -> s_data s = Some d -> jumpLabelTruthy s = false ->
  validateArgs true o s false i = ([BranchingToHardCodedAddress d i], Ok tt).
Proof.
  intros Hr Hd Hs Hj. unfold validateArgs. rewrite Hd, Hs, Hj.
  unfold registerAccepted in Hr. destruct (reg o), (s_reg s); try discriminate; reflexivity.
Qed.

(** C4: with argument validation on, a statement passes exactly when its
    register token agrees with the register policy and its numeric value
    with the data policy: [always] throws without a register and [never]
    with one, [optional] accepts either; [address] and [binary] throw
    without a numeric value and [none] accepts either; a literal address
    in reachable code gives the one warning and no error.  The walk of the
    encoding pass stops at a statement that does not pass. *)
Theorem statement_checked_against_contract :
  (forall (sink : bool) (o : Operation) (s : Statement) (u : bool) (i : nat),
      snd (validateArgs sink o s u i) = Ok tt
      <-> registerAccepted (reg o) (isSome (s_reg s)) = true
          /\ dataAccepted (data o) (isSome (s_data s)) = true)
  /\ (forall sink o s u i,
         reg o = always -> s_reg s = None ->
         validateArgs sink o s u i = ([], Throw MustSpecifyRegister))
  /\ (forall sink o s u i r,
         reg o = never -> s_reg s = Some r ->
         validateArgs sink o s u i = ([], Throw (CantSpecifyRegister (Reg_name r))))
  /\ (forall sink o s u i,
         registerAccepted (reg o) (isSome (s_reg s)) = true ->
         data o = address -> s_data s = None ->
         validateArgs sink o s u i = ([], Throw RequiresTargetAddress))
  /\ (forall sink o s u i,
         registerAccepted (reg o) (isSome (s_reg s)) = true ->
         data o = binary -> s_data s = None ->
         validateArgs sink o s u i = ([], Throw RequiresBinaryValue))
  /\ (forall o s i d,
         registerAccepted (reg o) (isSome (s_reg s)) = true ->
         data o = address -> s_data s = Some d -> jumpLabelTruthy s = false ->
         validateArgs true o s false i = ([BranchingToHardCodedAddress d i], Ok tt))
  /\ (forall sink o s u i,
         registerAccepted (reg o) (isSome (s_reg s)) = true ->
         data o = none ->
         validateArgs sink o s u i = ([], Ok tt))
  /\ (forall (options : ProgramProcessOptions) (i : nat) (l : Line) (rest : list Line)
             (w : Walk) (s s' : Statement) (o : Operation) (e : Error),
         validateInstructionArgs options = true ->
         item l = Some (statement s) ->
         resolveJumpLabel options (w_labels w) s = Ok s' ->
         map_get (w_ops w) (JS.toUpperCase (s_op s')) = Some o ->
         snd (validateArgs (emitWarning options) o s' (unreachable w) i) = Throw e ->
         snd (processFrom options i (l :: rest) w)
         = Throw (FailedToEmit (i + 1) (line l) e)).
Proof.
  split.
  { intros sink o s u i. unfold validateArgs, registerAccepted, dataAccepted.
    destruct (reg o), (s_reg s) as [r|], (data o), (s_data s) as [d|]; simpl;
      try (destruct (negb (jumpLabelTruthy s) && negb u); simpl);
      split; try (intros [? ?]); try intros ?; try discriminate; auto. }
  split.
  { intros sink o s u i Hr Hs. unfold validateArgs. rewrite Hr, Hs. reflexivity. }
  split.
  { intros sink o s u i r Hr Hs. unfold validateArgs. rewrite Hr, Hs. reflexivity. }
  split.
  { intros sink o s u i Hr Hd Hs. unfold validateArgs. rewrite Hd, Hs.
    unfold registerAccepted in Hr. destruct (reg o), (s_reg s); try discriminate; reflexivity. }
  split.
  { intros sink o s u i Hr Hd Hs. unfold validateArgs. rewrite Hd, Hs.
    unfold registerAccepted in Hr. destruct (reg o), (s_reg s); try discriminate; reflexivity. }
  split.
  { exact validateArgs_literal_address. }
  split.
  { intros sink o s u i Hr Hd. unfold validateArgs. rewrite Hd.
    unfold registerAccepted in Hr. destruct (reg o), (s_reg s); try discriminate; reflexivity. }
  intros options i l rest w s s' o e Hv Hitem Hr Ho He.
  simpl. unfold processLine. rewrite Hitem. unfold processStatement. rewrite Hr, Ho, Hv.
  destruct (validateArgs _ o s' (unreachable w) i) as [ws1 r1]. simpl in He. subst r1.
  reflexivity.
Qed.

Lemma statement_checked_against_contract_witness :
  (reg defaultADD = always /\ s_reg (mkStatement "ADD" None (Some (num_of_Z 1)) None) = None)
  /\ validateArgs true defaultADD (mkStatement "ADD" None (Some (num_of_Z 1)) None) false 0
     = ([], Throw MustSpecifyRegister).
Proof.
  assert (H1 : reg defaultADD = always) by reflexivity.
  assert (H2 : s_reg (mkStatement "ADD" None (Some (num_of_Z 1)) None) = None) by reflexivity.
  split; [split; assumption|].
  apply (proj1 (proj2 statement_checked_against_contract) true defaultADD
           (mkStatement "ADD" None (Some (num_of_Z 1)) None) false 0%nat H1 H2).
Defined.

(** ** C7: no warnings in unreachable code *)

Section Unreachable.

Lemma validateArgs_unreachable (sink : bool) (o : Operation) (s : Statement) (i : nat) :
  fst (validateArgs sink o s true i) = [].
Proof.
  unfold validateArgs.
  destruct (reg o), (s_reg s), (data o), (s_data s); simpl; try reflexivity;
    rewrite andb_false_r; reflexivity.
Qed.

(** A line that is not a label, processed in unreachable code, hands no
    warning to the sink and leaves the code unreachable. *)
Lemma processLine_unreachable (options : ProgramProcessOptions) (i : nat) (l : Line)
    (w : Walk) :
  isLabelLine l = false -> unreachable w = true ->
  fst (processLine options i l w) = []
  /\ (forall l' w', snd (processLine options i l w) = Ok (l', w') -> unreachable w' = true).
Proof.
  intros Hl Hu. unfold processLine, isLabelLine in *.
  destruct (item l) as [[s|name|a]|]; [| discriminate | |].
  - unfold processStatement.
    destruct (resolveJumpLabel options (w_labels w) s) as [s1|];
      [|simpl; split; [reflexivity | discriminate]].
    destruct (map_get (w_ops w) (JS.toUpperCase (s_op s1))) as [o|];
      [|simpl; split; [reflexivity | discriminate]].
    rewrite Hu.
    assert (Hv : fst (if validateInstructionArgs options
                      then validateArgs (emitWarning options) o s1 true i
                      else ([], Ok tt)) = []).
    { destruct (validateInstructionArgs options);
        [apply validateArgs_unreachable | reflexivity]. }
    destruct (if validateInstructionArgs options then _ else _) as [ws1 r1].
    simpl in Hv. subst ws1. simpl. split; [reflexivity|].
    destruct r1 as [[]|e]; [|discriminate].
    destruct (encodeOutputs _ _ _ _) as [insts|e]; [|discriminate].
    intros l' w' H. inversion H; subst. simpl. destruct (alwaysBranches o); reflexivity.
  - simpl. split; [reflexivity|]. intros l' w' H. inversion H; subst. exact Hu.
  - simpl. split; [reflexivity|]. intros l' w' H. inversion H; subst. exact Hu.
Qed.

Lemma processFrom_app (options : ProgramProcessOptions) (xs ys : list Line) :
  forall (i : nat) (w : Walk),
    processFrom options i (xs ++ ys) w
    = match processFrom options i xs w with
      | (ws, Throw e) => (ws, Throw e)
      | (ws, Ok (ls, w')) =>
          let '(ws', r) := processFrom options (i + List.length xs) ys w' in
          ((ws ++ ws')%list, lw <- r ;; Ok ((ls ++ fst lw)%list, snd lw))
      end.
Proof.
  induction xs as [|x xs IH]; intros i w.
  - simpl. rewrite Nat.add_0_r.
    destruct (processFrom options i ys w) as [ws [[ls w']|e]]; reflexivity.
  - simpl. destruct (processLine options i x w) as [ws1 [[l1 w1]|e]]; [|reflexivity].
    rewrite IH.
    destruct (processFrom options (S i) xs w1) as [ws2 [[ls2 w2]|e]]; simpl;
      [|reflexivity].
    replace (i + S (List.length xs))%nat with (S (i + List.length xs)) by lia.
    destruct (processFrom options (S (i + List.length xs)) ys w2) as [ws3 [[ls3 w3]|e]];
      simpl; rewrite ?app_assoc; reflexivity.
Qed.

(** A stretch of lines without a label, walked in unreachable code, hands
    no warning to the sink and leaves the code unreachable. *)
Lemma processFrom_unreachable (options : ProgramProcessOptions) (mid : list Line) :
  forall (i : nat) (w : Walk),
    forallb (fun l => negb (isLabelLine l)) mid = true -> unreachable w = true ->
    fst (processFrom options i mid w) = []
    /\ (forall ls w', snd (processFrom options i mid w) = Ok (ls, w') ->
                      unreachable w' = true).
Proof.
  induction mid as [|l mid IH]; intros i w Hm Hu; simpl.
  - split; [reflexivity|]. intros ls w' H. inversion H; subst. exact Hu.
  - simpl in Hm. apply andb_true_iff in Hm. destruct Hm as [Hl Hm].
    apply negb_true_iff in Hl.
    destruct (processLine_unreachable options i l w Hl Hu) as [Hw Hnext].
    destruct (processLine options i l w) as [ws1 [[l1 w1]|e]]; simpl in *; subst ws1.
    + specialize (Hnext l1 w1 eq_refl).
      destruct (IH (S i) w1 Hm Hnext) as [Hw2 Hnext2].
      destruct (processFrom options (S i) mid w1) as [ws2 [[ls2 w2]|e]]; simpl in *;
        subst ws2; (split; [reflexivity|]).
      * intros ls w' H. inversion H; subst. apply (Hnext2 ls2 w'). reflexivity.
      * discriminate.
    + split; [reflexivity | discriminate].
Qed.

End Unreachable.

(** C7: a statement whose operation always branches leaves the code
    unreachable; while it is, no line hands a warning to the sink, up to
    the next label item; a label item makes the code reachable again; and
    a statement in reachable code with a literal address under the data
    policy [address] hands exactly one warning to the sink.  So [B 5]
    followed by [B 6] gives one warning, for the first, and with a label
    between them both give one. *)
Theorem warnings_suppressed_until_label :
  (forall (options : ProgramProcessOptions) (i : nat) (l l' : Line) (w w' : Walk)
          (ws : list Warning) (s s' : Statement) (o : Operation),
      item l = Some (statement s) ->
      resolveJumpLabel options (w_labels w) s = Ok s' ->
      map_get (w_ops w) (JS.toUpperCase (s_op s')) = Some o ->
      alwaysBranches o = true ->
      processLine options i l w = (ws, Ok (l', w')) ->
      unreachable w' = true)
  /\ (forall (options : ProgramProcessOptions) (i : nat) (mid rest : list Line) (w : Walk),
         unreachable w = true ->
         forallb (fun l => negb (isLabelLine l)) mid = true ->
         fst (processFrom options i mid w) = []
         /\ match snd (processFrom options i mid w) with
            | Throw e => processFrom options i (mid ++ rest) w = ([], Throw e)
            | Ok (ls, w') =>
                unreachable w' = true
                /\ fst (processFrom options i (mid ++ rest) w)
                   = fst (processFrom options (i + List.length mid) rest w')
            end)
  /\ (forall (options : ProgramProcessOptions) (i : nat) (l l' : Line) (w w' : Walk)
             (ws : list Warning) (name : string),
         item l = Some (label name) ->
         processLine options i l w = (ws, Ok (l', w')) ->
         unreachable w' = false /\ ws = [])
  /\ (forall (i : nat) (l : Line) (w : Walk) (s : Statement) (o : Operation) (d : number),
         item l = Some (statement s) ->
         jumpLabelTruthy s = false -> s_data s = Some d ->
         map_get (w_ops w) (JS.toUpperCase (s_op s)) = Some o ->
         data o = address ->
         registerAccepted (reg o) (isSome (s_reg s)) = true ->
         unreachable w = false ->
         fst (processLine encoding i l w) = [BranchingToHardCodedAddress d i])
  /\ (fst (assemble twoBranches true) = [BranchingToHardCodedAddress (num_of_Z 5) 0]
      /\ exists out, snd (assemble twoBranches true) = Ok out)
  /\ (fst (assemble twoBranchesAndLabel true)
      = [BranchingToHardCodedAddress (num_of_Z 5) 0; BranchingToHardCodedAddress (num_of_Z 6) 2]
      /\ exists out, snd (assemble twoBranchesAndLabel true) = Ok out).
Proof.
  split.
  { intros options i l l' w w' ws s s' o Hitem Hr Ho Hb. unfold processLine.
    rewrite Hitem.
    destruct (processStatement options i l s w) as [ws1 [[s1 w1]|e]] eqn:Hs;
      [|intros H; inversion H].
    apply processStatement_ok in Hs. destruct Hs as (o1 & Hr1 & Ho1 & _ & ->).
    rewrite Hr in Hr1. inversion Hr1; subst s1. rewrite Ho in Ho1. inversion Ho1; subst o1.
    intros H. inversion H; subst. simpl. rewrite Hb. reflexivity. }
  split.
  { intros options i mid rest w Hu Hm.
    destruct (processFrom_unreachable options mid i w Hm Hu) as [Hw Hnext].
    split; [exact Hw|]. rewrite processFrom_app.
    destruct (processFrom options i mid w) as [ws1 [[ls w']|e]]; simpl in *; subst ws1.
    - split; [apply (Hnext ls w'); reflexivity|].
      destruct (processFrom options (i + List.length mid) rest w') as [ws2 r2]. reflexivity.
    - reflexivity. }
  split.
  { intros options i l l' w w' ws name Hitem. unfold processLine. rewrite Hitem.
    unfold processLabel. destruct (negb (resolveLabels options)).
    { intros H. inversion H; subst. auto. }
    destruct (w_labels w) as [m|]; simpl.
    - destruct (map_has m name); intros H; inversion H; subst. auto.
    - intros H. inversion H; subst. auto. }
  split.
  { intros i l w s o d Hitem Hj Hd Ho Hdata Hreg Hu.
    unfold processLine. rewrite Hitem. unfold processStatement, resolveJumpLabel.
    unfold jumpLabelTruthy in Hj.
    assert (Hres : match s_jumpLabel s with
                   | Some jumpLabel =>
                       if JS.truthy jumpLabel then
                         match match w_labels w with
                               | Some m => map_get m jumpLabel
                               | None => None
                               end with
                         | Some target =>
                             Ok (mkStatement (s_op s) (s_reg s) (Some (num_of_nat target))
                                   (s_jumpLabel s))
                         | None =>
                             if validateInstructionArgs encoding
                             then Throw (LabelNeverDefined jumpLabel)
                             else Ok s
                         end
                       else Ok s
                   | None => Ok s
                   end = Ok s).
    { destruct (s_jumpLabel s) as [j|]; [rewrite Hj|]; reflexivity. }
    rewrite Hres, Ho. simpl. rewrite Hu.
    pose proof (validateArgs_literal_address o s i d Hreg Hdata Hd) as Hv.
    unfold jumpLabelTruthy in Hv. rewrite (Hv Hj). reflexivity. }
  split; (split; [vm_compute; reflexivity | eexists; vm_compute; reflexivity]).
Qed.

Lemma warnings_suppressed_until_label_witness :
  (item (mkLine ":next" ":next" (Some (label "next")) None None) = Some (label "next")
   /\ processLine encoding 1 (mkLine ":next" ":next" (Some (label "next")) None None)
        (mkWalk (Some [("next", 1%nat)]) [] [] true)
      = ([], Ok (mkLine ":next" ":next" (Some (label "next")) None None,
                 mkWalk (Some [("next", 1%nat)]) [] [] false)))
  /\ unreachable (mkWalk (Some [("next", 1%nat)]) [] [] false) = false.
Proof.
  assert (H1 : item (mkLine ":next" ":next" (Some (label "next")) None None)
               = Some (label "next")) by reflexivity.
  assert (H2 : processLine encoding 1 (mkLine ":next" ":next" (Some (label "next")) None None)
                 (mkWalk (Some [("next", 1%nat)]) [] [] true)
               = ([], Ok (mkLine ":next" ":next" (Some (label "next")) None None,
                          mkWalk (Some [("next", 1%nat)]) [] [] false))) by reflexivity.
  split; [split; assumption|].
  apply (proj1 (proj1 (proj2 (proj2 warnings_suppressed_until_label))
                  encoding 1%nat _ _ _ _ _ "next" H1 H2)).
Defined.

(** ** C5: clearing the built-in operations *)

Section ClearDefaults.

Lemma filter_all {A : Type} (f : A -> bool) (l : list A) :
  (forall x, In x l -> f x = true) -> filter f l = l.
Proof.
  induction l as [|x l IH]; intros H; simpl; [reflexivity|].
  rewrite (H x (or_introl eq_refl)), IH; [reflexivity|].
  intros y Hy. apply H. right. exact Hy.
Qed.

Lemma map_delete_filter {V : Type} (m : JSMap V) (k : string) :
  NoDup (map_keys m) ->
  map_delete m k = filter (fun e => negb (String.eqb (fst e) k)) m.
Proof.
  induction m as [|[k' v] m IH]; intros Hnd; simpl; [reflexivity|].
  inversion Hnd; subst. destruct (String.eqb_spec k' k) as [->|Hne]; simpl.
  - symmetry. apply filter_all. intros [k1 v1] Hin. simpl.
    apply negb_true_iff, String.eqb_neq. intros ->.
    apply H1. apply (in_map fst) in Hin. exact Hin.
  - rewrite IH by assumption. reflexivity.
Qed.

Lemma map_get_In {V : Type} (m : JSMap V) (k : string) (v : V) :
  NoDup (map_keys m) -> In (k, v) m -> map_get m k = Some v.
Proof.
  induction m as [|[k' v'] m IH]; intros Hnd Hin; [inversion Hin|].
  inversion Hnd; subst. simpl. destruct Hin as [Heq|Hin].
  - inversion Heq; subst. rewrite String.eqb_refl. reflexivity.
  - destruct (String.eqb_spec k' k) as [->|Hne].
    + exfalso. apply H1. apply (in_map fst) in Hin. exact Hin.
    + apply IH; assumption.
Qed.

Lemma map_get_Some_In {V : Type} (m : JSMap V) (k : string) (v : V) :
  map_get m k = Some v -> In (k, v) m.
Proof.
  induction m as [|[k' v'] m IH]; simpl; [discriminate|].
  destruct (String.eqb_spec k' k) as [->|Hne].
  - intros H. inversion H. left. reflexivity.
  - intros H. right. apply IH, H.
Qed.

Lemma NoDup_keys_filter {V : Type} (f : string * V -> bool) (m : JSMap V) :
  NoDup (map_keys m) -> NoDup (map_keys (filter f m)).
Proof.
  induction m as [|e m IH]; intros H; simpl; [constructor|].
  inversion H; subst. destruct (f e); [|apply IH; assumption].
  simpl. constructor; [|apply IH; assumption].
  intros Hin. apply H2. unfold map_keys in *. apply in_map_iff in Hin.
  destruct Hin as (x & Hx & Hin). apply filter_In in Hin.
  apply in_map_iff. exists x. tauto.
Qed.

Lemma clearOne_filter (m : JSMap Operation) (d : Operation) :
  NoDup (map_keys m) ->
  (forall k o, In (k, o) m -> Operation_same o d = true -> k = JS.toUpperCase (op d)) ->
  clearOne m d = filter (fun e => negb (Operation_same (snd e) d)) m.
Proof.
  intros Hnd Hk. unfold clearOne.
  destruct (map_get m (JS.toUpperCase (op d))) as [o|] eqn:Hget.
  - destruct (Operation_same o d) eqn:Hsame.
    + rewrite map_delete_filter by assumption.
      apply filter_ext_in. intros [k1 o1] Hin. simpl. f_equal.
      destruct (String.eqb_spec k1 (JS.toUpperCase (op d))) as [->|Hne].
      * rewrite (map_get_In _ _ _ Hnd Hin) in Hget. inversion Hget; subst.
        symmetry. exact Hsame.
      * destruct (Operation_same o1 d) eqn:H1; [|reflexivity].
        exfalso. apply Hne. apply (Hk k1 o1 Hin H1).
    + symmetry. apply filter_all. intros [k1 o1] Hin. simpl.
      destruct (Operation_same o1 d) eqn:H1; [|reflexivity].
      rewrite (Hk k1 o1 Hin H1) in Hin.
      rewrite (map_get_In _ _ _ Hnd Hin) in Hget. inversion Hget; subst. congruence.
  - symmetry. apply filter_all. intros [k1 o1] Hin. simpl.
    destruct (Operation_same o1 d) eqn:H1; [|reflexivity].
    rewrite (Hk k1 o1 Hin H1) in Hin.
    rewrite (map_get_In _ _ _ Hnd Hin) in Hget. discriminate.
Qed.

Lemma clear_fold_filter (ds : list Operation) :
  forall m : JSMap Operation,
    NoDup (map_keys m) ->
    (forall k o d, In (k, o) m -> In d ds -> Operation_same o d = true ->
                   k = JS.toUpperCase (op d)) ->
    fold_left clearOne ds m
    = filter (fun e => negb (existsb (Operation_same (snd e)) ds)) m.
Proof.
  induction ds as [|d ds IH]; intros m Hnd Hk; simpl.
  - symmetry. apply filter_all. reflexivity.
  - rewrite clearOne_filter; [|assumption|].
    + rewrite IH.
      * clear. induction m as [|e m IHm]; simpl; [reflexivity|].
        destruct (Operation_same (snd e) d); simpl; [exact IHm|].
        destruct (existsb (Operation_same (snd e)) ds); simpl; [exact IHm|].
        rewrite IHm. reflexivity.
      * apply NoDup_keys_filter, Hnd.
      * intros k o d' Hin Hd'. apply filter_In in Hin. destruct Hin as [Hin _].
        apply (Hk k o d' Hin). right. exact Hd'.
    + intros k o Hin. apply (Hk k o d Hin). left. reflexivity.
Qed.

Lemma clearDefaultOps_filter (m : JSMap Operation) :
  NoDup (map_keys m) -> wellKeyed m ->
  clearDefaultOps m = filter (fun e => negb (isDefaultInstance (snd e))) m.
Proof.
  intros Hnd Hk. apply (clear_fold_filter defaultOps m Hnd Hk).
Qed.

Lemma map_get_filter {V : Type} (f : V -> bool) (m : JSMap V) (k : string) :
  NoDup (map_keys m) ->
  map_get (filter (fun e => f (snd e)) m) k
  = match map_get m k with
    | Some v => if f v then Some v else None
    | None => None
    end.
Proof.
  induction m as [|[k' v] m IH]; intros Hnd; simpl; [reflexivity|].
  inversion Hnd; subst. destruct (f v) eqn:Hf; simpl.
  - destruct (String.eqb k' k); [rewrite Hf; reflexivity | apply IH; assumption].
  - destruct (String.eqb_spec k' k) as [->|Hne]; [|apply IH; assumption].
    rewrite Hf, IH by assumption.
    destruct (map_get m k) as [v1|] eqn:Hg; [|reflexivity].
    exfalso. apply H1. apply map_get_Some_In in Hg. apply (in_map fst) in Hg. exact Hg.
Qed.

End ClearDefaults.

(** *** The tables of a run

    The operations of a table are objects made by [Operation.parse]: a
    built-in instance is the built-in operation itself and sits under its
    own name, and the keys are distinct, as in every [Map].  The walk keeps
    this so. *)

Section Tables.

Lemma isDefaultInstance_In (o d : Operation) :
  In d defaultOps -> Operation_same o d = true -> isDefaultInstance o = true.
Proof.
  intros Hd Hs. unfold isDefaultInstance. apply existsb_exists. exists d. auto.
Qed.

Lemma tableOk_wellKeyed (m : JSMap Operation) : tableOk m -> wellKeyed m.
Proof.
  intros [_ Hm] k o d Hin Hd Hs. rewrite Forall_forall in Hm.
  destruct (Hm (k, o) Hin) as [Hg Hk]. simpl in *.
  rewrite <- (Hg d Hd Hs). apply Hk. apply (isDefaultInstance_In o d Hd Hs).
Qed.

Lemma fresh_entryOk (k : string) (o : Operation) :
  isDefaultInstance o = false -> entryOk (k, o).
Proof.
  intros Hf. split; simpl.
  - intros d Hd Hs. rewrite (isDefaultInstance_In o d Hd Hs) in Hf. discriminate.
  - rewrite Hf. discriminate.
Qed.

Lemma map_set_keys_In {V : Type} (m : JSMap V) (k k' : string) (v : V) :
  In k' (map_keys (map_set m k v)) -> In k' (map_keys m) \/ k' = k.
Proof.
  induction m as [|[k1 v1] m IH]; simpl.
  - intros [H|[]]. right. symmetry. exact H.
  - destruct (String.eqb_spec k1 k) as [->|Hne]; simpl.
    + intros [H|H]; [right; symmetry; exact H | left; right; exact H].
    + intros [H|H]; [left; left; exact H|].
      destruct (IH H) as [H1|H1]; [left; right; exact H1 | right; exact H1].
Qed.

Lemma map_set_NoDup {V : Type} (m : JSMap V) (k : string) (v : V) :
  NoDup (map_keys m) -> NoDup (map_keys (map_set m k v)).
Proof.
  induction m as [|[k1 v1] m IH]; intros Hnd; simpl.
  - constructor; [intros [] | constructor].
  - inversion Hnd; subst. destruct (String.eqb_spec k1 k) as [->|Hne]; simpl.
    + constructor; assumption.
    + constructor; [|apply IH; assumption].
      intros Hin. apply map_set_keys_In in Hin. destruct Hin as [Hin|Heq].
      * apply H1. exact Hin.
      * apply Hne. exact Heq.
Qed.

Lemma map_set_Forall {V : Type} (P : string * V -> Prop) (m : JSMap V) (k : string) (v : V) :
  Forall P m -> P (k, v) -> Forall P (map_set m k v).
Proof.
  intros Hm Hk. induction m as [|[k' v'] m IH]; simpl.
  - constructor; [exact Hk | constructor].
  - inversion Hm; subst. destruct (String.eqb k' k).
    + constructor; assumption.
    + constructor; [assumption | apply IH; assumption].
Qed.

Lemma Forall_filter {A : Type} (P : A -> Prop) (f : A -> bool) (l : list A) :
  Forall P l -> Forall P (filter f l).
Proof.
  intros H. apply Forall_forall. intros x Hx. apply filter_In in Hx.
  rewrite Forall_forall in H. apply H, Hx.
Qed.

Lemma clearDefaultOps_tableOk (m : JSMap Operation) :
  tableOk m -> tableOk (clearDefaultOps m).
Proof.
  intros Hm. rewrite clearDefaultOps_filter;
    [|exact (proj1 Hm) | apply tableOk_wellKeyed, Hm].
  destruct Hm as [Hnd Hf]. split; [apply NoDup_keys_filter, Hnd | apply Forall_filter, Hf].
Qed.

Lemma map_of_entries_tableOk (es : list (string * Operation)) :
  Forall entryOk es -> tableOk (map_of_entries es).
Proof.
  unfold map_of_entries.
  assert (H : forall m, tableOk m -> Forall entryOk es ->
                        tableOk (fold_left (fun m e => map_set m (fst e) (snd e)) es m)).
  { induction es as [|[k o] es IH]; intros m Hm Hes; simpl; [exact Hm|].
    inversion Hes; subst. apply IH; [|assumption].
    destruct Hm as [Hnd Hf]. split; [apply map_set_NoDup, Hnd | apply map_set_Forall; assumption]. }
  apply H. split; constructor.
Qed.

Lemma setOps_tableOk (p : Program) (os : list Operation) :
  Forall genuine os -> tableOk (ops (setOps p os)).
Proof.
  intros H. unfold setOps. simpl. apply map_of_entries_tableOk.
  apply Forall_map. eapply Forall_impl; [|exact H].
  intros o Ho. split; simpl; auto.
Qed.

Lemma tableOk_values (m : JSMap Operation) : tableOk m -> Forall genuine (map_values m).
Proof.
  intros [_ Hf]. unfold map_values. apply Forall_map.
  eapply Forall_impl; [|exact Hf]. intros e [Hg _]. exact Hg.
Qed.

Lemma defaultOps_genuine : Forall genuine defaultOps.
Proof.
  apply Forall_forall. intros o Ho d Hd Hs. simpl in Ho, Hd.
  repeat (destruct Ho as [Ho|Ho]; [subst o|]); try contradiction;
    repeat (destruct Hd as [Hd|Hd]; [subst d|]); try contradiction;
    first [reflexivity | discriminate Hs].
Qed.

Lemma processLine_tableOk (options : ProgramProcessOptions) (i : nat) (l : Line) (w : Walk)
    (ws : list Warning) (l' : Line) (w' : Walk) :
  definesFresh l -> tableOk (w_ops w) -> processLine options i l w = (ws, Ok (l', w')) ->
  tableOk (w_ops w') /\ definesFresh l'.
Proof.
  intros Hl Hw. unfold processLine.
  destruct (item l) as [[s|name|a]|] eqn:Hitem.
  - destruct (processStatement options i l s w) as [ws1 [[s1 w1]|e]] eqn:Hs;
      [|intros H; inversion H].
    apply processStatement_ok in Hs. destruct Hs as (o & _ & _ & _ & ->).
    intros H. inversion H; subst. simpl. split; [exact Hw|].
    intros a o' Ha. discriminate Ha.
  - unfold processLabel. destruct (negb (resolveLabels options)).
    { intros H. inversion H; subst. auto. }
    destruct (w_labels w) as [m|]; simpl.
    + destruct (map_has m name); intros H; inversion H; subst. auto.
    + intros H. inversion H; subst. auto.
  - intros H. inversion H; subst. split; [|exact Hl].
    unfold processAttribute. simpl.
    assert (H1 : tableOk (if no_default_ops a then clearDefaultOps (w_ops w) else w_ops w))
      by (destruct (no_default_ops a); [apply clearDefaultOps_tableOk, Hw | exact Hw]).
    destruct (a_op a) as [o|] eqn:Ho; [|exact H1].
    destruct H1 as [Hnd Hf]. split; [apply map_set_NoDup, Hnd|].
    apply map_set_Forall; [exact Hf|]. apply fresh_entryOk. apply (Hl a o Hitem Ho).
  - intros H. inversion H; subst. auto.
Qed.

Lemma Operation_parse_alloc (a : Alloc) (text : string) (o : Operation) :
  Operation_parse a text = Ok o -> alloc o = a.
Proof.
  unfold Operation_parse.
  repeat match goal with
         | |- context [match ?x with _ => _ end] => destruct x
         end; try discriminate.
  all: intros H; inversion H; reflexivity.
Qed.

Lemma Defined_not_default (o : Operation) (p i : nat) :
  alloc o = Defined p i -> isDefaultInstance o = false.
Proof.
  intros Ha. unfold isDefaultInstance, Operation_same. rewrite Ha. reflexivity.
Qed.

Lemma Line_parse_definesFresh (p i : nat) (l : string) (options : ParseOptions)
    (parsed : Line) :
  Line_parse (Defined p i) l options = Ok parsed -> definesFresh parsed.
Proof.
  unfold Line_parse. destruct (splitComments l) as [[sc c] text].
  destruct (parseItem (Defined p i) (JS.trim text) options) as [it|] eqn:Hi; [|discriminate].
  intros H. inversion H; subst. intros a o. simpl. intros -> Ho.
  unfold parseItem in Hi.
  destruct (JS.startsWith (JS.trim text) "@").
  - destruct (canParse options TAttribute); [|discriminate].
    destruct (JS.startsWith (JS.trim text) "@define").
    + destruct (Operation_parse (Defined p i) _) as [o'|] eqn:Hp; [|discriminate].
      inversion Hi; subst. simpl in Ho. inversion Ho; subst.
      apply Operation_parse_alloc in Hp. apply (Defined_not_default _ p i Hp).
    + destruct (String.eqb _ _); [|discriminate].
      inversion Hi; subst. discriminate Ho.
  - destruct (JS.startsWith (JS.trim text) ":").
    + destruct (canParse options TLabel); [|discriminate].
      destruct (JS.includes _ _); discriminate.
    + destruct (JS.truthy (JS.trim text) && canParse options TStatement); [|discriminate].
      destruct (parseStatement _ options); discriminate.
Qed.

Lemma Program_parse_definesFresh (p : nat) (content : string) (options : ParseOptions)
    (prog : Program) :
  Program_parse p content options = Ok prog -> Forall definesFresh (lines prog).
Proof.
  unfold Program_parse.
  destruct (parseLines p 0 _ options) as [ls|] eqn:Hl; [|discriminate].
  intros H. inversion H; subst. simpl. clear H.
  revert ls Hl. generalize 0%nat.
  induction (JS.split "010" (JS.removeAll "013" content)) as [|l rest IH];
    intros ix ls; simpl.
  - intros H. inversion H. constructor.
  - destruct (Line_parse (Defined p ix) l options) as [parsed|] eqn:Hp; [|discriminate].
    destruct (parseLines p (S ix) rest options) as [more|] eqn:Hm; [|discriminate].
    intros H. inversion H; subst. constructor.
    + eapply Line_parse_definesFresh; eassumption.
    + eapply IH; eassumption.
Qed.

Lemma _process_tableOk (options : ProgramProcessOptions) (p p' : Program)
    (ws : list Warning) (insts : list Instruction) :
  Forall definesFresh (lines p) -> tableOk (ops p) ->
  _process options p = (ws, Ok (p', insts)) ->
  tableOk (ops p') /\ Forall definesFresh (lines p').
Proof.
  intros Hl Ht. unfold _process.
  destruct (processFrom options 0 (lines p) _) as [ws1 [[ls w]|e]] eqn:Hp;
    [|intros H; inversion H].
  intros H. inversion H; subst. simpl.
  apply (processFrom_invariant options (fun w => tableOk (w_ops w)) definesFresh
           (processLine_tableOk options) _ _ (mkWalk (labels p) (ops p) [] false)
           _ _ _ Hl Ht Hp).
Qed.

(** In a run of [assemble] the directive pass starts and ends with a table
    that is in order, and so does the first walk of the program; the walk
    of [emit] starts with the table [ops prog]. *)
Lemma assemble_tables (content : string) (prog : Program) :
  assembleResolved content = Ok prog ->
  tableOk initialOps
  /\ (exists attributes, directivePass content = Ok attributes /\ tableOk (ops attributes))
  /\ tableOk (ops prog) /\ Forall definesFresh (lines prog).
Proof.
  unfold assembleResolved, directivePass.
  split; [apply (setOps_tableOk (mkProgram [] None []) defaultOps defaultOps_genuine)|].
  destruct (Program_parse 0 content onlyAttributes) as [a0|] eqn:Hp0; [|discriminate].
  unfold loadDefinedOps in *.
  destruct (_process _ (setOps a0 defaultOps)) as [ws0 [[a1 i0]|e]] eqn:Hq0;
    [|discriminate].
  simpl in *.
  destruct (_process_tableOk _ (setOps a0 defaultOps) _ _ _
              (Program_parse_definesFresh _ _ _ _ Hp0)
              (setOps_tableOk a0 defaultOps defaultOps_genuine) Hq0) as [Ht1 _].
  split; [exists a1; split; [reflexivity | exact Ht1]|].
  destruct (Program_parse 1 content _) as [p0|] eqn:Hp1; [|discriminate].
  pose proof (Program_parse_clean _ _ _ _ Hp1) as [_ Hn].
  unfold Program_resolveLabels in H. simpl in H. rewrite Hn in H.
  set (start := mkProgram (lines p0) (Some []) _) in H.
  destruct (_process (mkOptions true false false) start) as [ws1 [[p1 i1]|e]] eqn:Hq1;
    [|discriminate].
  simpl in H. inversion H; subst.
  refine (_process_tableOk _ start _ _ _ _ _ Hq1).
  - apply (Program_parse_definesFresh _ _ _ _ Hp1).
  - apply (setOps_tableOk p0 _ (tableOk_values _ Ht1)).
Qed.

End Tables.

(** C5: processing [@no_default_ops] removes from the table exactly the
    entries that are built-in instances and keeps every other entry, in
    its place; an operation made by a [@define] is never a built-in
    instance, so an entry that a redefinition has replaced stays.  This
    holds of every table that is in order, as the tables of a run are: the
    table the directive pass starts with is, and the walk keeps it so.
    The file of the specification assembles with its one operation, and
    each other built-in name, alone on a fifth line, fails with
    [Unknown operation]. *)
Theorem clear_defaults_removes_default_instances :
  (forall m : JSMap Operation,
      tableOk m ->
      clearDefaultOps m = filter (fun e => negb (isDefaultInstance (snd e))) m
      /\ forall k, map_get (clearDefaultOps m) k
                   = match map_get m k with
                     | Some o => if isDefaultInstance o then None else Some o
                     | None => None
                     end)
  /\ (forall (a : Attribute) (w : Walk),
         no_default_ops a = true -> a_op a = None ->
         processAttribute a w
         = mkWalk (w_labels w) (clearDefaultOps (w_ops w)) (instructions w) (unreachable w))
  /\ (forall (o : Operation) (p i : nat),
         alloc o = Defined p i -> isDefaultInstance o = false)
  /\ (initialOps = ops (setOps (mkProgram [] None []) defaultOps) /\ tableOk initialOps)
  /\ (forall (options : ProgramProcessOptions) (i : nat) (l l' : Line) (w w' : Walk)
             (ws : list Warning),
         definesFresh l -> tableOk (w_ops w) ->
         processLine options i l w = (ws, Ok (l', w')) ->
         tableOk (w_ops w'))
  /\ map op defaultOps
     = ["CALL"; "RET"; "BZ"; "B"; "ADD"; "SUB"; "LD"; "IN"; "OUT"; "AND"; "WRITE"]
  /\ assemble overrideSource true
     = ([], Ok (unlines ("0001;(Assembly: CALL :x)" :: repeat filler 63)))
  /\ Forall (fun name =>
               assemble (overrideSource ++ newline ++ name) true
               = ([], Throw (FailedToEmit 5 name (UnknownOperation name))))
            ["RET"; "BZ"; "B"; "ADD"; "SUB"; "LD"; "IN"; "OUT"; "AND"; "WRITE"].
Proof.
  split.
  { intros m Hm. pose proof (tableOk_wellKeyed m Hm) as Hk. destruct Hm as [Hnd _].
    rewrite clearDefaultOps_filter by assumption.
    split; [reflexivity|]. intros k.
    rewrite (map_get_filter (fun o => negb (isDefaultInstance o))) by assumption.
    destruct (map_get m k) as [o|]; [|reflexivity].
    destruct (isDefaultInstance o); reflexivity. }
  split.
  { intros a w Hn Ho. unfold processAttribute. rewrite Hn, Ho. reflexivity. }
  split; [exact Defined_not_default|].
  split.
  { split; [reflexivity|].
    apply (setOps_tableOk (mkProgram [] None []) defaultOps defaultOps_genuine). }
  split.
  { intros options i l l' w w' ws Hl Hw Hp.
    apply (processLine_tableOk options i l w ws l' w' Hl Hw Hp). }
  split; [reflexivity|].
  split; [vm_compute; reflexivity|].
  repeat (constructor; [vm_compute; reflexivity|]). constructor.
Qed.

Lemma clear_defaults_removes_default_instances_witness :
  tableOk overriddenOps
  /\ clearDefaultOps overriddenOps = [("CALL", userCALL)].
Proof.
  assert (Hm : tableOk overriddenOps).
  { change overriddenOps with (map_set initialOps "CALL" userCALL).
    destruct (setOps_tableOk (mkProgram [] None []) defaultOps defaultOps_genuine)
      as [Hnd Hf].
    split; [apply map_set_NoDup, Hnd|].
    apply map_set_Forall; [exact Hf | apply fresh_entryOk; reflexivity]. }
  split; [exact Hm|].
  rewrite (proj1 (proj1 clear_defaults_removes_default_instances overriddenOps Hm)).
  reflexivity.
Defined.

(** ** C6: the key of a redefinition *)

(** C6 fails on the code: the walk stores the operation of a [@define]
    under its name as written.  After [@define call ...] the table of the
    directive pass has the key [call], which is not uppercase; and after
    [@define CALL ... => 5] and [@define call ... => 0] the statement
    [CALL 3] is encoded with opcode 5, the older definition, as [0a03],
    where the later definition would give [0003]. *)
Theorem define_stores_name_as_written :
  (forall (a : Attribute) (w : Walk) (o : Operation),
      a_op a = Some o -> no_default_ops a = false ->
      w_ops (processAttribute a w) = map_set (w_ops w) (op o) o)
  /\ (exists p,
         directivePass lowerCaseDefine = Ok p
         /\ map_keys (ops p)
            = ["CALL"; "RET"; "BZ"; "B"; "ADD"; "SUB"; "LD"; "IN"; "OUT"; "AND"; "WRITE";
               "call"]
         /\ JS.toUpperCase "call" <> "call")
  /\ assemble twoCasesSource true
     = ([BranchingToHardCodedAddress (num_of_Z 3) 2],
        Ok (unlines ("0a03;(Assembly: CALL 3)" :: repeat filler 63))).
Proof.
  split.
  { intros a w o Ho Hn. unfold processAttribute. rewrite Ho, Hn. reflexivity. }
  split.
  { eexists. split; [vm_compute; reflexivity|]. split; [reflexivity | discriminate]. }
  vm_compute. reflexivity.
Qed.

(** ** C2: references to labels *)

(** C2 fails on the code for the label with the empty name: the line [:]
    binds it, to index 1, but the reference [CALL :] is not looked up,
    because the empty string is falsy, and the encoding pass throws
    [This instruction requires a target address]; with the name [x] the
    same program assembles, its reference resolved to index 1. *)
Theorem empty_label_reference_is_not_resolved :
  (exists prog,
      assembleResolved emptyLabelSource = Ok prog
      /\ labels prog = Some [(EmptyString, 1%nat)]
      /\ map item (lines prog)
         = [Some (statement (mkStatement "CALL" None None (Some EmptyString)));
            Some (label EmptyString)])
  /\ assemble emptyLabelSource true
     = ([], Throw (FailedToEmit 1 "CALL :" RequiresTargetAddress))
  /\ assemble forwardLabelSource true
     = ([], Ok (unlines ("0001;(Assembly: CALL :x)" :: repeat filler 63))).
Proof.
  split.
  { eexists. split; [vm_compute; reflexivity|]. split; vm_compute; reflexivity. }
  split; vm_compute; reflexivity.
Qed.

(** For a label whose name is not empty the claim holds, wherever the
    label stands: the first walk binds it to the number of instructions
    that the lines before it gave, later lines leave the binding alone,
    the encoding walk leaves the whole map alone, and a reference to the
    label gets that number as its data. *)

Section LabelReferences.

Lemma map_get_set_same {V : Type} (m : JSMap V) (k : string) (v : V) :
  map_get (map_set m k v) k = Some v.
Proof.
  induction m as [|[k' v'] m IH]; simpl.
  - rewrite String.eqb_refl. reflexivity.
  - destruct (String.eqb k' k) eqn:He; simpl.
    + rewrite String.eqb_refl. reflexivity.
    + rewrite He. exact IH.
Qed.

Lemma map_get_set_other {V : Type} (m : JSMap V) (k k' : string) (v : V) :
  k <> k' -> map_get (map_set m k v) k' = map_get m k'.
Proof.
  intros Hne. induction m as [|[k1 v1] m IH]; simpl.
  - destruct (String.eqb_spec k k'); [contradiction | reflexivity].
  - destruct (String.eqb_spec k1 k) as [->|Hk]; simpl.
    + destruct (String.eqb_spec k k'); [contradiction | reflexivity].
    + destruct (String.eqb k1 k'); [reflexivity | exact IH].
Qed.

Lemma resolveJumpLabel_found (options : ProgramProcessOptions) (m : JSMap nat)
    (s : Statement) (name : string) (n : nat) :
  s_jumpLabel s = Some name -> JS.truthy name = true -> map_get m name = Some n ->
  resolveJumpLabel options (Some m) s
  = Ok (mkStatement (s_op s) (s_reg s) (Some (num_of_nat n)) (Some name)).
Proof.
  intros Hj Ht Hg. unfold resolveJumpLabel. rewrite Hj, Ht, Hg. reflexivity.
Qed.

Lemma processLine_binding_stable (options : ProgramProcessOptions) (name : string) (n : nat)
    (i : nat) (l : Line) (w : Walk) (ws : list Warning) (l' : Line) (w' : Walk) :
  True -> binding w name = Some n -> processLine options i l w = (ws, Ok (l', w')) ->
  binding w' name = Some n /\ True.
Proof.
  intros _ Hb. unfold processLine.
  destruct (item l) as [[s|name'|a]|].
  - destruct (processStatement options i l s w) as [ws1 [[s1 w1]|e]] eqn:Hs;
      [|intros H; inversion H].
    apply processStatement_ok in Hs. destruct Hs as (o & _ & _ & _ & ->).
    intros H. inversion H; subst. auto.
  - unfold processLabel. destruct (negb (resolveLabels options)).
    { intros H. inversion H; subst. auto. }
    unfold binding in *. destruct (w_labels w) as [m|]; [|discriminate]. simpl.
    destruct (map_has m name') eqn:Hhas; intros H; inversion H; subst. simpl.
    split; [|exact I]. rewrite map_get_set_other; [exact Hb|].
    intros ->. unfold map_has in Hhas. rewrite Hb in Hhas. discriminate.
  - intros H. inversion H; subst. auto.
  - intros H. inversion H; subst. auto.
Qed.

Lemma processLine_labels_constant (options : ProgramProcessOptions) (m : option (JSMap nat))
    (Hopt : resolveLabels options = false)
    (i : nat) (l : Line) (w : Walk) (ws : list Warning) (l' : Line) (w' : Walk) :
  True -> w_labels w = m -> processLine options i l w = (ws, Ok (l', w')) ->
  w_labels w' = m /\ True.
Proof.
  intros _ Hm. unfold processLine.
  destruct (item l) as [[s|name'|a]|].
  - destruct (processStatement options i l s w) as [ws1 [[s1 w1]|e]] eqn:Hs;
      [|intros H; inversion H].
    apply processStatement_ok in Hs. destruct Hs as (o & _ & _ & _ & ->).
    intros H. inversion H; subst. auto.
  - unfold processLabel. rewrite Hopt. simpl. intros H. inversion H; subst. auto.
  - intros H. inversion H; subst. auto.
  - intros H. inversion H; subst. auto.
Qed.

(** The label of line [l] is bound to the number of instructions of the
    lines [pre] before it. *)
Lemma label_bound_to_next_index (options : ProgramProcessOptions) (i : nat)
    (pre post : list Line) (l : Line) (name : string) (w w' : Walk)
    (ws : list Warning) (ls' : list Line) :
  resolveLabels options = true -> w_labels w <> None ->
  item l = Some (label name) ->
  processFrom options i (pre ++ l :: post) w = (ws, Ok (ls', w')) ->
  exists ws1 pre' wpre,
    processFrom options i pre w = (ws1, Ok (pre', wpre))
    /\ binding w' name = Some (List.length (instructions wpre)).
Proof.
  intros Hopt Hlab Hitem. rewrite processFrom_app.
  destruct (processFrom options i pre w) as [ws1 [[pre' wpre]|e]] eqn:Hpre;
    [|intros H; inversion H].
  assert (Hlab1 : w_labels wpre <> None).
  { refine (proj1 (processFrom_invariant _ (fun w => w_labels w <> None) (fun _ => True)
             (processLine_keeps_labels _) _ _ _ _ _ _ _ Hlab Hpre)).
    apply Forall_forall. auto. }
  simpl. unfold processLine at 1. rewrite Hitem. unfold processLabel. rewrite Hopt. simpl.
  destruct (w_labels wpre) as [m|] eqn:Hm; [|congruence].
  destruct (map_has m name); [intros H; inversion H|].
  set (w2 := mkWalk _ _ _ _).
  destruct (processFrom options (S (i + List.length pre)) post w2)
    as [ws2 [[ls2 w3]|e]] eqn:Hpost; [|intros H; inversion H].
  intros H. inversion H; subst. exists ws1, pre', wpre. split; [reflexivity|].
  refine (proj1 (processFrom_invariant _
           (fun w => binding w name = Some (List.length (instructions wpre)))
           (fun _ => True) (processLine_binding_stable _ _ _) _ _ _ _ _ _ _ _ Hpost)).
  - apply Forall_forall. auto.
  - unfold binding, w2. simpl. apply map_get_set_same.
Qed.

(** A reference to a label with a name that is not empty is resolved to
    the index bound to the label, whether the label stands before or
    after the reference; the encoding walk works with the label map of
    the first walk. *)
Lemma label_reference_resolves (opsTable : JSMap Operation) (pre post : list Line)
    (l : Line) (name : string) (ws : list Warning) (ls1 : list Line) (w1 : Walk) :
  item l = Some (label name) -> JS.truthy name = true ->
  processFrom (mkOptions true false false) 0 (pre ++ l :: post)
    (mkWalk (Some []) opsTable [] false) = (ws, Ok (ls1, w1)) ->
  exists ws1 pre' wpre,
    processFrom (mkOptions true false false) 0 pre (mkWalk (Some []) opsTable [] false)
    = (ws1, Ok (pre', wpre))
    /\ binding w1 name = Some (List.length (instructions wpre))
    /\ (forall (sink : bool) (s : Statement),
           s_jumpLabel s = Some name ->
           resolveJumpLabel (mkOptions false true sink) (w_labels w1) s
           = Ok (mkStatement (s_op s) (s_reg s)
                   (Some (num_of_nat (List.length (instructions wpre)))) (Some name)))
    /\ (forall (sink : bool) (i : nat) (ls ls' : list Line) (w w' : Walk)
               (ws' : list Warning),
           w_labels w = w_labels w1 ->
           processFrom (mkOptions false true sink) i ls w = (ws', Ok (ls', w')) ->
           w_labels w' = w_labels w1).
Proof.
  intros Hitem Ht Hp.
  destruct (label_bound_to_next_index (mkOptions true false false) _ _ _ _ _
              (mkWalk (Some []) opsTable [] false) _ _ _ eq_refl
              ltac:(simpl; discriminate) Hitem Hp) as (ws1 & pre' & wpre & Hpre & Hb).
  exists ws1, pre', wpre. split; [exact Hpre|]. split; [exact Hb|]. split.
  - intros sink s Hj. unfold binding in Hb.
    destruct (w_labels w1) as [m|]; [|discriminate].
    apply resolveJumpLabel_found; assumption.
  - intros sink i ls ls' w w' ws' Hw Hq.
    refine (proj1 (processFrom_invariant (mkOptions false true sink)
             (fun w => w_labels w = w_labels w1)
             (fun _ => True)
             (processLine_labels_constant (mkOptions false true sink) _ eq_refl)
             _ _ _ _ _ _ _ Hw Hq)).
    apply Forall_forall. auto.
Qed.

End LabelReferences.

(** * Further properties *)

(** ** The comments of a line *)

Section Comments.

Lemma prefix_split (sub s : string) :
  String.prefix sub s = true -> s = sub ++ JS.sliceFrom (String.length sub) s.
Proof.
  revert s. induction sub as [|a sub IH]; intros s; simpl; [reflexivity|].
  destruct s as [|b s]; simpl; [discriminate|].
  destruct (ascii_dec a b) as [->|]; [|intros H; discriminate H].
  intros H. simpl. f_equal. apply IH, H.
Qed.

Lemma prefix_sliceTo (sub s : string) (n : nat) :
  String.prefix sub (JS.sliceTo n s) = true -> String.prefix sub s = true.
Proof.
  revert s n. induction sub as [|a sub IH]; intros s n; [destruct s; reflexivity|].
  destruct n as [|n], s as [|b s]; simpl; try discriminate.
  destruct (ascii_dec a b); [apply IH | intros H; discriminate H].
Qed.

Lemma indexOf_cons (c : ascii) (s sub : string) :
  JS.indexOf (String c s) sub
  = if String.prefix sub (String c s) then Some O else option_map S (JS.indexOf s sub).
Proof. reflexivity. Qed.

Lemma indexOf_nil (sub : string) :
  JS.indexOf EmptyString sub = match sub with EmptyString => Some O | _ => None end.
Proof. destruct sub; reflexivity. Qed.

Lemma indexOf_split (sub s : string) :
  forall n, JS.indexOf s sub = Some n ->
            s = JS.sliceTo n s ++ sub ++ JS.sliceFrom (n + String.length sub) s.
Proof.
  induction s as [|c s IH]; intros n Hn.
  - rewrite indexOf_nil in Hn. destruct sub as [|a sub]; [|discriminate Hn].
    inversion Hn; subst. reflexivity.
  - rewrite indexOf_cons in Hn.
    destruct (String.prefix sub (String c s)) eqn:Hp.
    + inversion Hn; subst. apply (prefix_split sub (String c s) Hp).
    + destruct (JS.indexOf s sub) as [m|]; [|discriminate Hn].
      inversion Hn; subst. simpl. f_equal. apply IH. reflexivity.
Qed.

Lemma indexOf_None_sliceTo (sub s : string) :
  forall n, JS.indexOf s sub = None -> JS.indexOf (JS.sliceTo n s) sub = None.
Proof.
  induction s as [|c s IH]; intros n Hn.
  - destruct n; exact Hn.
  - rewrite indexOf_cons in Hn.
    destruct (String.prefix sub (String c s)) eqn:Hp; [discriminate Hn|].
    destruct (JS.indexOf s sub) as [m|] eqn:Hi; [discriminate Hn|].
    destruct n as [|n].
    + change (JS.sliceTo 0 (String c s)) with EmptyString. rewrite indexOf_nil.
      destruct sub as [|a sub]; [discriminate Hp | reflexivity].
    + change (JS.sliceTo (S n) (String c s)) with (String c (JS.sliceTo n s)).
      rewrite indexOf_cons.
      destruct (String.prefix sub (String c (JS.sliceTo n s))) eqn:Hp1.
      * apply (prefix_sliceTo sub (String c s) (S n)) in Hp1. congruence.
      * rewrite (IH n eq_refl). reflexivity.
Qed.

(** Before the first occurrence of a marker there is no occurrence. *)
Lemma indexOf_first (sub s : string) :
  sub <> EmptyString ->
  forall n, JS.indexOf s sub = Some n -> JS.indexOf (JS.sliceTo n s) sub = None.
Proof.
  intros Hsub. induction s as [|c s IH]; intros n Hn.
  - rewrite indexOf_nil in Hn. destruct sub as [|a sub]; [congruence | discriminate Hn].
  - rewrite indexOf_cons in Hn.
    destruct (String.prefix sub (String c s)) eqn:Hp.
    + inversion Hn; subst.
      change (JS.sliceTo 0 (String c s)) with EmptyString. rewrite indexOf_nil.
      destruct sub as [|a sub]; [congruence | reflexivity].
    + destruct (JS.indexOf s sub) as [m|] eqn:Hi; [|discriminate Hn].
      inversion Hn; subst.
      change (JS.sliceTo (S m) (String c s)) with (String c (JS.sliceTo m s)).
      rewrite indexOf_cons.
      destruct (String.prefix sub (String c (JS.sliceTo m s))) eqn:Hp1.
      * apply (prefix_sliceTo sub (String c s) (S m)) in Hp1. congruence.
      * rewrite (IH m eq_refl). reflexivity.
Qed.

Lemma indexOf_None_sliceFrom (sub s : string) :
  forall n, JS.indexOf s sub = None -> JS.indexOf (JS.sliceFrom n s) sub = None.
Proof.
  induction s as [|c s IH]; intros n H.
  - destruct n; exact H.
  - destruct n as [|n]; [exact H|].
    change (JS.sliceFrom (S n) (String c s)) with (JS.sliceFrom n s). apply IH.
    rewrite indexOf_cons in H. destruct (String.prefix sub (String c s)); [discriminate H|].
    destruct (JS.indexOf s sub); [discriminate H | reflexivity].
Qed.

Lemma append_empty (s : string) : s ++ EmptyString = s.
Proof. induction s as [|c s IH]; simpl; [reflexivity|]. rewrite IH. reflexivity. Qed.

Lemma includes_indexOf (s sub : string) :
  JS.includes s sub = false <-> JS.indexOf s sub = None.
Proof.
  unfold JS.includes. destruct (JS.indexOf s sub); split; congruence.
Qed.

End Comments.

(** X1: [Line.parse] splits a line without losing anything: the text, then
    [//] and the public comment when there is one, then [#] and the private
    comment when there is one, give the line back.  The text holds neither
    marker, and the public comment holds no [#]. *)
Theorem splitComments_lossless (l : string) :
  joinComments (splitComments l) = l
  /\ JS.includes (snd (splitComments l)) "#" = false
  /\ JS.includes (snd (splitComments l)) "//" = false
  /\ (forall c, snd (fst (splitComments l)) = Some c -> JS.includes c "#" = false).
Proof.
  unfold splitComments.
  destruct (JS.indexOf l "#") as [secretIx|] eqn:Hs.
  - pose proof (indexOf_split _ _ _ Hs) as Hl.
    pose proof (indexOf_first "#" l ltac:(discriminate) _ Hs) as Hnone.
    destruct (JS.indexOf (JS.sliceTo secretIx l) "//") as [commentIx|] eqn:Hc.
    + pose proof (indexOf_split _ _ _ Hc) as Ht. simpl.
      split.
      { rewrite Hl at 4. rewrite Ht at 3. rewrite !append_assoc. reflexivity. }
      split; [apply includes_indexOf, indexOf_None_sliceTo, Hnone|].
      split; [apply includes_indexOf, (indexOf_first "//"); [discriminate | exact Hc]|].
      intros c H. inversion H; subst.
      apply includes_indexOf, indexOf_None_sliceFrom, Hnone.
    + simpl. split; [symmetry; exact Hl|].
      split; [apply includes_indexOf, Hnone|].
      split; [apply includes_indexOf, Hc | discriminate].
  - destruct (JS.indexOf l "//") as [commentIx|] eqn:Hc.
    + pose proof (indexOf_split _ _ _ Hc) as Ht. simpl.
      split; [rewrite Ht at 3; rewrite append_empty; reflexivity|].
      split; [apply includes_indexOf, indexOf_None_sliceTo, Hs|].
      split; [apply includes_indexOf, (indexOf_first "//"); [discriminate | exact Hc]|].
      intros c H. inversion H; subst.
      apply includes_indexOf, indexOf_None_sliceFrom, Hs.
    + simpl. split; [apply append_empty|].
      split; [apply includes_indexOf, Hs|].
      split; [apply includes_indexOf, Hc | discriminate].
Qed.

(** ** What a walk does to its lines, and where it fails *)

Section WalkLines.

Lemma sameButData_refl (l : Line) : sameButData l l.
Proof.
  unfold sameButData. repeat split.
  destruct (item l) as [[s|n|a]|]; auto.
Qed.

Lemma resolveJumpLabel_keeps (options : ProgramProcessOptions) (labels : option (JSMap nat))
    (s s' : Statement) :
  resolveJumpLabel options labels s = Ok s' ->
  s_op s' = s_op s /\ s_reg s' = s_reg s /\ s_jumpLabel s' = s_jumpLabel s.
Proof.
  unfold resolveJumpLabel.
  destruct (s_jumpLabel s) as [j|] eqn:Hj; [|intros H; inversion H; subst; auto].
  destruct (JS.truthy j); [|intros H; inversion H; subst; auto].
  destruct (match labels with Some m => map_get m j | None => None end).
  - intros H. inversion H; subst. simpl. auto.
  - destruct (validateInstructionArgs options); intros H; inversion H; subst. auto.
Qed.

Lemma processLine_sameButData (options : ProgramProcessOptions) (i : nat) (l : Line)
    (w : Walk) (ws : list Warning) (l' : Line) (w' : Walk) :
  processLine options i l w = (ws, Ok (l', w')) -> sameButData l l'.
Proof.
  unfold processLine.
  destruct (item l) as [[s|name|a]|] eqn:Hitem.
  - destruct (processStatement options i l s w) as [ws1 [[s1 w1]|e]] eqn:Hs;
      [|intros H; inversion H].
    apply processStatement_ok in Hs. destruct Hs as (o & Hr & _).
    intros H. inversion H; subst. unfold sameButData. simpl. rewrite Hitem.
    apply resolveJumpLabel_keeps in Hr. tauto.
  - destruct (processLabel options name w); intros H; inversion H; subst.
    apply sameButData_refl.
  - intros H. inversion H; subst. apply sameButData_refl.
  - intros H. inversion H; subst. apply sameButData_refl.
Qed.

Lemma processFrom_sameButData (options : ProgramProcessOptions) (ls : list Line) :
  forall i w ws ls' w',
    processFrom options i ls w = (ws, Ok (ls', w')) -> Forall2 sameButData ls ls'.
Proof.
  induction ls as [|l rest IH]; intros i w ws ls' w'; simpl.
  - intros H. inversion H. constructor.
  - destruct (processLine options i l w) as [ws1 [[l1 w1]|e]] eqn:Hl;
      [|intros H; inversion H].
    destruct (processFrom options (S i) rest w1) as [ws2 [[ls2 w2]|e]] eqn:Hr;
      [|intros H; inversion H].
    intros H. inversion H; subst. simpl. constructor.
    + eapply processLine_sameButData, Hl.
    + eapply IH, Hr.
Qed.

Lemma sameButData_lines (ls ls' : list Line) :
  Forall2 sameButData ls ls' -> map line ls' = map line ls.
Proof.
  induction 1 as [|l l' ls ls' Hl _ IH]; simpl; [reflexivity|].
  rewrite IH. destruct Hl as [-> _]. reflexivity.
Qed.

(** A walk that throws names the line at which it stopped, counted from
    one. *)
Lemma processFrom_error (options : ProgramProcessOptions) (ls : list Line) :
  forall i w ws e,
    processFrom options i ls w = (ws, Throw e) ->
    exists k l cause,
      nth_error ls k = Some l /\ e = FailedToEmit (i + k + 1) (line l) cause.
Proof.
  induction ls as [|l rest IH]; intros i w ws e; simpl.
  - intros H. inversion H.
  - destruct (processLine options i l w) as [ws1 [[l1 w1]|e1]] eqn:Hl.
    + destruct (processFrom options (S i) rest w1) as [ws2 [[ls2 w2]|e2]] eqn:Hr;
        intros H; inversion H; subst.
      destruct (IH _ _ _ _ Hr) as (k & l' & cause & Hk & ->).
      exists (S k), l', cause. split; [exact Hk|]. f_equal. lia.
    + intros H. inversion H; subst. exists 0%nat, l, e1. split; [reflexivity|].
      f_equal. lia.
Qed.

Lemma Line_parse_line (a : Alloc) (l : string) (options : ParseOptions) (parsed : Line) :
  Line_parse a l options = Ok parsed -> line parsed = l.
Proof.
  unfold Line_parse. destruct (splitComments l) as [[sc c] text].
  destruct (parseItem a (JS.trim text) options); intros H; inversion H. reflexivity.
Qed.

Lemma parseLines_lines (parse : nat) (options : ParseOptions) (ls : list string) :
  forall ix parsed, parseLines parse ix ls options = Ok parsed -> map line parsed = ls.
Proof.
  induction ls as [|l rest IH]; intros ix parsed; simpl.
  - intros H. inversion H. reflexivity.
  - destruct (Line_parse (Defined parse ix) l options) as [p|] eqn:Hp;
      [|intros H; discriminate H].
    destruct (parseLines parse (S ix) rest options) as [more|] eqn:Hm;
      [|intros H; discriminate H].
    intros H. inversion H; subst. simpl.
    rewrite (Line_parse_line _ _ _ _ Hp), (IH _ _ Hm). reflexivity.
Qed.

Lemma parseLines_error (parse : nat) (options : ParseOptions) (ls : list string) :
  forall ix e,
    parseLines parse ix ls options = Throw e ->
    exists k l cause,
      nth_error ls k = Some l /\ e = SyntaxErrorAt (ix + k + 1) l cause
      /\ Line_parse (Defined parse (ix + k)) l options = Throw cause.
Proof.
  induction ls as [|l rest IH]; intros ix e; simpl.
  - intros H. discriminate H.
  - destruct (Line_parse (Defined parse ix) l options) as [p|e1] eqn:Hp.
    + destruct (parseLines parse (S ix) rest options) as [more|e2] eqn:Hm;
        intros H; inversion H; subst.
      destruct (IH _ _ Hm) as (k & l' & cause & Hk & -> & Hc).
      exists (S k), l', cause. split; [exact Hk|]. split; [f_equal; lia|].
      replace (ix + S k)%nat with (S ix + k)%nat by lia. exact Hc.
    + intros H. inversion H; subst. exists 0%nat, l, e1.
      split; [reflexivity|]. split; [f_equal; lia|].
      rewrite Nat.add_0_r. exact Hp.
Qed.

Lemma Program_parse_lines (parse : nat) (content : string) (options : ParseOptions)
    (p : Program) :
  Program_parse parse content options = Ok p -> map line (lines p) = rawLines content.
Proof.
  unfold Program_parse, rawLines.
  destruct (parseLines parse 0 _ options) as [ls|] eqn:Hl; [|intros H; discriminate H].
  intros H. inversion H; subst. simpl. apply (parseLines_lines _ _ _ _ _ Hl).
Qed.

Lemma Program_parse_error (parse : nat) (content : string) (options : ParseOptions)
    (e : Error) :
  Program_parse parse content options = Throw e ->
  exists n l, namesLine e n l /\ (1 <= n)%nat /\ nth_error (rawLines content) (n - 1) = Some l.
Proof.
  unfold Program_parse, rawLines.
  destruct (parseLines parse 0 _ options) as [ls|e1] eqn:Hl; [intros H; discriminate H|].
  intros H. inversion H; subst.
  destruct (parseLines_error _ _ _ _ _ Hl) as (k & l & cause & Hk & -> & _).
  exists (0 + k + 1)%nat, l. split; [exists cause; left; reflexivity|].
  split; [lia|]. replace (0 + k + 1 - 1)%nat with k by lia. exact Hk.
Qed.

Lemma _process_error (options : ProgramProcessOptions) (p : Program) (ws : list Warning)
    (e : Error) (raw : list string) :
  map line (lines p) = raw ->
  _process options p = (ws, Throw e) ->
  exists n l, namesLine e n l /\ (1 <= n)%nat /\ nth_error raw (n - 1) = Some l.
Proof.
  intros Hraw. unfold _process.
  destruct (processFrom options 0 (lines p) _) as [ws1 [[ls w]|e1]] eqn:Hp;
    intros H; inversion H; subst.
  destruct (processFrom_error _ _ _ _ _ _ Hp) as (k & l & cause & Hk & ->).
  exists (0 + k + 1)%nat, (line l). split; [exists cause; right; reflexivity|].
  split; [lia|]. replace (0 + k + 1 - 1)%nat with k by lia.
  rewrite nth_error_map, Hk. reflexivity.
Qed.

Lemma _process_lines (options : ProgramProcessOptions) (p p' : Program)
    (ws : list Warning) (insts : list Instruction) :
  _process options p = (ws, Ok (p', insts)) ->
  Forall2 sameButData (lines p) (lines p').
Proof.
  unfold _process.
  destruct (processFrom options 0 (lines p) _) as [ws1 [[ls w]|e1]] eqn:Hp;
    intros H; inversion H; subst.
  simpl. apply (processFrom_sameButData _ _ _ _ _ _ _ Hp).
Qed.

End WalkLines.

(** X2: every error of [assemble] names a line of the source: it is a
    [Syntax error at line n] of a parse or a [Failed to emit instruction for
    line n] of a walk, [n] counts the lines from one, and the content that
    the error quotes is the [n]-th line of the source text (after the
    removal of CR).  The error [Generate labels before emitting
    instructions] never leaves [assemble]. *)
Theorem assemble_error_names_line (content : string) (sink : bool) (ws : list Warning)
    (e : Error) :
  assemble content sink = (ws, Throw e) ->
  exists n l,
    namesLine e n l /\ (1 <= n)%nat /\ nth_error (rawLines content) (n - 1) = Some l.
Proof.
  unfold assemble.
  destruct (assembleResolved content) as [prog|e0] eqn:Hr.
  - pose proof (assembleResolved_clean _ _ Hr) as (_ & _ & Hn).
    assert (Hlines : map line (lines prog) = rawLines content).
    { unfold assembleResolved in Hr.
      destruct (Program_parse 0 content onlyAttributes) as [a0|]; [|discriminate Hr].
      destruct (loadDefinedOps _) as [a1|]; [|discriminate Hr].
      destruct (Program_parse 1 content _) as [p0|] eqn:Hp; [|discriminate Hr].
      pose proof (Program_parse_lines _ _ _ _ Hp) as Hl.
      pose proof (Program_parse_clean _ _ _ _ Hp) as [_ Hnone].
      unfold Program_resolveLabels in Hr. simpl in Hr. rewrite Hnone in Hr.
      set (start := mkProgram (lines p0) (Some []) _) in Hr.
      destruct (_process (mkOptions true false false) start) as [ws1 [[p1 i1]|e1]] eqn:Hq;
        [|discriminate Hr].
      simpl in Hr. inversion Hr; subst.
      rewrite (sameButData_lines _ _ (_process_lines _ start _ _ _ Hq)). exact Hl. }
    unfold emit. destruct (labels prog); [|congruence].
    destruct (_process (mkOptions false true sink) prog) as [ws1 [[p' insts]|e1]] eqn:Hq;
      intros H; inversion H; subst.
    apply (_process_error _ _ _ _ _ Hlines Hq).
  - intros H. inversion H; subst. clear H.
    unfold assembleResolved in Hr.
    destruct (Program_parse 0 content onlyAttributes) as [a0|e1] eqn:Hp0.
    2:{ inversion Hr; subst. apply (Program_parse_error _ _ _ _ Hp0). }
    unfold loadDefinedOps in Hr.
    destruct (_process (mkOptions false false false) (setOps a0 defaultOps))
      as [ws0 [[a1 i0]|e1]] eqn:Hq0.
    2:{ simpl in Hr. inversion Hr; subst.
        apply (_process_error _ (setOps a0 defaultOps) _ _ _
                 (Program_parse_lines _ _ _ _ Hp0) Hq0). }
    simpl in Hr.
    destruct (Program_parse 1 content _) as [p0|e1] eqn:Hp1.
    2:{ inversion Hr; subst. apply (Program_parse_error _ _ _ _ Hp1). }
    pose proof (Program_parse_clean _ _ _ _ Hp1) as [_ Hnone].
    unfold Program_resolveLabels in Hr. simpl in Hr. rewrite Hnone in Hr.
    set (start := mkProgram (lines p0) (Some []) _) in Hr.
    destruct (_process (mkOptions true false false) start) as [ws1 [[p1 i1]|e1]] eqn:Hq;
      [discriminate Hr|].
    simpl in Hr. inversion Hr; subst.
    apply (_process_error _ start _ _ _ (Program_parse_lines _ _ _ _ Hp1) Hq).
Qed.

Lemma assemble_error_names_line_witness :
  assemble "ADD R0 1000 0000" false
  = ([], Throw (FailedToEmit 1 "ADD R0 1000 0000" (DataTooWide (num_of_Z 128))))
  /\ exists n l,
       namesLine (FailedToEmit 1 "ADD R0 1000 0000" (DataTooWide (num_of_Z 128))) n l
       /\ (1 <= n)%nat
       /\ nth_error (rawLines "ADD R0 1000 0000") (n - 1) = Some l.
Proof.
  split; [vm_compute; reflexivity|].
  apply (assemble_error_names_line "ADD R0 1000 0000" false []).
  vm_compute; reflexivity.
Defined.

(** ** Warnings *)

Section Warnings.

Lemma validateArgs_sink (sink sink' : bool) (o : Operation) (s : Statement) (u : bool)
    (i : nat) :
  snd (validateArgs sink o s u i) = snd (validateArgs sink' o s u i)
  /\ fst (validateArgs false o s u i) = [].
Proof.
  unfold validateArgs.
  destruct (reg o), (s_reg s), (data o), (s_data s); simpl; auto;
    destruct (negb (jumpLabelTruthy s) && negb u); auto.
Qed.

Lemma processLine_sink (r v sink sink' : bool) (i : nat) (l : Line) (w : Walk) :
  snd (processLine (mkOptions r v sink) i l w) = snd (processLine (mkOptions r v sink') i l w)
  /\ fst (processLine (mkOptions r v false) i l w) = [].
Proof.
  unfold processLine. destruct (item l) as [[s|name|a]|]; [|auto..].
  unfold processStatement. simpl.
  destruct (resolveJumpLabel (mkOptions r v sink) (w_labels w) s) as [s1|e] eqn:Hr.
  - assert (Hr' : forall b, resolveJumpLabel (mkOptions r v b) (w_labels w) s = Ok s1).
    { intros b. rewrite <- Hr. reflexivity. }
    rewrite (Hr' sink'), (Hr' false).
    destruct (map_get (w_ops w) (JS.toUpperCase (s_op s1))) as [o|]; [|auto].
    destruct v; [|auto].
    destruct (validateArgs_sink sink sink' o s1 (unreachable w) i) as [H1 _].
    destruct (validateArgs_sink sink sink' o s1 (unreachable w) i) as [_ H2].
    destruct (validateArgs sink o s1 (unreachable w) i) as [wa ra].
    destruct (validateArgs sink' o s1 (unreachable w) i) as [wb rb].
    destruct (validateArgs false o s1 (unreachable w) i) as [wc rc].
    simpl in *. subst. auto.
  - assert (Hr' : forall b, resolveJumpLabel (mkOptions r v b) (w_labels w) s = Throw e).
    { intros b. rewrite <- Hr. reflexivity. }
    rewrite (Hr' sink'), (Hr' false). auto.
Qed.

Lemma processFrom_sink (r v sink sink' : bool) (ls : list Line) :
  forall i w,
    snd (processFrom (mkOptions r v sink) i ls w)
    = snd (processFrom (mkOptions r v sink') i ls w)
    /\ fst (processFrom (mkOptions r v false) i ls w) = [].
Proof.
  induction ls as [|l rest IH]; intros i w; simpl; [auto|].
  destruct (processLine_sink r v sink sink' i l w) as [H1 _].
  destruct (processLine_sink r v false false i l w) as [_ H2].
  destruct (processLine (mkOptions r v sink) i l w) as [wa ra].
  destruct (processLine (mkOptions r v sink') i l w) as [wb rb].
  destruct (processLine (mkOptions r v false) i l w) as [wc rc].
  simpl in *. subst rb wc.
  destruct ra as [[l1 w1]|e].
  - destruct (IH (S i) w1) as [H3 _].
    destruct (processFrom (mkOptions r v sink) (S i) rest w1) as [wd rd].
    destruct (processFrom (mkOptions r v sink') (S i) rest w1) as [we re].
    simpl in *. subst re. split; [reflexivity|].
    destruct rc as [[l2 w2]|e2]; [|reflexivity].
    destruct (IH (S i) w2) as [_ H4].
    destruct (processFrom (mkOptions r v false) (S i) rest w2) as [wf rf].
    simpl in *. subst wf. reflexivity.
  - split; [reflexivity|]. destruct rc as [[l2 w2]|e2]; [|reflexivity].
    destruct (IH (S i) w2) as [_ H4].
    destruct (processFrom (mkOptions r v false) (S i) rest w2) as [wf rf].
    simpl in *. subst wf. reflexivity.
Qed.

(** The warnings of a line: none, or one for a statement that carries a
    literal address. *)
Lemma processLine_warning (options : ProgramProcessOptions) (i : nat) (l : Line)
    (w : Walk) :
  fst (processLine options i l w) = []
  \/ exists s d,
       fst (processLine options i l w) = [BranchingToHardCodedAddress d i]
       /\ item l = Some (statement s) /\ s_data s = Some d /\ jumpLabelTruthy s = false.
Proof.
  unfold processLine. destruct (item l) as [[s|name|a]|]; [|auto..].
  unfold processStatement.
  destruct (resolveJumpLabel options (w_labels w) s) as [s1|e] eqn:Hr; [|auto].
  destruct (map_get (w_ops w) (JS.toUpperCase (s_op s1))) as [o|]; [|auto].
  destruct (validateInstructionArgs options) eqn:Hv; [|auto].
  unfold validateArgs.
  destruct (match reg o with
            | always => match s_reg s1 with None => Throw MustSpecifyRegister | Some _ => Ok tt end
            | never => match s_reg s1 with
                       | Some r => Throw (CantSpecifyRegister (Reg_name r))
                       | None => Ok tt
                       end
            | optional => Ok tt
            end); [|auto].
  destruct (data o); [|destruct (s_data s1); auto|auto].
  destruct (s_data s1) as [d|] eqn:Hd; [|auto].
  destruct (negb (jumpLabelTruthy s1) && negb (unreachable w)) eqn:Hj; [|auto].
  destruct (emitWarning options); [|auto].
  right. apply andb_true_iff in Hj. destruct Hj as [Hj _]. apply negb_true_iff in Hj.
  assert (Hs : s1 = s).
  { unfold resolveJumpLabel in Hr. unfold jumpLabelTruthy in Hj.
    destruct (s_jumpLabel s) as [j|] eqn:Hjl; [|inversion Hr; reflexivity].
    destruct (JS.truthy j) eqn:Ht; [|inversion Hr; reflexivity].
    destruct (match w_labels w with Some m => map_get m j | None => None end).
    - inversion Hr; subst. simpl in Hj. congruence.
    - rewrite Hv in Hr. discriminate Hr. }
  subst s1. exists s, d. simpl. auto.
Qed.

Lemma processFrom_warnings (options : ProgramProcessOptions) (ls : list Line) :
  forall i w,
    Forall (fun wa =>
              exists l s,
                nth_error ls (warningLine wa - i) = Some l
                /\ (i <= warningLine wa)%nat
                /\ item l = Some (statement s)
                /\ s_data s = Some (warningAddress wa)
                /\ jumpLabelTruthy s = false)
           (fst (processFrom options i ls w))
    /\ StronglySorted lt (map warningLine (fst (processFrom options i ls w))).
Proof.
  induction ls as [|l rest IH]; intros i w; simpl.
  - split; constructor.
  - pose proof (processLine_warning options i l w) as Hw.
    destruct (processLine options i l w) as [ws1 [[l1 w1]|e]]; simpl in Hw.
    + specialize (IH (S i) w1).
      destruct (processFrom options (S i) rest w1) as [ws2 r2]. simpl in *.
      destruct IH as [IH1 IH2].
      assert (Hrest : Forall (fun wa =>
                exists l0 s,
                  nth_error (l :: rest) (warningLine wa - i) = Some l0
                  /\ (i <= warningLine wa)%nat
                  /\ item l0 = Some (statement s)
                  /\ s_data s = Some (warningAddress wa)
                  /\ jumpLabelTruthy s = false) ws2).
      { eapply Forall_impl; [|exact IH1].
        intros wa (l0 & s & Hn & Hi & Hrest). exists l0, s.
        split; [|split; [lia | exact Hrest]].
        replace (warningLine wa - i)%nat with (S (warningLine wa - S i)) by lia.
        exact Hn. }
      destruct Hw as [->|(s & d & -> & Hitem & Hd & Hj)]; simpl.
      * split; assumption.
      * split.
        -- constructor; [|exact Hrest]. exists l, s. simpl.
           rewrite Nat.sub_diag. simpl. auto.
        -- constructor; [exact IH2|].
           apply Forall_map. eapply Forall_impl; [|exact IH1].
           intros wa (_ & _ & _ & Hi & _). simpl. lia.
    + destruct Hw as [->|(s & d & -> & Hitem & Hd & Hj)]; simpl.
      * split; constructor.
      * split; [|repeat constructor].
        constructor; [|constructor]. exists l, s. simpl.
        rewrite Nat.sub_diag. simpl. auto.
Qed.

End Warnings.

(** X3: warnings are advisory: whether a sink is there or not, [assemble]
    returns the same image or throws the same error; and without a sink no
    warning is handed over. *)
Theorem warnings_do_not_change_the_result (content : string) :
  snd (assemble content false) = snd (assemble content true)
  /\ fst (assemble content false) = [].
Proof.
  unfold assemble. destruct (assembleResolved content) as [prog|e]; [|auto].
  unfold emit. destruct (labels prog) eqn:Hl; [|auto]. unfold _process.
  set (w0 := mkWalk (labels prog) (ops prog) [] false).
  destruct (processFrom_sink false true false true (lines prog) 0 w0) as [H1 H2].
  destruct (processFrom (mkOptions false true false) 0 (lines prog) w0) as [wa ra].
  destruct (processFrom (mkOptions false true true) 0 (lines prog) w0) as [wb rb].
  simpl in *. subst. auto.
Qed.

(** X4: every warning of [assemble] belongs to a statement with a literal
    address: its line index, counted from zero, is that of a line of the
    source whose item is a statement without jump label, and its address is
    the data of that statement.  The warnings come in the order of the
    lines, at most one for a line. *)
Theorem warnings_point_at_literal_addresses (content : string) (sink : bool) :
  (forall wa,
      In wa (fst (assemble content sink)) ->
      exists prog l s,
        assembleResolved content = Ok prog
        /\ nth_error (lines prog) (warningLine wa) = Some l
        /\ nth_error (rawLines content) (warningLine wa) = Some (line l)
        /\ item l = Some (statement s)
        /\ s_data s = Some (warningAddress wa)
        /\ jumpLabelTruthy s = false)
  /\ StronglySorted lt (map warningLine (fst (assemble content sink))).
Proof.
  unfold assemble. destruct (assembleResolved content) as [prog|e] eqn:Hr.
  2:{ simpl. split; [intros wa []|constructor]. }
  assert (Hlines : map line (lines prog) = rawLines content).
  { unfold assembleResolved in Hr.
    destruct (Program_parse 0 content onlyAttributes) as [a0|]; [|discriminate Hr].
    destruct (loadDefinedOps _) as [a1|]; [|discriminate Hr].
    destruct (Program_parse 1 content _) as [p0|] eqn:Hp; [|discriminate Hr].
    pose proof (Program_parse_lines _ _ _ _ Hp) as Hl.
    pose proof (Program_parse_clean _ _ _ _ Hp) as [_ Hnone].
    unfold Program_resolveLabels in Hr. simpl in Hr. rewrite Hnone in Hr.
    set (start := mkProgram (lines p0) (Some []) _) in Hr.
    destruct (_process (mkOptions true false false) start) as [ws1 [[p1 i1]|e1]] eqn:Hq;
      [|discriminate Hr].
    simpl in Hr. inversion Hr; subst.
    rewrite (sameButData_lines _ _ (_process_lines _ start _ _ _ Hq)). exact Hl. }
  unfold emit.
  destruct (labels prog) as [m|] eqn:Hm; [|simpl; split; [intros wa []|constructor]].
  unfold _process.
  set (w0 := mkWalk (labels prog) (ops prog) [] false).
  destruct (processFrom_warnings (mkOptions false true sink) (lines prog) 0 w0) as [H1 H2].
  destruct (processFrom (mkOptions false true sink) 0 (lines prog) w0) as [ws r].
  simpl in *. split; [|exact H2].
  intros wa Hin. rewrite Forall_forall in H1.
  destruct (H1 wa Hin) as (l & s & Hn & _ & Hrest).
  rewrite Nat.sub_0_r in Hn. exists prog, l, s.
  split; [reflexivity|]. split; [exact Hn|]. split; [|exact Hrest].
  rewrite <- Hlines, nth_error_map, Hn. reflexivity.
Qed.

(** ** The directive pass and blank lines *)

Section Directives.

Lemma parseItem_onlyAttributes (a : Alloc) (text : string) :
  match parseItem a text onlyAttributes with
  | Ok None => True
  | Ok (Some (attribute _)) => JS.startsWith text "@" = true
  | Ok (Some _) => False
  | Throw _ => JS.startsWith text "@" = true
  end.
Proof.
  unfold parseItem. destruct (JS.startsWith text "@") eqn:Hat.
  - change (canParse onlyAttributes TAttribute) with true. cbv iota.
    destruct (JS.startsWith text "@define").
    + destruct (Operation_parse a _); simpl; auto.
    + destruct (String.eqb _ _); simpl; auto.
  - destruct (JS.startsWith text ":").
    + change (canParse onlyAttributes TLabel) with false. exact I.
    + change (canParse onlyAttributes TStatement) with false.
      rewrite andb_false_r. exact I.
Qed.

Lemma Line_parse_onlyAttributes (a : Alloc) (l : string) :
  match Line_parse a l onlyAttributes with
  | Ok parsed => isDirectiveOrNothing parsed = true
  | Throw _ => JS.startsWith (codeText l) "@" = true
  end.
Proof.
  unfold Line_parse, codeText. destruct (splitComments l) as [[sc c] text].
  cbn [snd]. pose proof (parseItem_onlyAttributes a (JS.trim text)) as H.
  destruct (parseItem a (JS.trim text) onlyAttributes) as [[[s|n|at']|]|e];
    simpl; auto; contradiction.
Qed.

Lemma parseLines_onlyAttributes (parse : nat) (ls : list string) :
  forall ix,
    match parseLines parse ix ls onlyAttributes with
    | Ok parsed => forallb isDirectiveOrNothing parsed = true
    | Throw e =>
        exists k l cause,
          nth_error ls k = Some l /\ e = SyntaxErrorAt (ix + k + 1) l cause
          /\ JS.startsWith (codeText l) "@" = true
    end.
Proof.
  induction ls as [|l rest IH]; intros ix; simpl; [reflexivity|].
  pose proof (Line_parse_onlyAttributes (Defined parse ix) l) as Hl.
  destruct (Line_parse (Defined parse ix) l onlyAttributes) as [parsed|cause].
  - specialize (IH (S ix)).
    destruct (parseLines parse (S ix) rest onlyAttributes) as [more|e]; simpl.
    + rewrite Hl. exact IH.
    + destruct IH as (k & l0 & cause & Hn & He & Hat).
      exists (S k), l0, cause. split; [exact Hn|]. split; [|exact Hat].
      rewrite He. f_equal. lia.
  - exists 0%nat, l, cause. split; [reflexivity|]. split; [|exact Hl].
    f_equal. lia.
Qed.

Lemma processLine_directive (options : ProgramProcessOptions) (i : nat) (l : Line)
    (w : Walk) :
  isDirectiveOrNothing l = true ->
  exists w', processLine options i l w = ([], Ok (l, w'))
             /\ instructions w' = instructions w /\ w_labels w' = w_labels w
             /\ unreachable w' = unreachable w.
Proof.
  unfold isDirectiveOrNothing, processLine. destruct (item l) as [[s|n|a]|]; intros H;
    try discriminate H.
  - exists (processAttribute a w). auto.
  - exists w. auto.
Qed.

Lemma processFrom_directives (options : ProgramProcessOptions) (ls : list Line) :
  forall i w,
    forallb isDirectiveOrNothing ls = true ->
    exists w', processFrom options i ls w = ([], Ok (ls, w'))
               /\ instructions w' = instructions w /\ w_labels w' = w_labels w
               /\ unreachable w' = unreachable w.
Proof.
  induction ls as [|l rest IH]; intros i w H; simpl.
  - exists w. auto.
  - simpl in H. apply andb_true_iff in H. destruct H as [Hl Hrest].
    destruct (processLine_directive options i l w Hl) as (w1 & -> & Hi & Hm & Hu).
    destruct (IH (S i) w1 Hrest) as (w2 & -> & Hi2 & Hm2 & Hu2).
    exists w2. simpl. repeat split; congruence.
Qed.

Lemma processFrom_nothing (options : ProgramProcessOptions) (ls : list Line) :
  forall i w,
    Forall (fun l => item l = None) ls -> processFrom options i ls w = ([], Ok (ls, w)).
Proof.
  induction ls as [|l rest IH]; intros i w H; simpl; [reflexivity|].
  inversion H as [|? ? Hl Hrest]; subst.
  unfold processLine. rewrite Hl. rewrite (IH (S i) w Hrest). reflexivity.
Qed.

Lemma Line_parse_blank (a : Alloc) (l : string) (options : ParseOptions) :
  codeText l = EmptyString ->
  exists parsed, Line_parse a l options = Ok parsed /\ item parsed = None.
Proof.
  unfold Line_parse, codeText. destruct (splitComments l) as [[sc c] text].
  cbn [snd]. intros ->. eexists. split; reflexivity.
Qed.

Lemma parseLines_blank (parse : nat) (options : ParseOptions) (ls : list string) :
  forall ix,
    Forall (fun l => codeText l = EmptyString) ls ->
    exists parsed, parseLines parse ix ls options = Ok parsed
                   /\ Forall (fun l => item l = None) parsed.
Proof.
  induction ls as [|l rest IH]; intros ix H; simpl.
  - exists []. split; [reflexivity|constructor].
  - inversion H as [|? ? Hl Hrest]; subst.
    destruct (Line_parse_blank (Defined parse ix) l options Hl) as (p & -> & Hp).
    destruct (IH (S ix) Hrest) as (more & -> & Hmore).
    exists (p :: more). split; [reflexivity|]. constructor; assumption.
Qed.

Lemma _process_nothing (options : ProgramProcessOptions) (p : Program) :
  Forall (fun l => item l = None) (lines p) ->
  _process options p = ([], Ok (mkProgram (lines p) (labels p) (ops p), [])).
Proof.
  intros H. unfold _process. rewrite (processFrom_nothing options _ 0 _ H). reflexivity.
Qed.

End Directives.

(** X5: the directive pass of [assemble] reads the directives only: it
    fails on no other line than one whose text starts with [@], and then
    with a syntax error that names that line; when it returns, it has kept
    every line of the source, with no item or with its attribute, made no
    label map, emitted no instruction and no warning. *)
Theorem directive_pass_reads_directives_only (content : string) :
  match directivePass content with
  | Throw e =>
      exists n l cause,
        e = SyntaxErrorAt n l cause /\ (1 <= n)%nat
        /\ nth_error (rawLines content) (n - 1) = Some l
        /\ JS.startsWith (codeText l) "@" = true
  | Ok p =>
      exists attributes,
        Program_parse 0 content onlyAttributes = Ok attributes
        /\ _process (mkOptions false false false) (setOps attributes defaultOps)
           = ([], Ok (p, []))
        /\ map line (lines p) = rawLines content
        /\ forallb isDirectiveOrNothing (lines p) = true
        /\ labels p = None
  end.
Proof.
  unfold directivePass.
  destruct (Program_parse 0 content onlyAttributes) as [attributes|e] eqn:Hp.
  - pose proof (Program_parse_lines _ _ _ _ Hp) as Hlines.
    unfold Program_parse in Hp.
    pose proof (parseLines_onlyAttributes 0 (JS.split "010" (JS.removeAll "013" content)) 0)
      as Hd.
    destruct (parseLines 0 0 _ onlyAttributes) as [ls|]; [|discriminate Hp].
    simpl in Hp. inversion Hp; subst attributes. clear Hp.
    unfold loadDefinedOps, _process.
    destruct (processFrom_directives (mkOptions false false false) ls 0
                (mkWalk None (ops (setOps (mkProgram ls None []) defaultOps)) [] false) Hd)
      as (w' & Hw & Hi & Hm & _).
    change (lines (setOps (mkProgram ls None []) defaultOps)) with ls.
    change (labels (setOps (mkProgram ls None []) defaultOps)) with (@None (JSMap nat)).
    rewrite Hw. cbn [snd fst]. simpl in Hi, Hm.
    exists (mkProgram ls None []). split; [reflexivity|].
    split.
    { change (lines (setOps (mkProgram ls None []) defaultOps)) with ls.
      change (labels (setOps (mkProgram ls None []) defaultOps)) with (@None (JSMap nat)).
      rewrite Hw. cbn [snd fst]. rewrite Hi. reflexivity. }
    split; [exact Hlines|]. split; [exact Hd|exact Hm].
  - unfold Program_parse in Hp. fold (rawLines content) in Hp.
    pose proof (parseLines_onlyAttributes 0 (rawLines content) 0) as Hd.
    destruct (parseLines 0 0 (rawLines content) onlyAttributes) as [ls|e0];
      [discriminate Hp|].
    inversion Hp; subst e0.
    destruct Hd as (k & l & cause & Hn & He & Hat).
    exists (k + 1)%nat, l, cause. split; [exact He|]. split; [lia|].
    split; [|exact Hat]. replace (k + 1 - 1)%nat with k by lia. exact Hn.
Qed.

(** X6: a source of which every line is blank or holds comments only, the
    empty source among them, assembles to 64 filler lines, with no
    warning. *)
Theorem blank_program_gives_fillers (content : string) (sink : bool) :
  blank content = true ->
  assemble content sink = ([], Ok (unlines (repeat filler 64))).
Proof.
  intros Hb.
  assert (Hall : Forall (fun l => codeText l = EmptyString) (rawLines content)).
  { unfold blank in Hb. rewrite forallb_forall in Hb. apply Forall_forall.
    intros l Hin. specialize (Hb l Hin). destruct (codeText l); [reflexivity|].
    discriminate Hb. }
  unfold assemble, assembleResolved, Program_parse. fold (rawLines content).
  destruct (parseLines_blank 0 onlyAttributes (rawLines content) 0 Hall) as (ls0 & -> & H0).
  unfold loadDefinedOps.
  rewrite (_process_nothing (mkOptions false false false)
             (setOps (mkProgram ls0 None []) defaultOps) H0).
  cbn [snd fst].
  set (supported := map_values _).
  destruct (parseLines_blank 1 (mkParseOptions (Some supported) None None)
              (rawLines content) 0 Hall) as (ls1 & -> & H1).
  unfold Program_resolveLabels.
  change (labels (setOps (mkProgram ls1 None []) supported)) with (@None (JSMap nat)).
  set (start := mkProgram _ (Some []) _).
  rewrite (_process_nothing (mkOptions true false false) start H1).
  cbn [snd fst]. unfold emit. cbn [labels start].
  match goal with
  | |- context [_process ?o ?p] => rewrite (_process_nothing o p H1)
  end.
  reflexivity.
Qed.

Lemma blank_program_gives_fillers_witness :
  blank "// nothing here

# nor here" = true
  /\ assemble "// nothing here

# nor here" true = ([], Ok (unlines (repeat filler 64))).
Proof.
  split; [reflexivity|].
  apply (blank_program_gives_fillers _ true). reflexivity.
Defined.

(** ** Labels *)

Section Labels.

Lemma startsWith_at_not_colon (text : string) :
  JS.startsWith text "@" = true -> JS.startsWith text ":" = false.
Proof.
  unfold JS.startsWith. destruct text as [|c t]; [intros H; discriminate H|].
  cbn [String.prefix].
  destruct (Ascii.ascii_dec "@" c) as [<-|]; [|intros H; discriminate H].
  intros _. reflexivity.
Qed.

(** What [Line.parse] makes of a text when every item type is parsed. *)
Lemma parseItem_kinds (a : Alloc) (text : string) (options : ParseOptions)
    (it : option Item) :
  parseItemTypes options = None -> parseItem a text options = Ok it ->
  match it with Some (label n) => [n] | _ => [] end
  = (if JS.startsWith text ":" then [JS.sliceFrom 1 text] else [])
  /\ match it with Some (attribute _) => true | _ => false end = JS.startsWith text "@".
Proof.
  intros Hall. unfold parseItem, canParse. rewrite Hall.
  destruct (JS.startsWith text "@") eqn:Hat.
  - rewrite (startsWith_at_not_colon text Hat).
    destruct (JS.startsWith text "@define").
    + destruct (Operation_parse a _); intros H; inversion H; subst. auto.
    + destruct (String.eqb _ _); intros H; inversion H; subst. auto.
  - destruct (JS.startsWith text ":").
    + destruct (JS.includes _ _); intros H; inversion H; subst. auto.
    + destruct (JS.truthy text && true).
      * destruct (parseStatement text options); intros H; inversion H; subst. auto.
      * intros H; inversion H; subst. auto.
Qed.

Lemma parseLines_kinds (parse : nat) (options : ParseOptions) (ls : list string) :
  parseItemTypes options = None ->
  forall ix parsed,
    parseLines parse ix ls options = Ok parsed ->
    labelNames parsed
    = flat_map (fun l => if JS.startsWith (codeText l) ":"
                         then [JS.sliceFrom 1 (codeText l)] else []) ls
    /\ forallb (fun l => negb (isAttributeLine l)) parsed
       = forallb (fun l => negb (JS.startsWith (codeText l) "@")) ls.
Proof.
  intros Hall. induction ls as [|l rest IH]; intros ix parsed H; simpl in H.
  - inversion H; subst. auto.
  - destruct (Line_parse (Defined parse ix) l options) as [p|] eqn:Hl; [|discriminate H].
    destruct (parseLines parse (S ix) rest options) as [more|] eqn:Hm; [|discriminate H].
    inversion H; subst parsed. destruct (IH _ _ Hm) as [IH1 IH2].
    unfold Line_parse in Hl. unfold labelNames, isAttributeLine, codeText in *.
    cbn [flat_map forallb].
    destruct (splitComments l) as [[sc c] text]. cbn [snd] in *.
    destruct (parseItem (Defined parse ix) (JS.trim text) options) as [it|] eqn:Hit;
      [|discriminate Hl].
    inversion Hl; subst p. destruct (parseItem_kinds _ _ _ _ Hall Hit) as [K1 K2].
    simpl. split; [rewrite IH1, K1; reflexivity|rewrite IH2, K2; reflexivity].
Qed.

Lemma sameButData_kinds (table : JSMap Operation) (ls ls' : list Line) :
  Forall2 sameButData ls ls' ->
  labelNames ls' = labelNames ls
  /\ map isAttributeLine ls' = map isAttributeLine ls
  /\ map (wordsOf table) ls' = map (wordsOf table) ls.
Proof.
  induction 1 as [|l l' ls ls' Hl _ IH]; [auto|].
  destruct IH as (I1 & I2 & I3). unfold labelNames in *. simpl.
  rewrite I1, I2, I3. destruct Hl as (_ & _ & _ & _ & Hitem).
  unfold isAttributeLine, wordsOf.
  destruct (item l) as [[s|n|a]|]; destruct (item l') as [[s'|n'|a']|];
    try discriminate Hitem; try (inversion Hitem; subst); auto.
  destruct Hitem as (-> & _ & _). auto.
Qed.

Lemma map_get_None {V : Type} (m : JSMap V) (k : string) :
  map_get m k = None <-> ~ In k (map_keys m).
Proof.
  induction m as [|[k' v] m IH]; simpl.
  - split; auto.
  - destruct (String.eqb k' k) eqn:E.
    + apply String.eqb_eq in E. split; [intros H; discriminate H|].
      intros H. exfalso. apply H. left. exact E.
    + apply String.eqb_neq in E. rewrite IH. split.
      * intros H [H'|H']; [exact (E H')|exact (H H')].
      * intros H H'. apply H. right. exact H'.
Qed.

Lemma map_set_fresh {V : Type} (m : JSMap V) (k : string) (v : V) :
  map_get m k = None -> map_set m k v = (m ++ [(k, v)])%list.
Proof.
  induction m as [|[k' v'] m IH]; simpl; [reflexivity|].
  destruct (String.eqb k' k); [intros H; discriminate H|].
  intros H. rewrite (IH H). reflexivity.
Qed.

(** The walk of pass 1 appends the names of the label lines to the keys of
    the label map. *)
Lemma processLine_label_keys (options : ProgramProcessOptions) (i : nat) (l : Line)
    (w : Walk) (ws : list Warning) (l' : Line) (w' : Walk) (m : JSMap nat) :
  resolveLabels options = true -> w_labels w = Some m ->
  processLine options i l w = (ws, Ok (l', w')) ->
  exists m', w_labels w' = Some m'
             /\ map_keys m' = (map_keys m ++ labelNames [l])%list
             /\ (NoDup (map_keys m) -> NoDup (map_keys m')).
Proof.
  intros Hopt Hm. unfold processLine, labelNames. simpl.
  destruct (item l) as [[s|n|a]|] eqn:Hitem.
  - destruct (processStatement options i l s w) as [ws0 [[s' w0]|e]] eqn:Hs;
      intros H; inversion H; subst.
    destruct (processStatement_ok _ _ _ _ _ _ _ _ Hs) as (o & _ & _ & _ & ->).
    exists m. simpl. rewrite app_nil_r. auto.
  - unfold processLabel. rewrite Hopt. simpl. rewrite Hm. unfold map_has.
    destruct (map_get m n) eqn:Hg; intros H; inversion H; subst.
    exists (map_set m n (List.length (instructions w))). simpl.
    rewrite (map_set_fresh _ _ _ Hg). unfold map_keys. rewrite map_app. simpl.
    split; [reflexivity|]. split; [reflexivity|].
    intros Hnd. apply NoDup_app; [exact Hnd|repeat constructor; intros []|].
    intros x Hx [<-|[]]. apply map_get_None in Hg. exact (Hg Hx).
  - intros H; inversion H; subst. exists m. simpl. rewrite app_nil_r. auto.
  - intros H; inversion H; subst. exists m. simpl. rewrite app_nil_r. auto.
Qed.

Lemma processFrom_label_keys (options : ProgramProcessOptions) (ls : list Line) :
  resolveLabels options = true ->
  forall i w ws ls' w' m,
    w_labels w = Some m ->
    processFrom options i ls w = (ws, Ok (ls', w')) ->
    exists m', w_labels w' = Some m'
               /\ map_keys m' = (map_keys m ++ labelNames ls)%list
               /\ (NoDup (map_keys m) -> NoDup (map_keys m')).
Proof.
  intros Hopt. induction ls as [|l rest IH]; intros i w ws ls' w' m Hm H; simpl in H.
  - inversion H; subst. exists m. unfold labelNames. simpl. rewrite app_nil_r. auto.
  - destruct (processLine options i l w) as [ws1 [[l1 w1]|e]] eqn:Hl; [|inversion H].
    destruct (processFrom options (S i) rest w1) as [ws2 [[ls2 w2]|e]] eqn:Hr;
      inversion H; subst.
    destruct (processLine_label_keys _ _ _ _ _ _ _ _ Hopt Hm Hl) as (m1 & Hm1 & K1 & N1).
    destruct (IH _ _ _ _ _ _ Hm1 Hr) as (m2 & Hm2 & K2 & N2).
    exists m2. split; [exact Hm2|]. split.
    + rewrite K2, K1. unfold labelNames. simpl. rewrite !app_nil_r, <- app_assoc.
      reflexivity.
    + auto.
Qed.


Lemma _process_inv (options : ProgramProcessOptions) (p p' : Program) (ws : list Warning)
    (insts : list Instruction) :
  _process options p = (ws, Ok (p', insts)) ->
  exists ls' w',
    processFrom options 0 (lines p) (mkWalk (labels p) (ops p) [] false) = (ws, Ok (ls', w'))
    /\ p' = mkProgram ls' (w_labels w') (w_ops w') /\ insts = instructions w'.
Proof.
  unfold _process.
  destruct (processFrom options 0 (lines p) _) as [ws0 [[ls' w']|e]]; intros H;
    inversion H; subst.
  exists ls', w'. auto.
Qed.

(** The steps of the head of [assemble]. *)
Lemma assembleResolved_inv (content : string) (prog : Program) :
  assembleResolved content = Ok prog ->
  exists attributes p0 ws insts,
    directivePass content = Ok attributes
    /\ Program_parse 1 content
         (mkParseOptions (Some (map_values (ops attributes))) None None) = Ok p0
    /\ _process (mkOptions true false false)
         (mkProgram (lines p0) (Some [])
            (ops (setOps p0 (map_values (ops attributes)))))
       = (ws, Ok (prog, insts)).
Proof.
  unfold assembleResolved, directivePass.
  destruct (Program_parse 0 content onlyAttributes) as [a0|]; [|intros H; discriminate H].
  destruct (loadDefinedOps _) as [a1|]; [|intros H; discriminate H].
  destruct (Program_parse 1 content _) as [p0|] eqn:Hp; [|intros H; discriminate H].
  pose proof (Program_parse_clean _ _ _ _ Hp) as [_ Hnone].
  unfold Program_resolveLabels.
  change (labels (setOps p0 (map_values (ops a1)))) with (labels p0). rewrite Hnone.
  change (lines (setOps p0 (map_values (ops a1)))) with (lines p0).
  set (start := mkProgram (lines p0) (Some []) _).
  destruct (_process (mkOptions true false false) start) as [ws [[p1 i1]|e]] eqn:Hq;
    intros H; [|discriminate H].
  simpl in H. inversion H; subst p1.
  exists a1, p0, ws, i1. auto.
Qed.

Lemma processFrom_throws_by (options : ProgramProcessOptions)
    (Hopt : resolveLabels options = false) (ls : list Line) :
  forall i w k l e0,
    nth_error ls k = Some l ->
    (forall w0, w_labels w0 = w_labels w ->
                processLine options (i + k) l w0 = ([], Throw e0)) ->
    exists ws n c e,
      processFrom options i ls w = (ws, Throw (FailedToEmit n c e))
      /\ (n <= i + k + 1)%nat
      /\ (n = (i + k + 1)%nat -> e = e0 /\ c = line l).
Proof.
  induction ls as [|l0 rest IH]; intros i w k l e0 Hn Hl.
  - destruct k; discriminate Hn.
  - destruct k as [|k]; simpl in Hn.
    + inversion Hn; subst l0. simpl. rewrite Nat.add_0_r in Hl.
      rewrite (Hl w eq_refl).
      exists [], (i + 1)%nat, (line l), e0. split; [reflexivity|]. split; [lia|auto].
    + simpl. destruct (processLine options i l0 w) as [ws1 [[l1 w1]|e1]] eqn:H1.
      * destruct (processLine_labels_constant options (w_labels w) Hopt _ _ _ _ _ _ I
                    eq_refl H1) as [Hsame _].
        destruct (IH (S i) w1 k l e0 Hn) as (ws2 & n & c & e & Hr & Hle & Hlast).
        { intros w0 Hw0. replace (S i + k)%nat with (i + S k)%nat by lia.
          apply Hl. congruence. }
        rewrite Hr. exists (ws1 ++ ws2)%list, n, c, e.
        split; [reflexivity|]. split; [lia|].
        intros Heq. apply Hlast. lia.
      * exists ws1, (i + 1)%nat, (line l0), e1. split; [reflexivity|]. split; [lia|].
        intros Heq. lia.
Qed.

Lemma Forall2_nth_error_r {A B : Type} (R : A -> B -> Prop) (xs : list A) (ys : list B) :
  Forall2 R xs ys ->
  forall k y, nth_error ys k = Some y -> exists x, nth_error xs k = Some x /\ R x y.
Proof.
  induction 1 as [|x y0 xs ys Hxy _ IH]; intros k y Hk.
  - destruct k; discriminate Hk.
  - destruct k as [|k]; simpl in *.
    + inversion Hk; subst. exists x. auto.
    + apply IH. exact Hk.
Qed.

Lemma Forall2_firstn {A B : Type} (R : A -> B -> Prop) (xs : list A) (ys : list B) :
  Forall2 R xs ys -> forall k, Forall2 R (firstn k xs) (firstn k ys).
Proof.
  induction 1 as [|x y xs ys Hxy _ IH]; intros k.
  - rewrite !firstn_nil. constructor.
  - destruct k; simpl; constructor; auto.
Qed.

(** A walk over lines without directives leaves the table as it is and
    emits, for every statement, the words of its operation. *)
Lemma processLine_count (options : ProgramProcessOptions) (i : nat) (l : Line) (w : Walk)
    (ws : list Warning) (l' : Line) (w' : Walk) :
  isAttributeLine l = false -> processLine options i l w = (ws, Ok (l', w')) ->
  w_ops w' = w_ops w
  /\ List.length (instructions w')
     = (List.length (instructions w) + wordsOf (w_ops w) l)%nat.
Proof.
  unfold isAttributeLine, processLine, wordsOf.
  destruct (item l) as [[s|n|a]|] eqn:Hitem; intros Ha; try discriminate Ha.
  - destruct (processStatement options i l s w) as [ws0 [[s' w0]|e]] eqn:Hs;
      intros H; inversion H; subst.
    destruct (processStatement_ok _ _ _ _ _ _ _ _ Hs) as (o & Hr & Hg & _ & ->).
    destruct (resolveJumpLabel_keeps _ _ _ _ Hr) as (Hop & _ & _).
    rewrite <- Hop, Hg. simpl. rewrite length_app, length_map. auto.
  - unfold processLabel.
    destruct (negb (resolveLabels options)).
    + intros H; inversion H; subst. simpl. auto.
    + simpl. destruct (w_labels w) as [m|].
      * destruct (map_has m n); intros H; inversion H; subst. simpl. auto.
      * intros H; inversion H; subst. simpl. auto.
  - intros H; inversion H; subst. auto.
Qed.

Lemma processFrom_count (options : ProgramProcessOptions) (ls : list Line) :
  forall i w ws ls' w',
    forallb (fun l => negb (isAttributeLine l)) ls = true ->
    processFrom options i ls w = (ws, Ok (ls', w')) ->
    w_ops w' = w_ops w
    /\ List.length (instructions w')
       = (List.length (instructions w) + emittedBy (w_ops w) ls)%nat.
Proof.
  unfold emittedBy.
  induction ls as [|l rest IH]; intros i w ws ls' w' Ha H; simpl in H.
  - inversion H; subst. simpl. auto.
  - simpl in Ha. apply andb_true_iff in Ha. destruct Ha as [Hl Hrest].
    apply negb_true_iff in Hl.
    destruct (processLine options i l w) as [ws1 [[l1 w1]|e]] eqn:H1; [|inversion H].
    destruct (processFrom options (S i) rest w1) as [ws2 [[ls2 w2]|e]] eqn:H2;
      inversion H; subst.
    destruct (processLine_count _ _ _ _ _ _ _ Hl H1) as [O1 C1].
    destruct (IH _ _ _ _ _ Hrest H2) as [O2 C2].
    rewrite O1 in O2, C2. split; [exact O2|]. simpl. lia.
Qed.


Lemma parseLines_noDirectives (parse : nat) (ls : list string) :
  forall ix parsed,
    forallb (fun l => negb (JS.startsWith (codeText l) "@")) ls = true ->
    parseLines parse ix ls onlyAttributes = Ok parsed ->
    Forall (fun l => item l = None) parsed.
Proof.
  induction ls as [|l rest IH]; intros ix parsed Hno H; simpl in H.
  - inversion H; subst. constructor.
  - simpl in Hno. apply andb_true_iff in Hno. destruct Hno as [Hl Hrest].
    apply negb_true_iff in Hl.
    destruct (Line_parse (Defined parse ix) l onlyAttributes) as [p|] eqn:Hp;
      [|discriminate H].
    destruct (parseLines parse (S ix) rest onlyAttributes) as [more|] eqn:Hm;
      [|discriminate H].
    inversion H; subst parsed. constructor; [|exact (IH _ _ Hrest Hm)].
    unfold Line_parse in Hp. unfold codeText in Hl.
    destruct (splitComments l) as [[sc c] text]. cbn [snd] in Hl.
    pose proof (parseItem_onlyAttributes (Defined parse ix) (JS.trim text)) as Hk.
    destruct (parseItem (Defined parse ix) (JS.trim text) onlyAttributes)
      as [[[s|n|a]|]|e]; try discriminate Hp; try contradiction;
      try (rewrite Hl in Hk; discriminate Hk).
    inversion Hp; subst p. reflexivity.
Qed.

Lemma sameButData_directives (ls ls' : list Line) :
  Forall2 sameButData ls ls' ->
  forallb (fun l => negb (isAttributeLine l)) ls'
  = forallb (fun l => negb (isAttributeLine l)) ls.
Proof.
  intros H. destruct (sameButData_kinds [] _ _ H) as (_ & Hmap & _).
  clear H. revert ls' Hmap. induction ls as [|l ls IH]; intros [|l' ls'] Hmap;
    try discriminate Hmap; [reflexivity|].
  simpl in *. inversion Hmap as [[H1 H2]]. rewrite H1, (IH _ H2). reflexivity.
Qed.

Lemma forallb_firstn {A : Type} (f : A -> bool) (l : list A) :
  forallb f l = true -> forall k, forallb f (firstn k l) = true.
Proof.
  induction l as [|a l IH]; intros H k; [rewrite firstn_nil; reflexivity|].
  simpl in H. apply andb_true_iff in H. destruct H as [Ha Hl].
  destruct k; simpl; [reflexivity|]. rewrite Ha. exact (IH Hl k).
Qed.

(** The label map that pass 1 leaves. *)
Lemma assembleResolved_label_keys (content : string) (prog : Program) :
  assembleResolved content = Ok prog ->
  exists m, labels prog = Some m
            /\ map_keys m = sourceLabels content
            /\ labelNames (lines prog) = sourceLabels content
            /\ NoDup (sourceLabels content).
Proof.
  intros H.
  destruct (assembleResolved_inv _ _ H) as (attrs & p0 & ws & insts & _ & Hp & Hq).
  destruct (_process_inv _ _ _ _ _ Hq) as (ls' & w' & Hw & -> & _).
  cbn [lines labels ops] in Hw.
  destruct (processFrom_label_keys (mkOptions true false false) (lines p0) eq_refl 0
              (mkWalk (Some []) (ops (setOps p0 (map_values (ops attrs)))) [] false)
              ws ls' w' [] eq_refl Hw) as (m & Hm & K & N).
  unfold Program_parse in Hp. fold (rawLines content) in Hp.
  destruct (parseLines 1 0 (rawLines content) _) as [ls|] eqn:Hls; [|discriminate Hp].
  inversion Hp; subst p0. cbn [lines] in *.
  destruct (parseLines_kinds 1 (mkParseOptions (Some (map_values (ops attrs))) None None)
              (rawLines content) eq_refl 0 ls Hls) as [L1 _].
  destruct (sameButData_kinds [] _ _ (processFrom_sameButData _ _ _ _ _ _ _ Hw))
    as (S1 & _ & _).
  exists m. cbn [labels lines]. simpl in K. unfold sourceLabels.
  split; [exact Hm|]. split; [congruence|]. split; [congruence|].
  rewrite <- L1, <- K. apply N. constructor.
Qed.

End Labels.

(** X7: when the head of [assemble] returns, the keys of the label map are
    the names of the label lines of the source, in the order of the lines,
    and no name is there twice: a label line whose name is a key already
    makes the walk of pass 1 throw [Label defined twice]. *)
Theorem label_map_lists_the_label_lines (content : string) (prog : Program) :
  assembleResolved content = Ok prog ->
  (exists m, labels prog = Some m
             /\ map_keys m = sourceLabels content
             /\ labelNames (lines prog) = sourceLabels content
             /\ NoDup (sourceLabels content))
  /\ (forall (v s : bool) (i : nat) (l : Line) (rest : list Line) (w : Walk)
             (m : JSMap nat) (name : string),
         item l = Some (label name) -> w_labels w = Some m -> In name (map_keys m) ->
         processFrom (mkOptions true v s) i (l :: rest) w
         = ([], Throw (FailedToEmit (i + 1) (line l) (LabelDefinedTwice name)))).
Proof.
  intros H. split; [exact (assembleResolved_label_keys _ _ H)|].
  intros v s i l rest w m name Hitem Hm Hin. simpl. unfold processLine. rewrite Hitem.
  unfold processLabel. simpl. rewrite Hm. unfold map_has.
  destruct (map_get m name) eqn:Hg; [reflexivity|].
  apply map_get_None in Hg. contradiction.
Qed.

Lemma label_map_lists_the_label_lines_witness :
  assembleResolved exampleSource = Ok exampleResolved
  /\ exists m, labels exampleResolved = Some m
               /\ map_keys m = sourceLabels exampleSource
               /\ labelNames (lines exampleResolved) = sourceLabels exampleSource
               /\ NoDup (sourceLabels exampleSource).
Proof.
  split; [vm_compute; reflexivity|].
  apply (label_map_lists_the_label_lines exampleSource exampleResolved).
  vm_compute; reflexivity.
Defined.

(** X8: a statement that refers to a label that no line defines stops
    [assemble]: it throws at that line with [Label was never defined],
    unless an earlier line has made it throw. *)
Theorem undefined_label_stops_emit (content : string) (sink : bool) (prog : Program)
    (k : nat) (l : Line) (s : Statement) (j : string) :
  assembleResolved content = Ok prog ->
  nth_error (lines prog) k = Some l -> item l = Some (statement s) ->
  s_jumpLabel s = Some j -> JS.truthy j = true -> ~ In j (sourceLabels content) ->
  exists ws n c e,
    assemble content sink = (ws, Throw (FailedToEmit n c e))
    /\ (n <= k + 1)%nat
    /\ (n = (k + 1)%nat -> e = LabelNeverDefined j /\ c = line l).
Proof.
  intros H Hk Hitem Hj Ht Hnot.
  destruct (assembleResolved_label_keys _ _ H) as (m & Hm & K & _ & _).
  unfold assemble. rewrite H. unfold emit. rewrite Hm. unfold _process.
  destruct (processFrom_throws_by (mkOptions false true sink) eq_refl (lines prog) 0
              (mkWalk (labels prog) (ops prog) [] false) k l (LabelNeverDefined j) Hk)
    as (ws & n & c & e & Hr & Hle & Hlast).
  { intros w0 Hw0. cbn [w_labels] in Hw0. rewrite Hm in Hw0.
    unfold processLine. rewrite Hitem. unfold processStatement, resolveJumpLabel.
    rewrite Hj, Ht, Hw0.
    assert (Hg : map_get m j = None) by (apply map_get_None; rewrite K; exact Hnot).
    rewrite Hg. reflexivity. }
  rewrite Hr. exists ws, n, c, e. auto.
Qed.

Lemma undefined_label_stops_emit_witness :
  assembleResolved danglingSource = Ok danglingResolved
  /\ exists ws n c e,
       assemble danglingSource true = (ws, Throw (FailedToEmit n c e))
       /\ (n <= 0 + 1)%nat
       /\ (n = (0 + 1)%nat -> e = LabelNeverDefined "nowhere" /\ c = line danglingLine).
Proof.
  split; [vm_compute; reflexivity|].
  apply (undefined_label_stops_emit danglingSource true danglingResolved 0 danglingLine
           (mkStatement "B" None None (Some "nowhere")) "nowhere");
    try (vm_compute; reflexivity).
  vm_compute. intros H. exact H.
Defined.

(** X9: in a source without directives the table is the built-in one in
    both passes, and the index that pass 1 binds to a label is the address
    of the next instruction in the image: the number of words that the
    statements before the label line expand to, which is the number of
    instructions that the walk of [emit] has made when it gets there.
    With directives the passes may disagree: where [X] and [x] are both
    defined, a statement [X] before the definitions is counted with the
    two words of [x] in pass 1 and encoded with the one word of [X] by
    [emit], so the label after it is bound to 2 and stands at 1. *)
Theorem labels_are_instruction_addresses (content : string) (prog : Program) :
  noDirectives content = true -> assembleResolved content = Ok prog ->
  ops prog = initialOps
  /\ (forall k l name,
         nth_error (lines prog) k = Some l -> item l = Some (label name) ->
         exists m, labels prog = Some m
                   /\ map_get m name = Some (emittedBy initialOps (firstn k (lines prog))))
  /\ (forall sink k ws ls' w',
         processFrom (mkOptions false true sink) 0 (firstn k (lines prog))
           (mkWalk (labels prog) (ops prog) [] false) = (ws, Ok (ls', w')) ->
         List.length (instructions w') = emittedBy initialOps (firstn k (lines prog)))
  /\ (forall sink ws insts,
         assembleInstructions content sink = (ws, Ok insts) ->
         List.length insts = emittedBy initialOps (lines prog))
  /\ (noDirectives caseClashSource = false
      /\ assembleResolved caseClashSource = Ok caseClashResolved
      /\ labels caseClashResolved = Some [("lab", 2%nat)]
      /\ assembleInstructions caseClashSource true = ([], Ok caseClashInstructions)
      /\ map Instruction_toString caseClashInstructions
         = ["0200;(Assembly: X)"; "0602;(Assembly: B :lab)"]).
Proof.
  intros Hno H.
  destruct (assembleResolved_inv _ _ H) as (attrs & p0 & ws & insts & Hd & Hp & Hq).
  assert (Hattrs : ops attrs = initialOps).
  { unfold directivePass, Program_parse in Hd. fold (rawLines content) in Hd.
    destruct (parseLines 0 0 (rawLines content) onlyAttributes) as [ls|] eqn:Hls;
      [|discriminate Hd].
    pose proof (parseLines_noDirectives _ _ _ _ Hno Hls) as Hnone.
    unfold loadDefinedOps in Hd.
    rewrite (_process_nothing (mkOptions false false false)
               (setOps (mkProgram ls None []) defaultOps) Hnone) in Hd.
    cbn [snd fst] in Hd. inversion Hd; subst attrs. vm_compute. reflexivity. }
  rewrite Hattrs in Hp, Hq.
  assert (Htable : ops (setOps p0 (map_values initialOps)) = initialOps)
    by (vm_compute; reflexivity).
  rewrite Htable in Hq. clear Htable.
  destruct (_process_inv _ _ _ _ _ Hq) as (ls' & w' & Hw & -> & _).
  cbn [lines labels ops] in Hw.
  assert (Hfree : forallb (fun l => negb (isAttributeLine l)) (lines p0) = true).
  { unfold Program_parse in Hp. fold (rawLines content) in Hp.
    destruct (parseLines 1 0 (rawLines content) _) as [ls|] eqn:Hls; [|discriminate Hp].
    inversion Hp; subst p0. cbn [lines].
    destruct (parseLines_kinds 1 (mkParseOptions (Some (map_values initialOps)) None None)
                (rawLines content) eq_refl 0 ls Hls) as [_ L2].
    rewrite L2. exact Hno. }
  pose proof (processFrom_sameButData _ _ _ _ _ _ _ Hw) as Hsame.
  assert (Hfree' : forallb (fun l => negb (isAttributeLine l)) ls' = true).
  { rewrite (sameButData_directives _ _ Hsame). exact Hfree. }
  destruct (processFrom_count _ _ _ _ _ _ _ Hfree Hw) as [Hops _].
  cbn [w_ops] in Hops. cbn [lines labels ops]. rewrite Hops.
  split; [reflexivity|]. split; [|split; [|split]].
  - intros k l name Hk Hitem.
    destruct (Forall2_nth_error_r _ _ _ Hsame _ _ Hk) as (l0 & Hk0 & Hl0).
    assert (Hitem0 : item l0 = Some (label name)).
    { destruct Hl0 as (_ & _ & _ & _ & Hi). rewrite Hitem in Hi.
      destruct (item l0) as [[s0|n0|a0]|]; congruence. }
    destruct (nth_error_split _ _ Hk0) as (pre & post & Hsplit & Hlen).
    rewrite Hsplit in Hw.
    assert (Hsome : w_labels (mkWalk (Some []) initialOps [] false) <> None)
      by (intros E; discriminate E).
    destruct (label_bound_to_next_index (mkOptions true false false) 0 pre post l0 name
                (mkWalk (Some []) initialOps [] false) w' ws ls' eq_refl Hsome Hitem0 Hw)
      as (ws1 & pre' & wpre & Hpre & Hbind).
    assert (Hfpre : forallb (fun l => negb (isAttributeLine l)) pre = true).
    { rewrite Hsplit, forallb_app in Hfree. apply andb_true_iff in Hfree. tauto. }
    destruct (processFrom_count _ _ _ _ _ _ _ Hfpre Hpre) as [_ Hcount].
    cbn [w_ops instructions] in Hcount. simpl in Hcount.
    assert (Hfirst : firstn k (lines p0) = pre).
    { rewrite Hsplit, <- Hlen, firstn_app, Nat.sub_diag, firstn_all. simpl.
      apply app_nil_r. }
    destruct (sameButData_kinds initialOps _ _ (Forall2_firstn _ _ _ Hsame k))
      as (_ & _ & Hwords).
    unfold emittedBy. rewrite Hwords, Hfirst. fold (emittedBy initialOps pre).
    unfold binding in Hbind. destruct (w_labels w') as [m|]; [|discriminate Hbind].
    exists m. split; [reflexivity|]. rewrite Hbind, Hcount. reflexivity.
  - intros sink k ws2 ls2 w2 H2.
    destruct (processFrom_count _ _ _ _ _ _ _ (forallb_firstn _ _ Hfree' k) H2)
      as [_ Hcount].
    exact Hcount.
  - intros sink ws2 insts2. unfold assembleInstructions. rewrite H.
    destruct (_process (mkOptions false true sink) _) as [ws3 [[p3 i3]|e]] eqn:H3;
      intros E; inversion E; subst.
    destruct (_process_inv _ _ _ _ _ H3) as (ls3 & w3 & Hw3 & _ & ->).
    cbn [lines labels ops] in Hw3.
    destruct (processFrom_count _ _ _ _ _ _ _ Hfree' Hw3) as [_ Hcount].
    cbn [w_ops instructions] in Hcount. rewrite Hops in Hcount. exact Hcount.
  - split; [vm_compute; reflexivity|]. split; [vm_compute; reflexivity|].
    split; [vm_compute; reflexivity|]. split; vm_compute; reflexivity.
Qed.

Lemma labels_are_instruction_addresses_witness :
  noDirectives exampleSource = true
  /\ assembleResolved exampleSource = Ok exampleResolved
  /\ ops exampleResolved = initialOps
  /\ (forall k l name,
         nth_error (lines exampleResolved) k = Some l -> item l = Some (label name) ->
         exists m, labels exampleResolved = Some m
                   /\ map_get m name
                      = Some (emittedBy initialOps (firstn k (lines exampleResolved)))).
Proof.
  split; [vm_compute; reflexivity|]. split; [vm_compute; reflexivity|].
  assert (H := labels_are_instruction_addresses exampleSource exampleResolved).
  split; apply H; vm_compute; reflexivity.
Defined.

(** ** The operation table of [setOps] *)

Section SetOps.

Lemma upperChar_idempotent (c : ascii) : JS.upperChar (JS.upperChar c) = JS.upperChar c.
Proof.
  destruct c as [[] [] [] [] [] [] [] []]; vm_compute; reflexivity.
Qed.

Lemma toUpperCase_idempotent (s : string) :
  JS.toUpperCase (JS.toUpperCase s) = JS.toUpperCase s.
Proof.
  unfold JS.toUpperCase. induction s as [|c s IH]; simpl; [reflexivity|].
  rewrite upperChar_idempotent, IH. reflexivity.
Qed.

Lemma map_get_set {V : Type} (m : JSMap V) (k k' : string) (v : V) :
  map_get (map_set m k v) k' = if String.eqb k k' then Some v else map_get m k'.
Proof.
  destruct (String.eqb k k') eqn:E.
  - apply String.eqb_eq in E. subst k'. apply map_get_set_same.
  - apply String.eqb_neq in E. apply map_get_set_other. exact E.
Qed.

Lemma map_get_entries {V : Type} (es : list (string * V)) (k : string) :
  forall m : JSMap V,
    map_get (fold_left (fun m e => map_set m (fst e) (snd e)) es m) k
    = fold_left (fun acc e => if String.eqb (fst e) k then Some (snd e) else acc)
                es (map_get m k).
Proof.
  induction es as [|[k' v] es IH]; intros m; simpl; [reflexivity|].
  rewrite IH, map_get_set. reflexivity.
Qed.

Lemma entries_keys {V : Type} (P : string -> Prop) (es : list (string * V)) :
  Forall (fun e => P (fst e)) es ->
  forall m : JSMap V,
    NoDup (map_keys m) -> Forall (fun e => P (fst e)) m ->
    NoDup (map_keys (fold_left (fun m e => map_set m (fst e) (snd e)) es m))
    /\ Forall (fun e => P (fst e)) (fold_left (fun m e => map_set m (fst e) (snd e)) es m).
Proof.
  induction 1 as [|[k v] es Hk _ IH]; intros m Hnd Hm; simpl; [auto|].
  apply IH.
  - apply map_set_NoDup. exact Hnd.
  - apply map_set_keys_Forall; assumption.
Qed.

Lemma lastNamed_entries (os : list Operation) (name : string) :
  forall acc : option Operation,
    fold_left (fun acc e => if String.eqb (fst e) (JS.toUpperCase name)
                            then Some (snd e) else acc)
              (map (fun o => (JS.toUpperCase (op o), o)) os) acc
    = fold_left
        (fun acc o =>
           if String.eqb (JS.toUpperCase (op o)) (JS.toUpperCase name) then Some o else acc)
        os acc.
Proof.
  induction os as [|o os IH]; intros acc; simpl; [reflexivity|]. apply IH.
Qed.

End SetOps.

(** X10: [setOps] replaces the table and nothing else.  The keys of the new
    table are distinct and in upper case; under the name of an operation,
    in any letter case, sits the last operation of the list with that
    name, letter case apart; a key that is not in upper case finds
    nothing. *)
Theorem setOps_table (p : Program) (os : list Operation) :
  lines (setOps p os) = lines p
  /\ labels (setOps p os) = labels p
  /\ NoDup (map_keys (ops (setOps p os)))
  /\ Forall (fun k => JS.toUpperCase k = k) (map_keys (ops (setOps p os)))
  /\ (forall name, map_get (ops (setOps p os)) (JS.toUpperCase name) = lastNamed os name)
  /\ (forall k, JS.toUpperCase k <> k -> map_get (ops (setOps p os)) k = None).
Proof.
  split; [reflexivity|]. split; [reflexivity|].
  unfold setOps, map_of_entries. cbn [ops].
  set (es := map (fun o => (JS.toUpperCase (op o), o)) os).
  assert (Hes : Forall (fun e : string * Operation => JS.toUpperCase (fst e) = fst e) es).
  { apply Forall_forall. intros e Hin. apply in_map_iff in Hin.
    destruct Hin as (o & <- & _). simpl. apply toUpperCase_idempotent. }
  destruct (entries_keys (fun k => JS.toUpperCase k = k) es Hes [] (NoDup_nil _)
              (Forall_nil _)) as [Hnd Hup].
  assert (Hkeys : Forall (fun k => JS.toUpperCase k = k)
                         (map_keys (fold_left (fun m e => map_set m (fst e) (snd e)) es []))).
  { unfold map_keys. apply Forall_map. exact Hup. }
  split; [exact Hnd|]. split; [exact Hkeys|]. split.
  - intros name. rewrite map_get_entries. apply lastNamed_entries.
  - intros k Hk. apply map_get_None. intros Hin. rewrite Forall_forall in Hkeys.
    exact (Hk (Hkeys k Hin)).
Qed.

(** ** The word of an instruction *)

Section Words.

Lemma sameNumber_eq (a b : number) : sameNumber a b = true -> a = b.
Proof.
  destruct a as [[n d]| |], b as [[n' d']| |]; simpl; intros H; try discriminate H;
    try reflexivity.
  apply andb_true_iff in H. destruct H as [H1 H2].
  apply Z.eqb_eq in H1. apply Pos.eqb_eq in H2. subst. reflexivity.
Qed.

Lemma layoutOk_check :
  forallb (fun a => forallb (fun d => forallb (fun r =>
    layoutOk (Z.of_nat a) r (Z.of_nat d)) [true; false]) (seq 0 128)) (seq 0 16) = true.
Proof. vm_compute. reflexivity. Qed.

Lemma layoutOk_fields (a : Z) (r : bool) (d : Z) :
  0 <= a <= 15 -> 0 <= d <= 127 -> layoutOk a r d = true.
Proof.
  intros Ha Hd. pose proof layoutOk_check as H.
  rewrite forallb_forall in H. specialize (H (Z.to_nat a)).
  rewrite in_seq in H. specialize (H ltac:(lia)).
  rewrite forallb_forall in H. specialize (H (Z.to_nat d)).
  rewrite in_seq in H. specialize (H ltac:(lia)).
  rewrite forallb_forall in H. specialize (H r).
  rewrite !Z2Nat.id in H by lia. apply H. destruct r; simpl; auto.
Qed.

Lemma string_app_inj (s s' t t' : string) :
  String.length s = String.length s' -> s ++ t = s' ++ t' -> s = s' /\ t = t'.
Proof.
  revert s'. induction s as [|c s IH]; intros [|c' s'] Hl H; try discriminate Hl.
  - auto.
  - simpl in *. inversion H; subst. inversion Hl as [Hl'].
    destruct (IH _ Hl' H2) as [-> ->]. auto.
Qed.

Lemma word_small (a : Z) (r : bool) (d : Z) (c : string) :
  0 <= a <= 15 -> 0 <= d <= 127 ->
  word (mkInstruction (num_of_Z a) r (num_of_Z d) c) = wordOf a r d.
Proof.
  intros Ha Hd. rewrite word_wordOf. simpl _opcode. simpl _r1. simpl _data.
  rewrite !toInt32_of_int32 by lia. reflexivity.
Qed.


Lemma layout_facts (a : Z) (r : bool) (d : Z) :
  0 <= a <= 15 -> 0 <= d <= 127 ->
  wordOf a r d = a * 512 + (if r then 256 else 0) + d
  /\ Z.shiftr (wordOf a r d) 9 = a
  /\ Z.testbit (wordOf a r d) 8 = r
  /\ Z.land (wordOf a r d) 127 = d
  /\ String.length (hexWord (wordOf a r d)) = 4%nat
  /\ Number_ ("0x" ++ hexWord (wordOf a r d)) = Some (num_of_Z (wordOf a r d)).
Proof.
  intros Ha Hd. pose proof (layoutOk_fields a r d Ha Hd) as H. unfold layoutOk in H.
  cbv zeta in H.
  apply andb_true_iff in H. destruct H as [H H6].
  apply andb_true_iff in H. destruct H as [H H5].
  apply andb_true_iff in H. destruct H as [H H4].
  apply andb_true_iff in H. destruct H as [H H3].
  apply andb_true_iff in H. destruct H as [H1 H2].
  apply Z.eqb_eq in H1, H2, H4. apply Bool.eqb_prop in H3. apply Nat.eqb_eq in H5.
  destruct (Number_ ("0x" ++ hexWord (wordOf a r d))) as [n|]; [|discriminate H6].
  apply sameNumber_eq in H6. subst n. auto 10.
Qed.

End Words.

(** X11: the word of an instruction with an opcode from 0 to 15 and data
    from 0 to 127 is [opcode * 512 + register * 256 + data]: the opcode in
    the bits from 9 on, the register in bit 8, the data in the low seven
    bits.  Its line in the image is four hexadecimal digits, which
    [Number] reads back as the word, then a semicolon and the comment; so
    the line tells the opcode, the register, the data and the comment. *)
Theorem word_layout (a : Z) (r : bool) (d : Z) (c : string) :
  0 <= a <= 15 -> 0 <= d <= 127 ->
  let i := mkInstruction (num_of_Z a) r (num_of_Z d) c in
  word i = a * 512 + (if r then 256 else 0) + d
  /\ Z.shiftr (word i) 9 = a /\ Z.testbit (word i) 8 = r /\ Z.land (word i) 127 = d
  /\ Instruction_toString i = hexWord (word i) ++ ";" ++ c
  /\ String.length (hexWord (word i)) = 4%nat
  /\ Number_ ("0x" ++ hexWord (word i)) = Some (num_of_Z (word i))
  /\ (forall a' r' d' c',
         0 <= a' <= 15 -> 0 <= d' <= 127 ->
         Instruction_toString (mkInstruction (num_of_Z a') r' (num_of_Z d') c')
         = Instruction_toString i ->
         a' = a /\ r' = r /\ d' = d /\ c' = c).
Proof.
  intros Ha Hd i. unfold i. rewrite (word_small a r d c Ha Hd).
  destruct (layout_facts a r d Ha Hd) as (F1 & F2 & F3 & F4 & F5 & F6).
  split; [exact F1|]. split; [exact F2|]. split; [exact F3|]. split; [exact F4|].
  split; [unfold Instruction_toString; rewrite (word_small a r d c Ha Hd); reflexivity|].
  split; [exact F5|]. split; [exact F6|].
  intros a' r' d' c' Ha' Hd' Heq. unfold Instruction_toString in Heq.
  rewrite (word_small a r d c Ha Hd), (word_small a' r' d' c' Ha' Hd') in Heq.
  cbn [comment] in Heq. fold (hexWord (wordOf a' r' d')) in Heq.
  fold (hexWord (wordOf a r d)) in Heq.
  destruct (layout_facts a' r' d' Ha' Hd') as (_ & G2 & G3 & G4 & G5 & G6).
  destruct (string_app_inj _ _ _ _ (eq_trans G5 (eq_sym F5)) Heq) as [Hw Hc].
  rewrite Hw, F6 in G6. inversion G6 as [Hww].
  rewrite <- Hww in G2, G3, G4. inversion Hc. subst c'.
  split; [congruence|]. split; [congruence|]. split; [congruence|reflexivity].
Qed.

Lemma word_layout_witness :
  (0 <= 6 <= 15 /\ 0 <= 10 <= 127)
  /\ word (mkInstruction (num_of_Z 6) false (num_of_Z 10) "(Assembly: LD R0 000 1010)")
     = 6 * 512 + 0 + 10
  /\ Instruction_toString
       (mkInstruction (num_of_Z 6) false (num_of_Z 10) "(Assembly: LD R0 000 1010)")
     = "0c0a;(Assembly: LD R0 000 1010)".
Proof.
  assert (Ha : 0 <= 6 <= 15) by lia. assert (Hd : 0 <= 10 <= 127) by lia.
  split; [auto|].
  pose proof (word_layout 6 false 10 "(Assembly: LD R0 000 1010)" Ha Hd) as H.
  split; [apply H|]. vm_compute. reflexivity.
Defined.

(** ** The output path of the command line *)

Section OutputPath.

Lemma string_length_app (s t : string) :
  String.length (s ++ t) = (String.length s + String.length t)%nat.
Proof. induction s as [|c s IH]; simpl; [reflexivity|]. rewrite IH. reflexivity. Qed.

Lemma sliceFrom_app (s t : string) : JS.sliceFrom (String.length s) (s ++ t) = t.
Proof. induction s as [|c s IH]; simpl; [destruct t; reflexivity|exact IH]. Qed.

Lemma sliceTo_app (s t : string) : JS.sliceTo (String.length s) (s ++ t) = s.
Proof. induction s as [|c s IH]; simpl; [reflexivity|]. rewrite IH. reflexivity. Qed.

Lemma endsWith_app (s t : string) : endsWith (s ++ t) t = true.
Proof.
  unfold endsWith. rewrite string_length_app.
  replace (String.length s + String.length t - String.length t)%nat
    with (String.length s) by lia.
  rewrite sliceFrom_app, String.eqb_refl, andb_true_r. apply Nat.leb_le. lia.
Qed.

Lemma mapString_app (f : ascii -> ascii) (s t : string) :
  JS.mapString f (s ++ t) = JS.mapString f s ++ JS.mapString f t.
Proof. induction s as [|c s IH]; simpl; [reflexivity|]. rewrite IH. reflexivity. Qed.

Lemma lastIndexOf_cons (c : ascii) (s sub : string) :
  lastIndexOf (String c s) sub
  = match lastIndexOf s sub with
    | Some n => Some (S n)
    | None => if String.prefix sub (String c s) then Some O else None
    end.
Proof. reflexivity. Qed.

Lemma lastIndexOf_None (c0 : ascii) (s : string) :
  JS.indexOf s (String c0 EmptyString) = None ->
  lastIndexOf s (String c0 EmptyString) = None.
Proof.
  induction s as [|c s IH]; intros H.
  - reflexivity.
  - rewrite indexOf_cons in H. rewrite lastIndexOf_cons.
    destruct (String.prefix (String c0 EmptyString) (String c s)); [discriminate H|].
    destruct (JS.indexOf s (String c0 EmptyString)); [discriminate H|].
    rewrite (IH eq_refl). reflexivity.
Qed.

Lemma lastIndexOf_dot (stem ext : string) :
  JS.includes ext "." = false ->
  lastIndexOf (stem ++ "." ++ ext) "." = Some (String.length stem).
Proof.
  intros H. apply includes_indexOf in H. apply lastIndexOf_None in H.
  induction stem as [|c stem IH].
  - change (EmptyString ++ "." ++ ext) with (String "." ext).
    rewrite lastIndexOf_cons, H. cbn [String.prefix].
    destruct (Ascii.ascii_dec "." "."); [|congruence].
    destruct ext; reflexivity.
  - change (String c stem ++ "." ++ ext) with (String c (stem ++ "." ++ ext)).
    rewrite lastIndexOf_cons, IH. reflexivity.
Qed.

End OutputPath.

(** X12: the command line throws when the input path is missing or empty,
    and otherwise writes to a path that ends with [.hex], letter case
    apart. *)
Theorem outputPath_ends_with_hex (arg1 arg2 : option string) :
  match outputPath arg1 arg2 with
  | Some p => argGiven arg1 = true /\ endsWith (JS.toLowerCase p) ".hex" = true
  | None => argGiven arg1 = false
  end.
Proof.
  unfold outputPath, argGiven. destruct arg1 as [input|]; [|reflexivity].
  destruct (JS.truthy input); [|reflexivity].
  set (outPath := match arg2 with Some _ => _ | None => _ end).
  destruct (endsWith (JS.toLowerCase outPath) ".hex") eqn:E; cbn [negb].
  - auto.
  - split; [reflexivity|]. unfold JS.toLowerCase. rewrite mapString_app.
    apply endsWith_app.
Qed.

(** X13: without an output path, an input path [stem.ext] whose extension
    holds no further dot is written to [stem.hex], or to [stem] when that
    ends with [.hex] already; so an input path that ends with [.hex] is the
    output path as well, and the image is written over the source. *)
Theorem outputPath_replaces_last_extension (stem ext : string) :
  JS.includes ext "." = false ->
  outputPath (Some (stem ++ "." ++ ext)) None
  = Some (if endsWith (JS.toLowerCase stem) ".hex" then stem else stem ++ ".hex")
  /\ outputPath (Some (stem ++ "." ++ ext)) (Some EmptyString)
     = outputPath (Some (stem ++ "." ++ ext)) None
  /\ (ext = "hex" -> endsWith (JS.toLowerCase stem) ".hex" = false ->
      outputPath (Some (stem ++ "." ++ ext)) None = Some (stem ++ "." ++ ext)).
Proof.
  intros H.
  assert (Hmain : outputPath (Some (stem ++ "." ++ ext)) None
                  = Some (if endsWith (JS.toLowerCase stem) ".hex"
                          then stem else stem ++ ".hex")).
  { unfold outputPath.
    assert (Ht : JS.truthy (stem ++ "." ++ ext) = true) by (destruct stem; reflexivity).
    rewrite Ht, (lastIndexOf_dot stem ext H), sliceTo_app.
    destruct (endsWith (JS.toLowerCase stem) ".hex"); reflexivity. }
  split; [exact Hmain|]. split; [reflexivity|].
  intros -> Hstem. rewrite Hmain, Hstem. reflexivity.
Qed.

Lemma outputPath_replaces_last_extension_witness :
  JS.includes "asm" "." = false
  /\ outputPath (Some ("dir/prog" ++ "." ++ "asm")) None = Some "dir/prog.hex".
Proof.
  split; [reflexivity|].
  destruct (outputPath_replaces_last_extension "dir/prog" "asm" eq_refl) as [H _].
  exact H.
Defined.

(** ** The items of a line *)

Section Items.

Lemma parseStatement_label_excludes_data (text : string) (options : ParseOptions)
    (s : Statement) :
  parseStatement text options = Ok s ->
  forall j, s_jumpLabel s = Some j -> s_data s = None /\ JS.includes j " " = false.
Proof.
  unfold parseStatement. destruct (JS.indexOf (JS.trim text) " ") as [ix|].
  - destruct (parseRegister knownRegisters _) as [r t].
    destruct (JS.startsWith t ":").
    + destruct (JS.includes (JS.sliceFrom 1 t) " ") eqn:Hinc; [intros H; discriminate H|].
      cbn. intros H. inversion H; subst. cbn. intros j Hj. inversion Hj; subst. auto.
    + destruct (if JS.truthy t then _ else _); cbn; intros H; inversion H; subst.
      cbn. intros j Hj. discriminate Hj.
  - intros H. inversion H; subst. cbn. intros j Hj. discriminate Hj.
Qed.

End Items.

(** X14: what [Line.parse] makes of a line when every item type is parsed.
    The line is kept as it is, with its two comments and its trimmed code
    text; the item is an attribute when the code text starts with [@], a
    label when it starts with [:], named by the text after the colon, which
    holds no space, a statement when the text is not empty otherwise, and
    nothing when it is empty.  A statement with a jump label has no data of
    its own, and its label holds no space. *)
Theorem Line_parse_classifies (a : Alloc) (l : string) (options : ParseOptions)
    (parsed : Line) :
  parseItemTypes options = None -> Line_parse a l options = Ok parsed ->
  line parsed = l
  /\ uncommentedLine parsed = codeText l
  /\ l_comment parsed = snd (fst (splitComments l))
  /\ secretComment parsed = fst (fst (splitComments l))
  /\ match item parsed with
     | None => codeText l = EmptyString
     | Some (attribute at') =>
         JS.startsWith (codeText l) "@" = true
         /\ content at' = JS.sliceFrom 1 (codeText l)
     | Some (label n) =>
         JS.startsWith (codeText l) ":" = true
         /\ n = JS.sliceFrom 1 (codeText l)
         /\ JS.includes n " " = false
     | Some (statement s) =>
         JS.startsWith (codeText l) "@" = false
         /\ JS.startsWith (codeText l) ":" = false
         /\ JS.truthy (codeText l) = true
         /\ parseStatement (codeText l) options = Ok s
         /\ (forall j, s_jumpLabel s = Some j ->
                       s_data s = None /\ JS.includes j " " = false)
     end.
Proof.
  intros Hall. unfold Line_parse, codeText.
  destruct (splitComments l) as [[sc c] text]. cbn [fst snd].
  destruct (parseItem a (JS.trim text) options) as [it|] eqn:Hit;
    intros H; [|discriminate H].
  inversion H; subst parsed. cbn [line uncommentedLine l_comment secretComment item].
  split; [reflexivity|]. split; [reflexivity|]. split; [reflexivity|].
  split; [reflexivity|].
  revert Hit. unfold parseItem, canParse. rewrite Hall.
  destruct (JS.startsWith (JS.trim text) "@") eqn:Hat.
  - destruct (JS.startsWith (JS.trim text) "@define").
    + destruct (Operation_parse a _); intros E; inversion E; subst. cbn. auto.
    + destruct (String.eqb _ _); intros E; inversion E; subst. cbn. auto.
  - destruct (JS.startsWith (JS.trim text) ":") eqn:Hcolon.
    + destruct (JS.includes _ _) eqn:Hinc; intros E; inversion E; subst. auto.
    + destruct (JS.truthy (JS.trim text)) eqn:Ht; cbn [andb].
      * destruct (parseStatement (JS.trim text) options) as [s|] eqn:Hs;
          intros E; inversion E; subst.
        split; [reflexivity|]. split; [reflexivity|]. split; [reflexivity|].
        split; [reflexivity|]. exact (parseStatement_label_excludes_data _ _ _ Hs).
      * intros E; inversion E; subst. destruct (JS.trim text); [reflexivity|].
        discriminate Ht.
Qed.

Lemma Line_parse_classifies_witness :
  Line_parse (Defined 1 3) "  BZ R0 :Finished // loop # note"
             (mkParseOptions (Some defaultOps) None None)
  = Ok (mkLine "  BZ R0 :Finished // loop # note" "BZ R0 :Finished"
               (Some (statement (mkStatement "BZ" (Some R0) None (Some "Finished"))))
               (Some " loop ") (Some " note"))
  /\ codeText "  BZ R0 :Finished // loop # note" = "BZ R0 :Finished"
  /\ parseStatement (codeText "  BZ R0 :Finished // loop # note")
                    (mkParseOptions (Some defaultOps) None None)
     = Ok (mkStatement "BZ" (Some R0) None (Some "Finished")).
Proof.
  assert (H : Line_parse (Defined 1 3) "  BZ R0 :Finished // loop # note"
                         (mkParseOptions (Some defaultOps) None None)
              = Ok (mkLine "  BZ R0 :Finished // loop # note" "BZ R0 :Finished"
                      (Some (statement (mkStatement "BZ" (Some R0) None (Some "Finished"))))
                      (Some " loop ") (Some " note")))
    by (vm_compute; reflexivity).
  split; [exact H|]. split; [vm_compute; reflexivity|].
  pose proof (Line_parse_classifies (Defined 1 3) _
                (mkParseOptions (Some defaultOps) None None) _ eq_refl H)
    as (_ & _ & _ & _ & K).
  cbn [item] in K. apply K.
Defined.

(** ** What the assembler reads of the source *)

Section Visible.

Lemma sameButQuote_refl (e : Error) : sameButQuote e e.
Proof. destruct e; simpl; auto. Qed.

Lemma Line_parse_visible (a : Alloc) (l l' : string) (options : ParseOptions) :
  visible l = visible l' ->
  match Line_parse a l options, Line_parse a l' options with
  | Ok p, Ok p' => sameCore p p'
  | Throw e, Throw e' => e = e'
  | _, _ => False
  end.
Proof.
  unfold visible, codeText, Line_parse.
  destruct (splitComments l) as [[sc c] text].
  destruct (splitComments l') as [[sc' c'] text']. cbn [fst snd].
  intros H. inversion H as [[Hc Ht]]. rewrite Ht.
  destruct (parseItem a (JS.trim text') options); [|reflexivity].
  unfold sameCore. cbn. auto.
Qed.

Lemma parseLines_visible (parse : nat) (options : ParseOptions) (ls : list string) :
  forall ls' ix,
    map visible ls = map visible ls' ->
    related (Forall2 sameCore) (parseLines parse ix ls options)
            (parseLines parse ix ls' options).
Proof.
  induction ls as [|l ls IH]; intros [|l' ls'] ix H; try discriminate H.
  - simpl. constructor.
  - pose proof (f_equal (@List.hd _ (visible l)) H) as Hl.
    pose proof (f_equal (@List.tl _) H) as Hrest.
    cbn [map List.hd List.tl] in Hl, Hrest. simpl.
    pose proof (Line_parse_visible (Defined parse ix) l l' options Hl) as Hp.
    destruct (Line_parse (Defined parse ix) l options) as [p|e],
             (Line_parse (Defined parse ix) l' options) as [p'|e']; try contradiction.
    + specialize (IH ls' (S ix) Hrest). unfold related in *.
      destruct (parseLines parse (S ix) ls options) as [ps|e],
               (parseLines parse (S ix) ls' options) as [ps'|e']; try contradiction.
      * constructor; assumption.
      * exact IH.
    + subst e'. simpl. auto.
Qed.

Lemma assemblyComment_core (l l' : Line) (labels : option (JSMap nat)) (address : nat) :
  sameCore l l' -> assemblyComment l labels address = assemblyComment l' labels address.
Proof.
  intros (Hu & _ & Hc). unfold assemblyComment. rewrite Hu, Hc. reflexivity.
Qed.

Lemma processStatement_core (options : ProgramProcessOptions) (i : nat) (l l' : Line)
    (s : Statement) (w : Walk) :
  sameCore l l' -> processStatement options i l s w = processStatement options i l' s w.
Proof.
  intros H. unfold processStatement.
  destruct (resolveJumpLabel options (w_labels w) s) as [s1|]; [|reflexivity].
  destruct (map_get (w_ops w) (JS.toUpperCase (s_op s1))) as [o|]; [|reflexivity].
  rewrite (assemblyComment_core l l' _ _ H). reflexivity.
Qed.

Lemma processLine_core (options : ProgramProcessOptions) (i : nat) (l l' : Line)
    (w : Walk) :
  sameCore l l' ->
  fst (processLine options i l w) = fst (processLine options i l' w)
  /\ match snd (processLine options i l w), snd (processLine options i l' w) with
     | Ok (l1, w1), Ok (l1', w1') => sameCore l1 l1' /\ w1 = w1'
     | Throw e, Throw e' => e = e'
     | _, _ => False
     end.
Proof.
  intros H. pose proof H as (Hu & Hitem & Hc). unfold processLine. rewrite <- Hitem.
  destruct (item l) as [[s|n|a]|] eqn:Hi.
  - rewrite <- (processStatement_core options i l l' s w H).
    destruct (processStatement options i l s w) as [ws [[s1 w1]|e]]; cbn; [|auto].
    split; [reflexivity|]. split; [|reflexivity]. unfold sameCore. cbn. auto.
  - cbn. destruct (processLabel options n w); cbn; auto.
  - cbn. auto.
  - cbn. auto.
Qed.

Lemma processFrom_core (options : ProgramProcessOptions) (ls ls' : list Line) :
  Forall2 sameCore ls ls' ->
  forall i w,
    fst (processFrom options i ls w) = fst (processFrom options i ls' w)
    /\ related (fun a a' => Forall2 sameCore (fst a) (fst a') /\ snd a = snd a')
               (snd (processFrom options i ls w)) (snd (processFrom options i ls' w)).
Proof.
  induction 1 as [|l l' ls ls' Hl _ IH]; intros i w; simpl.
  - split; [reflexivity|]. split; [constructor|reflexivity].
  - destruct (processLine_core options i l l' w Hl) as [H1 H2].
    destruct (processLine options i l w) as [ws [[l1 w1]|e]],
             (processLine options i l' w) as [ws' [[l1' w1']|e']];
      cbn [fst snd] in H1, H2; try contradiction; subst ws'.
    + destruct H2 as [Hc ->]. destruct (IH (S i) w1') as [I1 I2].
      destruct (processFrom options (S i) ls w1') as [ws2 r2],
               (processFrom options (S i) ls' w1') as [ws2' r2'].
      cbn [fst snd] in *. subst ws2'. split; [reflexivity|].
      unfold related in *. destruct r2 as [[a b]|e2], r2' as [[a' b']|e2'];
        try contradiction; cbn [fst snd] in *.
      * destruct I2 as [I2 ->]. split; [constructor; assumption|reflexivity].
      * exact I2.
    + subst e'. cbn. auto.
Qed.

Lemma _process_core (options : ProgramProcessOptions) (p p' : Program) :
  sameProgram p p' ->
  fst (_process options p) = fst (_process options p')
  /\ related (fun a a' => sameProgram (fst a) (fst a') /\ snd a = snd a')
             (snd (_process options p)) (snd (_process options p')).
Proof.
  intros (Hlines & Hlabels & Hops). unfold _process. rewrite <- Hlabels, <- Hops.
  destruct (processFrom_core options _ _ Hlines 0 (mkWalk (labels p) (ops p) [] false))
    as [H1 H2].
  destruct (processFrom options 0 (lines p) _) as [ws r],
           (processFrom options 0 (lines p') _) as [ws' r'].
  cbn [fst snd] in *. split; [exact H1|].
  unfold related in *. destruct r as [[a b]|e], r' as [[a' b']|e']; try contradiction;
    cbn [fst snd] in *; [|exact H2].
  destruct H2 as [H2 ->]. unfold sameProgram. cbn. auto.
Qed.

Lemma Program_parse_visible (parse : nat) (content content' : string)
    (options : ParseOptions) :
  map visible (rawLines content) = map visible (rawLines content') ->
  related sameProgram (Program_parse parse content options)
          (Program_parse parse content' options).
Proof.
  intros H. unfold Program_parse. fold (rawLines content) (rawLines content').
  pose proof (parseLines_visible parse options _ _ 0 H) as Hp. unfold related in *.
  destruct (parseLines parse 0 (rawLines content) options) as [ls|e],
           (parseLines parse 0 (rawLines content') options) as [ls'|e'];
    try contradiction; [|exact Hp].
  unfold sameProgram. cbn. auto.
Qed.

Lemma assembleResolved_visible (content content' : string) :
  map visible (rawLines content) = map visible (rawLines content') ->
  related sameProgram (assembleResolved content) (assembleResolved content').
Proof.
  intros H. unfold assembleResolved.
  pose proof (Program_parse_visible 0 content content' onlyAttributes H) as H0.
  unfold related in H0.
  destruct (Program_parse 0 content onlyAttributes) as [a0|e0],
           (Program_parse 0 content' onlyAttributes) as [a0'|e0'];
    try contradiction; [|exact H0].
  assert (Hset : sameProgram (setOps a0 defaultOps) (setOps a0' defaultOps)).
  { destruct H0 as (L & M & _). unfold sameProgram, setOps. cbn. auto. }
  unfold loadDefinedOps.
  destruct (_process_core (mkOptions false false false) _ _ Hset) as [_ H1].
  unfold related in H1.
  destruct (snd (_process (mkOptions false false false) (setOps a0 defaultOps)))
    as [[a1 i1]|e1],
    (snd (_process (mkOptions false false false) (setOps a0' defaultOps)))
    as [[a1' i1']|e1']; try contradiction; [|exact H1].
  cbn [fst snd] in *. destruct H1 as [(_ & _ & Hops) _]. rewrite <- Hops.
  pose proof (Program_parse_visible 1 content content'
                (mkParseOptions (Some (map_values (ops a1))) None None) H) as H2.
  unfold related in H2.
  destruct (Program_parse 1 content _) as [p0|e2] eqn:E2,
           (Program_parse 1 content' _) as [p0'|e2'] eqn:E2';
    try contradiction; [|exact H2].
  pose proof (Program_parse_clean _ _ _ _ E2) as [_ N].
  pose proof (Program_parse_clean _ _ _ _ E2') as [_ N'].
  unfold Program_resolveLabels.
  change (labels (setOps p0 (map_values (ops a1)))) with (labels p0).
  change (labels (setOps p0' (map_values (ops a1)))) with (labels p0').
  rewrite N, N'.
  set (start := mkProgram (lines (setOps p0 _)) (Some []) _).
  set (start' := mkProgram (lines (setOps p0' _)) (Some []) _).
  assert (Hstart : sameProgram start start').
  { destruct H2 as (L & _ & _). unfold sameProgram, start, start', setOps. cbn. auto. }
  destruct (_process_core (mkOptions true false false) _ _ Hstart) as [_ H3].
  unfold related in *.
  destruct (snd (_process (mkOptions true false false) start)) as [[p1 j1]|e3],
           (snd (_process (mkOptions true false false) start')) as [[p1' j1']|e3'];
    try contradiction; [|exact H3].
  cbn [fst snd] in *. tauto.
Qed.

End Visible.

(** X15: the assembler reads of a line only its [//] comment and its
    trimmed code text.  Two sources whose lines agree on these two give the
    same warnings and the same image, or errors with the same line number
    and the same cause: the secret comments after [#], and the white space
    around the code, never reach the image. *)
Theorem secret_comments_do_not_reach_the_image (content content' : string) (sink : bool) :
  map visible (rawLines content) = map visible (rawLines content') ->
  fst (assemble content sink) = fst (assemble content' sink)
  /\ related eq (snd (assemble content sink)) (snd (assemble content' sink)).
Proof.
  intros H. pose proof (assembleResolved_visible content content' H) as HR.
  unfold assemble. unfold related in HR.
  destruct (assembleResolved content) as [prog|e], (assembleResolved content') as [prog'|e'];
    try contradiction; [|split; [reflexivity|exact HR]].
  unfold emit. destruct HR as (L & M & O). rewrite <- M.
  destruct (labels prog) eqn:Hl; [|split; [reflexivity|cbn; reflexivity]].
  destruct (_process_core (mkOptions false true sink) prog prog') as [H1 H2].
  { unfold sameProgram. rewrite Hl. auto. }
  destruct (_process (mkOptions false true sink) prog) as [ws r],
           (_process (mkOptions false true sink) prog') as [ws' r'].
  cbn [fst snd] in *. split; [exact H1|].
  unfold related in *. destruct r as [[a b]|e1], r' as [[a' b']|e1']; try contradiction;
    cbn [fst snd] in *; [|exact H2].
  destruct H2 as [_ ->]. reflexivity.
Qed.

Lemma secret_comments_do_not_reach_the_image_witness :
  map visible (rawLines "LD R0 000 1010 // ten # decimal 10")
  = map visible (rawLines "   LD R0 000 1010   // ten #")
  /\ snd (assemble "LD R0 000 1010 // ten # decimal 10" true)
     = Ok (unlines ("0c0a; ten  (Assembly: LD R0 000 1010)" :: repeat filler 63))
  /\ related eq (snd (assemble "LD R0 000 1010 // ten # decimal 10" true))
                (snd (assemble "   LD R0 000 1010   // ten #" true)).
Proof.
  split; [vm_compute; reflexivity|]. split; [vm_compute; reflexivity|].
  apply (secret_comments_do_not_reach_the_image
           "LD R0 000 1010 // ten # decimal 10" "   LD R0 000 1010   // ten #" true).
  vm_compute; reflexivity.
Defined.

Section CarriageReturns.

Lemma removeAll_idempotent (c : ascii) (s : string) :
  JS.removeAll c (JS.removeAll c s) = JS.removeAll c s.
Proof.
  induction s as [|a s IH]; simpl; [reflexivity|].
  destruct (Ascii.eqb a c) eqn:E; [exact IH|]. simpl. rewrite E, IH. reflexivity.
Qed.

End CarriageReturns.

(** X16: carriage returns are dropped before anything else is done:
    [assemble] gives the same warnings and the same result, errors
    included, for a source and for the source without its carriage
    returns. *)
Theorem carriage_returns_are_ignored (content : string) (sink : bool) :
  rawLines (JS.removeAll "013" content) = rawLines content
  /\ assemble (JS.removeAll "013" content) sink = assemble content sink.
Proof.
  assert (H : rawLines (JS.removeAll "013" content) = rawLines content).
  { unfold rawLines. rewrite removeAll_idempotent. reflexivity. }
  split; [exact H|].
  unfold assemble, assembleResolved, Program_parse.
  fold (rawLines (JS.removeAll "013" content)) (rawLines content).
  rewrite H. reflexivity.
Qed.

(** ** The errors of [assemble] *)

Section Causes.

Ltac innermost x :=
  lazymatch x with
  | (match ?y with _ => _ end) => innermost y
  | _ => destruct x eqn:?
  end.

Ltac throw_step :=
  lazymatch goal with
  | |- Throw _ = Throw _ -> _ =>
      let H := fresh in intros H; inversion H; subst; try reflexivity
  | |- Ok _ = Throw _ -> _ => let H := fresh in intros H; discriminate H
  | |- (match ?x with _ => _ end) = Throw _ -> _ => innermost x
  end.

Lemma applyModifiers_causes (opcodeStr : string) (options : list string) :
  forall i entry e,
    applyModifiers opcodeStr i options entry = Throw e -> isSyntaxCause e = true.
Proof.
  induction options as [|o rest IH]; intros i entry e; simpl.
  - intros H; discriminate H.
  - destruct (String.eqb o "no-reg"); [apply IH|].
    destruct (String.eqb o "no-data"); [apply IH|].
    intros H; inversion H; reflexivity.
Qed.

Lemma parseOutput_causes (outputStr : string) (e : Error) :
  parseOutput outputStr = Throw e -> isSyntaxCause e = true.
Proof.
  unfold parseOutput. destruct (filter JS.truthy (JS.split " " outputStr)) as [|o options].
  - intros H; inversion H; reflexivity.
  - destruct (Number_ o); [apply applyModifiers_causes|].
    intros H; inversion H; reflexivity.
Qed.

Lemma parseOutputs_causes (outputStrs : list string) (e : Error) :
  parseOutputs outputStrs = Throw e -> isSyntaxCause e = true.
Proof.
  induction outputStrs as [|o rest IH]; simpl; [intros H; discriminate H|].
  destruct (parseOutput o) eqn:Ho; [|intros H; inversion H; subst;
                                      exact (parseOutput_causes _ _ Ho)].
  destruct (parseOutputs rest); [intros H; discriminate H|].
  intros H; inversion H; subst. apply IH. reflexivity.
Qed.

Lemma Operation_parse_causes (a : Alloc) (text : string) (e : Error) :
  Operation_parse a text = Throw e -> isSyntaxCause e = true.
Proof.
  unfold Operation_parse. repeat throw_step;
    try (eapply parseOutputs_causes; eassumption).
Qed.

Lemma parseStatement_causes (text : string) (options : ParseOptions) (e : Error) :
  parseStatement text options = Throw e -> isSyntaxCause e = true.
Proof.
  unfold parseStatement. repeat throw_step.
Qed.

Lemma Line_parse_causes (a : Alloc) (l : string) (options : ParseOptions) (e : Error) :
  Line_parse a l options = Throw e -> isSyntaxCause e = true.
Proof.
  unfold Line_parse. destruct (splitComments l) as [[sc c] text].
  destruct (parseItem a (JS.trim text) options) eqn:Hp; [intros H; discriminate H|].
  intros H; inversion H; subst. revert Hp. unfold parseItem.
  repeat throw_step.
  - eapply Operation_parse_causes. eassumption.
  - eapply parseStatement_causes. eassumption.
Qed.


Lemma encodeOutputs_causes (s : Statement) (c : string) (outs : list OperationOutput) :
  forall insts e,
    encodeOutputs outs s c insts = Throw e -> isUnvalidatedCause e = true.
Proof.
  induction outs as [|out rest IH]; intros insts e; simpl; [intros H; discriminate H|].
  unfold encode, Instruction_new.
  destruct (gtZ (dataField out s) 127); [intros H; inversion H; reflexivity|].
  destruct (gtZ (opcode out) 15); [intros H; inversion H; reflexivity|].
  apply IH.
Qed.

Lemma processLine_causes (options : ProgramProcessOptions) (i : nat) (l : Line) (w : Walk)
    (e : Error) :
  snd (processLine options i l w) = Throw e ->
  isWalkCause e = true
  /\ (validateInstructionArgs options = false -> isUnvalidatedCause e = true).
Proof.
  unfold processLine. destruct (item l) as [[s|n|a]|]; cbn [snd];
    try (intros H; discriminate H).
  - unfold processStatement, resolveJumpLabel.
    destruct (match s_jumpLabel s with Some _ => _ | None => _ end) as [s1|e1] eqn:Hr.
    + destruct (map_get (w_ops w) (JS.toUpperCase (s_op s1))) as [o|];
        [|cbn; intros H; inversion H; subst; cbn; auto].
      destruct (validateInstructionArgs options) eqn:Hv.
      * unfold validateArgs.
        destruct (reg o), (s_reg s1), (data o), (s_data s1); cbn;
          try destruct (negb (jumpLabelTruthy s1) && negb (unreachable w)); cbn;
          try (intros H; inversion H; subst; cbn; split; [reflexivity|];
               intros E; discriminate E);
          destruct (encodeOutputs (output o) s1 _ (instructions w)) eqn:He; cbn;
          intros H; inversion H; subst;
          pose proof (encodeOutputs_causes _ _ _ _ _ He) as Hc;
          destruct e; try discriminate Hc; cbn; auto.
      * cbn. destruct (encodeOutputs (output o) s1 _ (instructions w)) eqn:He; cbn;
          intros H; inversion H; subst.
        pose proof (encodeOutputs_causes _ _ _ _ _ He) as Hc.
        destruct e; try discriminate Hc; cbn; auto.
    + cbn. intros H; inversion H; subst e1.
      destruct (s_jumpLabel s) as [j|]; [|discriminate Hr].
      destruct (JS.truthy j); [|discriminate Hr].
      destruct (match w_labels w with Some m => map_get m j | None => None end);
        [discriminate Hr|].
      destruct (validateInstructionArgs options); inversion Hr; subst. cbn.
      split; [reflexivity|]. intros E; discriminate E.
  - unfold processLabel. destruct (negb (resolveLabels options)); cbn;
      [intros H; discriminate H|].
    destruct (w_labels w) as [m|]; cbn; [|intros H; discriminate H].
    destruct (map_has m n); cbn; intros H; inversion H; subst. cbn. auto.
Qed.

Lemma processFrom_causes (options : ProgramProcessOptions) (ls : list Line) :
  forall i w e,
    snd (processFrom options i ls w) = Throw e ->
    exists n c cause,
      e = FailedToEmit n c cause /\ isWalkCause cause = true
      /\ (validateInstructionArgs options = false -> isUnvalidatedCause cause = true).
Proof.
  induction ls as [|l rest IH]; intros i w e; simpl; [intros H; discriminate H|].
  pose proof (processLine_causes options i l w) as Hl.
  destruct (processLine options i l w) as [ws [[l1 w1]|e1]]; cbn [snd] in *.
  - specialize (IH (S i) w1 e).
    destruct (processFrom options (S i) rest w1) as [ws2 [[ls2 w2]|e2]]; cbn [snd] in *;
      [intros H; discriminate H|].
    intros H; inversion H; subst. apply IH. reflexivity.
  - intros H; inversion H; subst. destruct (Hl e1 eq_refl) as [H1 H2].
    exists (i + 1)%nat, (line l), e1. auto.
Qed.

Lemma _process_causes (options : ProgramProcessOptions) (p : Program) (e : Error) :
  snd (_process options p) = Throw e ->
  exists n c cause,
    e = FailedToEmit n c cause /\ isWalkCause cause = true
    /\ (validateInstructionArgs options = false -> isUnvalidatedCause cause = true).
Proof.
  unfold _process.
  pose proof (processFrom_causes options (lines p) 0 (mkWalk (labels p) (ops p) [] false) e)
    as H.
  destruct (processFrom options 0 (lines p) _) as [ws [[ls w]|e1]]; cbn [snd] in *;
    [intros E; discriminate E|].
  intros E; inversion E; subst. apply H. reflexivity.
Qed.

Lemma Program_parse_causes (parse : nat) (content : string) (options : ParseOptions)
    (e : Error) :
  Program_parse parse content options = Throw e ->
  exists n c cause, e = SyntaxErrorAt n c cause /\ isSyntaxCause cause = true.
Proof.
  unfold Program_parse.
  destruct (parseLines parse 0 _ options) as [ls|e1] eqn:Hp; [intros H; discriminate H|].
  intros H; inversion H; subst.
  destruct (parseLines_error _ _ _ _ _ Hp) as (k & l & cause & _ & -> & Hl).
  exists (0 + k + 1)%nat, l, cause. split; [reflexivity|].
  exact (Line_parse_causes _ _ _ _ Hl).
Qed.

End Causes.

(** X17: the errors of [assemble].  It throws nothing but a syntax error
    whose cause is an error of [Line.parse], [parseStatement] or
    [Operation.parse], or an emit error whose cause is an error of the walk
    of [_process]: a label defined twice or never defined, an unknown
    operation, a register or a value that is missing or in excess, or a
    field that is too wide.  When the error comes before [emit] is called,
    the walk has not validated the arguments, and the cause is a label
    defined twice, an unknown operation or a field that is too wide.
    [Generate labels before emitting instructions] is never thrown. *)
Theorem assemble_error_causes (content : string) (sink : bool) (ws : list Warning)
    (e : Error) :
  assemble content sink = (ws, Throw e) ->
  match e with
  | SyntaxErrorAt _ _ cause => isSyntaxCause cause = true
  | FailedToEmit _ _ cause =>
      isWalkCause cause = true
      /\ (assembleResolved content = Throw e -> isUnvalidatedCause cause = true)
  | _ => False
  end.
Proof.
  unfold assemble. destruct (assembleResolved content) as [prog|e0] eqn:HR.
  - destruct (assembleResolved_clean _ _ HR) as (_ & _ & Hsome).
    unfold emit. destruct (labels prog) as [m|]; [|congruence].
    pose proof (_process_causes (mkOptions false true sink) prog) as Hc.
    destruct (_process (mkOptions false true sink) prog) as [ws1 [[p1 i1]|e1]];
      cbn [snd] in *; intros H; inversion H; subst.
    destruct (Hc e eq_refl) as (n & c & cause & -> & Hw & _).
    split; [exact Hw|]. intros E; discriminate E.
  - intros H; inversion H; subst e0 ws. clear H.
    unfold assembleResolved in HR.
    destruct (Program_parse 0 content onlyAttributes) as [a0|e0] eqn:H0.
    2:{ inversion HR; subst e0.
        destruct (Program_parse_causes _ _ _ _ H0) as (n & c & cause & -> & Hs).
        exact Hs. }
    unfold loadDefinedOps in HR.
    pose proof (_process_causes (mkOptions false false false) (setOps a0 defaultOps)) as H1.
    destruct (snd (_process (mkOptions false false false) (setOps a0 defaultOps)))
      as [[a1 i1]|e1].
    2:{ inversion HR; subst e1.
        destruct (H1 e eq_refl) as (n & c & cause & -> & Hw & Hu).
        split; [exact Hw|]. intros _. apply Hu. reflexivity. }
    cbn [fst] in HR.
    destruct (Program_parse 1 content _) as [p0|e2] eqn:H2.
    2:{ inversion HR; subst e2.
        destruct (Program_parse_causes _ _ _ _ H2) as (n & c & cause & -> & Hs).
        exact Hs. }
    unfold Program_resolveLabels in HR.
    destruct (labels (setOps p0 (map_values (ops a1)))); [discriminate HR|].
    set (start := mkProgram _ (Some []) _) in HR.
    pose proof (_process_causes (mkOptions true false false) start) as H3.
    destruct (snd (_process (mkOptions true false false) start)) as [[p1 j1]|e3];
      [discriminate HR|].
    inversion HR; subst e3.
    destruct (H3 e eq_refl) as (n & c & cause & -> & Hw & Hu).
    split; [exact Hw|]. intros _. apply Hu. reflexivity.
Qed.

Lemma assemble_error_causes_witness :
  assemble "B :nowhere" true
  = ([], Throw (FailedToEmit 1 "B :nowhere" (LabelNeverDefined "nowhere")))
  /\ isWalkCause (LabelNeverDefined "nowhere") = true.
Proof.
  assert (H : assemble "B :nowhere" true
              = ([], Throw (FailedToEmit 1 "B :nowhere" (LabelNeverDefined "nowhere"))))
    by (vm_compute; reflexivity).
  split; [exact H|].
  exact (proj1 (assemble_error_causes "B :nowhere" true [] _ H)).
Defined.

(** ** The name of an operation *)

Section OperationNames.

Lemma trimStart_head (s : string) (c : ascii) (t : string) :
  JS.trimStart s = String c t -> JS.isWhiteSpace c = false.
Proof.
  induction s as [|a s IH]; simpl; [intros H; discriminate H|].
  destruct (JS.isWhiteSpace a) eqn:E; [exact IH|].
  intros H. inversion H; subst. exact E.
Qed.

Lemma trimEnd_head (s : string) (c : ascii) (t : string) :
  JS.trimEnd s = String c t -> exists t', s = String c t'.
Proof.
  destruct s as [|a s]; simpl; [intros H; discriminate H|].
  destruct (JS.trimEnd s).
  - destruct (JS.isWhiteSpace a); intros H; inversion H; subst. eauto.
  - intros H; inversion H; subst. eauto.
Qed.

Lemma trim_head (s : string) (c : ascii) (t : string) :
  JS.trim s = String c t -> JS.isWhiteSpace c = false.
Proof.
  unfold JS.trim. intros H. destruct (trimEnd_head _ _ _ H) as (t' & Ht).
  exact (trimStart_head _ _ _ Ht).
Qed.

Lemma first_word (text : string) (n : nat) :
  JS.indexOf (JS.trim text) " " = Some n ->
  JS.sliceTo n (JS.trim text) <> EmptyString
  /\ JS.includes (JS.sliceTo n (JS.trim text)) " " = false
  /\ exists rest, JS.trim text = JS.sliceTo n (JS.trim text) ++ " " ++ rest.
Proof.
  intros H. split; [|split].
  - destruct (JS.trim text) as [|c t] eqn:Ht.
    + rewrite indexOf_nil in H. discriminate H.
    + pose proof (trim_head _ _ _ Ht) as Hc. rewrite indexOf_cons in H.
      cbn [String.prefix] in H.
      destruct (Ascii.ascii_dec " " c) as [<-|_]; [discriminate Hc|].
      destruct (JS.indexOf t " "); [|discriminate H].
      inversion H; subst. simpl. intros E; discriminate E.
  - apply includes_indexOf. apply indexOf_first; [intros E; discriminate E|exact H].
  - exists (JS.sliceFrom (n + String.length " ") (JS.trim text)).
    exact (indexOf_split " " _ _ H).
Qed.

Ltac innermost x :=
  lazymatch x with
  | (match ?y with _ => _ end) => innermost y
  | _ => destruct x eqn:?
  end.

Ltac ok_step :=
  lazymatch goal with
  | |- Throw _ = Ok _ -> _ => let H := fresh in intros H; discriminate H
  | |- Ok _ = Ok _ -> _ => let H := fresh in intros H; inversion H; subst
  | |- (match ?x with _ => _ end) = Ok _ -> _ => innermost x
  end.

Lemma Operation_parse_op (a : Alloc) (text : string) (o : Operation) :
  Operation_parse a text = Ok o ->
  exists n, JS.indexOf (JS.trim text) " " = Some n /\ op o = JS.sliceTo n (JS.trim text).
Proof.
  unfold Operation_parse. repeat ok_step; eauto.
Qed.

End OperationNames.

(** X18: the name of an operation that [Operation.parse] returns is the
    first word of the definition: the text before the first space of the
    trimmed definition.  It is not empty and holds no space. *)
Theorem Operation_parse_name (a : Alloc) (text : string) (o : Operation) :
  Operation_parse a text = Ok o ->
  alloc o = a
  /\ op o <> EmptyString
  /\ JS.includes (op o) " " = false
  /\ exists rest, JS.trim text = op o ++ " " ++ rest.
Proof.
  intros H. split; [exact (Operation_parse_alloc _ _ _ H)|].
  destruct (Operation_parse_op _ _ _ H) as (n & Hn & ->).
  exact (first_word text n Hn).
Qed.

Lemma Operation_parse_name_witness :
  Operation_parse (BuiltIn 10) "WRITE reg=optional data=binary => 6, 8 no-data"
  = Ok (mkOperation (BuiltIn 10) "WRITE" optional binary false
          [mkOutput (num_of_Z 6) true true; mkOutput (num_of_Z 8) true false])
  /\ JS.includes "WRITE" " " = false.
Proof.
  assert (H : Operation_parse (BuiltIn 10) "WRITE reg=optional data=binary => 6, 8 no-data"
              = Ok (mkOperation (BuiltIn 10) "WRITE" optional binary false
                      [mkOutput (num_of_Z 6) true true; mkOutput (num_of_Z 8) true false]))
    by (vm_compute; reflexivity).
  split; [exact H|].
  destruct (Operation_parse_name _ _ _ H) as (_ & _ & K & _). exact K.
Defined.

(** ** The instructions of [emit] in closed form *)

Section ClosedForm.

(** The program of a source without directives. *)
Lemma noDirectives_resolved (content : string) (prog : Program) :
  noDirectives content = true -> assembleResolved content = Ok prog ->
  ops prog = initialOps
  /\ forallb (fun l => negb (isAttributeLine l)) (lines prog) = true.
Proof.
  intros Hno H.
  destruct (assembleResolved_inv _ _ H) as (attrs & p0 & ws & insts & Hd & Hp & Hq).
  assert (Hattrs : ops attrs = initialOps).
  { unfold directivePass, Program_parse in Hd. fold (rawLines content) in Hd.
    destruct (parseLines 0 0 (rawLines content) onlyAttributes) as [ls|] eqn:Hls;
      [|discriminate Hd].
    pose proof (parseLines_noDirectives _ _ _ _ Hno Hls) as Hnone.
    unfold loadDefinedOps in Hd.
    rewrite (_process_nothing (mkOptions false false false)
               (setOps (mkProgram ls None []) defaultOps) Hnone) in Hd.
    cbn [snd fst] in Hd. inversion Hd; subst attrs. vm_compute. reflexivity. }
  rewrite Hattrs in Hp, Hq.
  assert (Htable : ops (setOps p0 (map_values initialOps)) = initialOps)
    by (vm_compute; reflexivity).
  rewrite Htable in Hq. clear Htable.
  destruct (_process_inv _ _ _ _ _ Hq) as (ls' & w' & Hw & -> & _).
  cbn [lines labels ops] in Hw.
  assert (Hfree : forallb (fun l => negb (isAttributeLine l)) (lines p0) = true).
  { unfold Program_parse in Hp. fold (rawLines content) in Hp.
    destruct (parseLines 1 0 (rawLines content) _) as [ls|] eqn:Hls; [|discriminate Hp].
    inversion Hp; subst p0. cbn [lines].
    destruct (parseLines_kinds 1 (mkParseOptions (Some (map_values initialOps)) None None)
                (rawLines content) eq_refl 0 ls Hls) as [_ L2].
    rewrite L2. exact Hno. }
  pose proof (processFrom_sameButData _ _ _ _ _ _ _ Hw) as Hsame.
  destruct (processFrom_count _ _ _ _ _ _ _ Hfree Hw) as [Hops _].
  cbn [lines ops]. split; [exact Hops|].
  rewrite (sameButData_directives _ _ Hsame). exact Hfree.
Qed.

Lemma processLine_words (sink : bool) (i : nat) (l : Line) (w : Walk) (ws : list Warning)
    (l' : Line) (w' : Walk) :
  isAttributeLine l = false ->
  processLine (mkOptions false true sink) i l w = (ws, Ok (l', w')) ->
  instructions w'
  = (instructions w
     ++ wordsAt (w_ops w) (w_labels w) (List.length (instructions w)) l)%list
  /\ w_ops w' = w_ops w /\ w_labels w' = w_labels w.
Proof.
  unfold isAttributeLine, processLine, wordsAt.
  destruct (item l) as [[s|n|a]|] eqn:Hitem; intros Ha; try discriminate Ha.
  - destruct (processStatement (mkOptions false true sink) i l s w)
      as [ws0 [[s' w0]|e]] eqn:Hs; intros H; inversion H; subst.
    destruct (processStatement_ok _ _ _ _ _ _ _ _ Hs) as (o & Hr & Hg & _ & ->).
    destruct (resolveJumpLabel_keeps _ _ _ _ Hr) as (Hop & _ & _).
    assert (Hr' : resolveJumpLabel (mkOptions false true false) (w_labels w) s = Ok s')
      by exact Hr.
    unfold resolved. rewrite Hr', <- Hop, Hg. cbn. auto.
  - unfold processLabel. cbn. intros H; inversion H; subst. cbn.
    rewrite app_nil_r. auto.
  - intros H; inversion H; subst. rewrite app_nil_r. auto.
Qed.

Lemma processFrom_words (sink : bool) (ls : list Line) :
  forall i w ws ls' w',
    forallb (fun l => negb (isAttributeLine l)) ls = true ->
    processFrom (mkOptions false true sink) i ls w = (ws, Ok (ls', w')) ->
    instructions w'
    = (instructions w
       ++ encodeLines (w_ops w) (w_labels w) (List.length (instructions w)) ls)%list.
Proof.
  induction ls as [|l rest IH]; intros i w ws ls' w' Ha H; simpl in H.
  - inversion H; subst. simpl. rewrite app_nil_r. reflexivity.
  - simpl in Ha. apply andb_true_iff in Ha. destruct Ha as [Hl Hrest].
    apply negb_true_iff in Hl.
    destruct (processLine (mkOptions false true sink) i l w) as [ws1 [[l1 w1]|e]] eqn:H1;
      [|inversion H].
    destruct (processFrom (mkOptions false true sink) (S i) rest w1)
      as [ws2 [[ls2 w2]|e]] eqn:H2; inversion H; subst.
    destruct (processLine_words _ _ _ _ _ _ _ Hl H1) as (W1 & O1 & L1).
    rewrite (IH _ _ _ _ _ Hrest H2), O1, L1, W1. simpl.
    rewrite length_app, <- app_assoc. reflexivity.
Qed.

End ClosedForm.

(** X19: the instructions of a source without directives, in closed form.
    When [assemble] gets through, the instructions that [emit] turns into
    text are, line after line, the words of the statements: for each
    statement one instruction for each output descriptor of its operation
    in the built-in table, with the data of the statement or the address of
    its label, and with the comment of the line at the address of its
    first word.  Labels and blank lines give no word, and nothing is left
    out after an unconditional jump. *)
Theorem emit_is_concatenation (content : string) (sink : bool) (prog : Program)
    (ws : list Warning) (insts : list Instruction) :
  noDirectives content = true -> assembleResolved content = Ok prog ->
  assembleInstructions content sink = (ws, Ok insts) ->
  insts = encodeLines initialOps (labels prog) 0 (lines prog)
  /\ assemble content sink
     = (ws, Ok (image (encodeLines initialOps (labels prog) 0 (lines prog)))).
Proof.
  intros Hno H Hi. destruct (noDirectives_resolved _ _ Hno H) as [Hops Hfree].
  assert (Hinsts : insts = encodeLines initialOps (labels prog) 0 (lines prog)).
  { unfold assembleInstructions in Hi. rewrite H in Hi.
    destruct (_process (mkOptions false true sink) prog) as [ws3 [[p3 i3]|e]] eqn:H3;
      inversion Hi; subst.
    destruct (_process_inv _ _ _ _ _ H3) as (ls3 & w3 & Hw3 & _ & ->).
    rewrite (processFrom_words _ _ _ _ _ _ _ Hfree Hw3). cbn. rewrite Hops. reflexivity. }
  split; [exact Hinsts|].
  rewrite assemble_image, Hi. cbn. rewrite Hinsts. reflexivity.
Qed.

Lemma emit_is_concatenation_witness :
  noDirectives exampleSource = true
  /\ assembleResolved exampleSource = Ok exampleResolved
  /\ assembleInstructions exampleSource true = ([], Ok exampleInstructions)
  /\ exampleInstructions
     = encodeLines initialOps (labels exampleResolved) 0 (lines exampleResolved).
Proof.
  assert (H1 : noDirectives exampleSource = true) by (vm_compute; reflexivity).
  assert (H2 : assembleResolved exampleSource = Ok exampleResolved)
    by (vm_compute; reflexivity).
  assert (H3 : assembleInstructions exampleSource true = ([], Ok exampleInstructions))
    by (vm_compute; reflexivity).
  split; [exact H1|]. split; [exact H2|]. split; [exact H3|].
  exact (proj1 (emit_is_concatenation exampleSource true exampleResolved []
                  exampleInstructions H1 H2 H3)).
Defined.

(** ** Blank lines at the end of the source *)

Section Trailing.

Lemma split_nonempty (c : ascii) (s : string) : JS.split c s <> [].
Proof.
  destruct s as [|a s]; simpl; [intros H; discriminate H|].
  destruct (Ascii.eqb a c); [intros H; discriminate H|].
  destruct (JS.split c s); intros H; discriminate H.
Qed.

Lemma split_app (c : ascii) (s t : string) :
  JS.split c (s ++ String c t) = (JS.split c s ++ JS.split c t)%list.
Proof.
  induction s as [|a s IH]; simpl.
  - rewrite Ascii.eqb_refl. reflexivity.
  - destruct (Ascii.eqb a c); [rewrite IH; reflexivity|].
    rewrite IH. pose proof (split_nonempty c s) as Hne.
    destruct (JS.split c s) as [|p ps]; [contradiction|]. reflexivity.
Qed.

Lemma removeAll_app (c : ascii) (s t : string) :
  JS.removeAll c (s ++ t) = JS.removeAll c s ++ JS.removeAll c t.
Proof.
  induction s as [|a s IH]; simpl; [reflexivity|].
  destruct (Ascii.eqb a c); rewrite IH; reflexivity.
Qed.

Lemma rawLines_app (content tail : string) :
  rawLines (content ++ newline ++ tail) = (rawLines content ++ rawLines tail)%list.
Proof.
  unfold rawLines, newline. rewrite removeAll_app.
  change (JS.removeAll "013" (String "010" EmptyString ++ tail))
    with (String "010" (JS.removeAll "013" tail)).
  apply split_app.
Qed.

Lemma parseLines_app (parse : nat) (options : ParseOptions) (xs ys : list string) :
  forall ix,
    parseLines parse ix (xs ++ ys) options
    = match parseLines parse ix xs options with
      | Throw e => Throw e
      | Ok ps =>
          qs <- parseLines parse (ix + List.length xs) ys options ;; Ok (ps ++ qs)%list
      end.
Proof.
  induction xs as [|x xs IH]; intros ix; simpl.
  - rewrite Nat.add_0_r. destruct (parseLines parse ix ys options); reflexivity.
  - destruct (Line_parse (Defined parse ix) x options); [|reflexivity].
    rewrite IH. replace (S ix + List.length xs)%nat with (ix + S (List.length xs))%nat by lia.
    destruct (parseLines parse (S ix) xs options); [|reflexivity].
    destruct (parseLines parse (ix + S (List.length xs)) ys options); reflexivity.
Qed.

Lemma Program_parse_trailing (parse : nat) (content tail : string)
    (options : ParseOptions) :
  blank tail = true ->
  exists qs,
    Forall (fun l => item l = None) qs
    /\ Program_parse parse (content ++ newline ++ tail) options
       = match Program_parse parse content options with
         | Throw e => Throw e
         | Ok p => Ok (withLines p qs)
         end.
Proof.
  intros Hb.
  assert (Hall : Forall (fun l => codeText l = EmptyString) (rawLines tail)).
  { unfold blank in Hb. rewrite forallb_forall in Hb. apply Forall_forall.
    intros l Hin. specialize (Hb l Hin). destruct (codeText l); [reflexivity|].
    discriminate Hb. }
  destruct (parseLines_blank parse options (rawLines tail)
              (0 + List.length (rawLines content)) Hall) as (qs & Hqs & Hnone).
  exists qs. split; [exact Hnone|].
  unfold Program_parse. fold (rawLines (content ++ newline ++ tail)) (rawLines content).
  rewrite rawLines_app, parseLines_app, Hqs.
  destruct (parseLines parse 0 (rawLines content) options); reflexivity.
Qed.

Lemma processFrom_trailing (options : ProgramProcessOptions) (ls qs : list Line) :
  Forall (fun l => item l = None) qs ->
  forall i w,
    processFrom options i (ls ++ qs) w
    = match processFrom options i ls w with
      | (ws, Throw e) => (ws, Throw e)
      | (ws, Ok (ls', w')) => (ws, Ok ((ls' ++ qs)%list, w'))
      end.
Proof.
  intros Hqs i w. rewrite processFrom_app.
  destruct (processFrom options i ls w) as [ws [[ls' w']|e]]; [|reflexivity].
  rewrite (processFrom_nothing options qs _ w' Hqs). cbn. rewrite app_nil_r. reflexivity.
Qed.

Lemma _process_trailing (options : ProgramProcessOptions) (p : Program) (qs : list Line) :
  Forall (fun l => item l = None) qs ->
  _process options (withLines p qs)
  = match _process options p with
    | (ws, Throw e) => (ws, Throw e)
    | (ws, Ok (p', insts)) => (ws, Ok (withLines p' qs, insts))
    end.
Proof.
  intros Hqs. unfold _process, withLines. cbn [lines labels ops].
  rewrite (processFrom_trailing options (lines p) qs Hqs).
  destruct (processFrom options 0 (lines p) _) as [ws [[ls' w']|e]]; reflexivity.
Qed.

Lemma assembleResolved_trailing (content tail : string) :
  blank tail = true ->
  exists qs,
    Forall (fun l => item l = None) qs
    /\ assembleResolved (content ++ newline ++ tail)
       = match assembleResolved content with
         | Throw e => Throw e
         | Ok prog => Ok (withLines prog qs)
         end.
Proof.
  intros Hb. unfold assembleResolved.
  destruct (Program_parse_trailing 0 content tail onlyAttributes Hb) as (q0 & Hq0 & ->).
  destruct (Program_parse 0 content onlyAttributes) as [a0|e0].
  2:{ exists []. split; [constructor|reflexivity]. }
  unfold loadDefinedOps.
  change (setOps (withLines a0 q0) defaultOps) with (withLines (setOps a0 defaultOps) q0).
  rewrite (_process_trailing _ _ _ Hq0).
  destruct (_process (mkOptions false false false) (setOps a0 defaultOps))
    as [ws1 [[a1 i1]|e1]]; cbn [snd fst].
  2:{ exists []. split; [constructor|reflexivity]. }
  change (ops (withLines a1 q0)) with (ops a1).
  destruct (Program_parse_trailing 1 content tail
              (mkParseOptions (Some (map_values (ops a1))) None None) Hb)
    as (q1 & Hq1 & ->).
  destruct (Program_parse 1 content _) as [p0|e2] eqn:E2.
  2:{ exists []. split; [constructor|reflexivity]. }
  pose proof (Program_parse_clean _ _ _ _ E2) as [_ N].
  exists q1. split; [exact Hq1|].
  unfold Program_resolveLabels.
  change (labels (setOps (withLines p0 q1) (map_values (ops a1)))) with (labels p0).
  change (labels (setOps p0 (map_values (ops a1)))) with (labels p0).
  rewrite N.
  change (mkProgram (lines (setOps (withLines p0 q1) (map_values (ops a1)))) (Some [])
            (ops (setOps (withLines p0 q1) (map_values (ops a1)))))
    with (withLines (mkProgram (lines (setOps p0 (map_values (ops a1)))) (Some [])
                       (ops (setOps p0 (map_values (ops a1))))) q1).
  rewrite (_process_trailing _ _ _ Hq1).
  destruct (_process (mkOptions true false false) _) as [ws3 [[p1 j1]|e3]]; reflexivity.
Qed.

End Trailing.

(** X20: blank lines at the end of the source change nothing: a source
    followed by a line feed and by lines that are blank or hold comments
    only gives the same warnings and the same image, or the same error, as
    the source alone.  So a line feed at the end of the file is
    harmless. *)
Theorem trailing_blank_lines_are_ignored (content tail : string) (sink : bool) :
  blank tail = true ->
  assemble (content ++ newline ++ tail) sink = assemble content sink.
Proof.
  intros Hb. destruct (assembleResolved_trailing content tail Hb) as (qs & Hqs & HR).
  unfold assemble. rewrite HR.
  destruct (assembleResolved content) as [prog|e]; [|reflexivity].
  unfold emit. change (labels (withLines prog qs)) with (labels prog).
  destruct (labels prog); [|reflexivity].
  rewrite (_process_trailing _ _ _ Hqs).
  destruct (_process (mkOptions false true sink) prog) as [ws [[p1 i1]|e]]; reflexivity.
Qed.

Lemma trailing_blank_lines_are_ignored_witness :
  blank EmptyString = true
  /\ assemble (exampleSource ++ newline ++ EmptyString) true = assemble exampleSource true.
Proof.
  split; [reflexivity|].
  apply (trailing_blank_lines_are_ignored exampleSource EmptyString true). reflexivity.
Defined.
